(** * Bloom filters and scalable Bloom filters ([BloomFilter.py])

    A shallow embedding of the two classes of [BloomFilter.py] and the
    properties its specification states about them.

    Conventions of the embedding:
    - Python integers are [Z];
    - Python floats are idealised as real numbers [R]: [math.log] is [ln] on
      its domain, [int(math.ceil x)] is [Zceil x], and the arithmetic is
      exact.  The rounding of IEEE doubles and the overflow of a float
      computation are not part of the model, and the theorems are stated so
      as not to depend on them: they take a filter as the constructor left
      it, whatever its size and hash count; or they state an order or a
      sign, which rounding keeps; or they restrict a computation to the
      range where the arithmetic of doubles is exact (integers below
      [2^53]), far from overflow, or decided with a margin;
    - [float(n)] of an integer is [IZR n]; in [calc_error_rate], whose
      argument can be the element count, which [union] doubles without
      bound, it is [py_float n], with the [OverflowError] of an integer
      outside the range of doubles;
    - a raised exception is the [Raise] outcome of the [result] monad;
    - [mmh3.hash] is an arbitrary function from a string and a seed to an
      integer: every theorem holds for every such function;
    - a [bitarray] is a [list bool];
    - the [BloomFilter] objects held by a [ScalableBloomFilter] live in a
      store and the [filters] list holds references into it, since
      [ScalableBloomFilter.union] shares the objects of its operands. *)

From Stdlib Require Import Reals Lra Lia ZArith.
From stdpp Require Import base list gmap strings.

(** ** Exceptions and the error monad *)

Inductive exn : Set :=
| ValueError
| ZeroDivisionError
| IndexError
| OverflowError
| DanglingRef. (* a reference absent from the store: excluded by [sbf_ok] *)

Inductive result (A : Type) : Type :=
| Ok (a : A)
| Raise (e : exn).
Arguments Ok {A} a.
Arguments Raise {A} e.

Definition bind {A B : Type} (c : result A) (k : A -> result B) : result B :=
  match c with
  | Ok a => k a
  | Raise e => Raise e
  end.

Notation "'let!' x ':=' c 'in' k" := (bind c (fun x => k))
  (at level 10, x pattern, c at level 100, k at level 200).

Definition raises {A : Type} (c : result A) : Prop := exists e, c = Raise e.

(** ** Python primitives used by the module *)

(** [math.log x]: a domain error outside the positive numbers. *)
Definition py_log (x : R) : result R :=
  if Rlt_dec 0 x then Ok (ln x) else Raise ValueError.

(** Float division [a / b]. *)
Definition py_fdiv (a b : R) : result R :=
  if Req_dec_T b 0 then Raise ZeroDivisionError else Ok (a / b)%R.

(** Integer remainder [a % b]: the sign of the result follows the divisor,
    as [Z.modulo] does. *)
Definition py_mod (a b : Z) : result Z :=
  if (b =? 0)%Z then Raise ZeroDivisionError else Ok (a mod b)%Z.

(** [int(x)] on a float: truncation toward zero. *)
Definition py_int (x : R) : Z :=
  if Rle_dec 0 x then Zfloor x else Zceil x.

(** [float(n)] on an integer: the nearest double, and an [OverflowError]
    when that is beyond the largest double [2^1024 - 2^971], which is from
    [2^1024 - 2^970] on.  The rounding is not modelled. *)
Definition float_max_int : Z := (2 ^ 1024 - 2 ^ 970)%Z.

Definition py_float (n : Z) : result R :=
  if (Z.abs n <? float_max_int)%Z then Ok (IZR n) else Raise OverflowError.

(** Float power [x ** y]: 1 for a zero exponent; a zero base gives 0 for
    a positive exponent and a [ZeroDivisionError] for a negative one; a
    negative base is accepted for integral exponents only. *)
Definition py_pow (x y : R) : result R :=
  if Req_dec_T y 0 then Ok 1%R
  else if Rlt_dec 0 x then Ok (Rpower x y)
  else if Req_dec_T x 0 then
    if Rlt_dec y 0 then Raise ZeroDivisionError else Ok 0%R
  else if Req_dec_T (IZR (Zfloor y)) y then Ok (powerRZ x (Zfloor y))
  else Raise ValueError.

(** [xrange(n)]: [0, 1, ..., n-1], empty when [n <= 0]. *)
Definition xrange (n : Z) : list Z := seqZ 0 n.

(** Index normalisation of a Python sequence: negative indices count from
    the end, anything out of range is an [IndexError]. *)
Definition py_index {A : Type} (l : list A) (i : Z) : result nat :=
  let n := Z.of_nat (length l) in
  let j := if (i <? 0)%Z then (i + n)%Z else i in
  if ((0 <=? j)%Z && (j <? n)%Z)%bool then Ok (Z.to_nat j) else Raise IndexError.

Definition getitem {A : Type} (l : list A) (i : Z) : result A :=
  let! j := py_index l i in
  match l !! j with
  | Some x => Ok x
  | None => Raise IndexError
  end.

Definition setitem {A : Type} (l : list A) (i : Z) (v : A) : result (list A) :=
  let! j := py_index l i in Ok (<[j := v]> l).

(** [bitarray(n)] followed by [setall(0)]. *)
Definition bitarray_zeros (n : Z) : result (list bool) :=
  if (n <? 0)%Z then Raise ValueError else Ok (replicate (Z.to_nat n) false).

(** [a | b] and [a & b] on bitarrays: the lengths must agree. *)
Definition bitarray_binop (op : bool -> bool -> bool) (a b : list bool)
  : result (list bool) :=
  if decide (length a = length b) then Ok (zip_with op a b) else Raise ValueError.

(** [bitarray.count()]: the number of bits set to 1. *)
Definition bitarray_count (a : list bool) : nat :=
  length (base.filter (fun b : bool => b = true) a).

(** ** class BloomFilter *)

Module BloomFilter.

Record t : Type := Build {
  capacity : Z;
  element_count : Z;
  error_rate : R;
  size : Z;
  hash_count : Z;
  bit_array : list bool
}.

Definition set_bit_array (f : t) (bits : list bool) : t :=
  Build (capacity f) (element_count f) (error_rate f) (size f) (hash_count f) bits.

Definition set_element_count (f : t) (n : Z) : t :=
  Build (capacity f) n (error_rate f) (size f) (hash_count f) (bit_array f).

(** [calc_size]: [int(ceil(-(float(capacity) * log(float(error_rate))) / log(2)**2))],
    in exact arithmetic: the source's result is the one of the same
    expression in doubles, which rounding can move by one, and an
    [OverflowError] for a capacity beyond the range of doubles. *)
Definition calc_size (capacity : Z) (error_rate : R) : result Z :=
  let! l := py_log error_rate in
  let! l2 := py_log 2 in
  let! q := py_fdiv (- (IZR capacity * l))%R (l2 ^ 2)%R in
  Ok (Zceil q).

(** [calc_hash_count]: [int(ceil((float(size) / float(capacity)) * log(2)))],
    in exact arithmetic. *)
Definition calc_hash_count (size capacity : Z) : result Z :=
  let! q := py_fdiv (IZR size) (IZR capacity) in
  let! l2 := py_log 2 in
  Ok (Zceil (q * l2)%R).

(** [calc_element_count]:
    [x = float(bit_array.count())],
    [int(ceil(-(float(size) * log(1.0 - x / float(size))) / float(hash_count)))]. *)
Definition calc_element_count (f : t) : result Z :=
  let x := INR (bitarray_count (bit_array f)) in
  let! q := py_fdiv x (IZR (size f)) in
  let! l := py_log (1 - q)%R in
  let! r := py_fdiv (- (IZR (size f) * l))%R (IZR (hash_count f)) in
  Ok (Zceil r).

(** [calc_error_rate(use_capacity)]:
    [(1.0 - (1.0 - 1.0 / float(size)) ** (float(hash_count) * n))
     ** float(hash_count)]
    with [n] the capacity or the element count, converted first.  The
    conversions raise as [float] does; the arithmetic is exact. *)
Definition calc_error_rate (f : t) (use_capacity : bool) : result R :=
  let! n := if use_capacity then py_float (capacity f)
            else py_float (element_count f) in
  let! m := py_float (size f) in
  let! q := py_fdiv 1 m in
  let! k := py_float (hash_count f) in
  let! a := py_pow (1 - q) (k * n) in
  let! k' := py_float (hash_count f) in
  py_pow (1 - a) k'.

(** [__init__(capacity, error_rate)]. *)
Definition init (capacity : Z) (error_rate : R) : result t :=
  if negb (0 <? capacity)%Z then Raise ValueError
  else if Rlt_dec 0 error_rate then
    if Rlt_dec error_rate 1 then
      let! size := calc_size capacity error_rate in
      let! hash_count := calc_hash_count size capacity in
      let! bits := bitarray_zeros size in
      Ok (Build capacity 0 error_rate size hash_count bits)
    else Raise ValueError
  else Raise ValueError.

(** [is_full]. *)
Definition is_full (f : t) : bool :=
  if (element_count f <? capacity f)%Z then false else true.

Section Hashing.

Variable hash : string -> Z -> Z.

(** The loop of [add]: one bit per seed. *)
Fixpoint add_loop (f : t) (element : string) (seeds : list Z) (bits : list bool)
  : result (list bool) :=
  match seeds with
  | [] => Ok bits
  | seed :: seeds' =>
      let! position := py_mod (hash element seed) (size f) in
      let! bits' := setitem bits position true in
      add_loop f element seeds' bits'
  end.

(** [add(element)]. *)
Definition add (f : t) (element : string) : result t :=
  let! bits := add_loop f element (xrange (hash_count f)) (bit_array f) in
  Ok (Build (capacity f) (element_count f + 1) (error_rate f) (size f)
            (hash_count f) bits).

(** [lookup(element)]: [False] at the first probe that finds a 0 bit. *)
Fixpoint lookup_loop (f : t) (element : string) (seeds : list Z) : result bool :=
  match seeds with
  | [] => Ok true
  | seed :: seeds' =>
      let! position := py_mod (hash element seed) (size f) in
      let! b := getitem (bit_array f) position in
      if b then lookup_loop f element seeds' else Ok false
  end.

Definition lookup (f : t) (element : string) : result bool :=
  lookup_loop f element (xrange (hash_count f)).

(** [__contains__(string)]. *)
Definition __contains__ (f : t) (element : string) : result bool :=
  lookup f element.

(** Repeated [add], in the order of the list. *)
Fixpoint add_all (f : t) (elements : list string) : result t :=
  match elements with
  | [] => Ok f
  | e :: rest => let! f' := add f e in add_all f' rest
  end.

End Hashing.

(** [union(b)]: [None] when the filters are not compatible. *)
Definition union (f b : t) : result (option t) :=
  if negb (size f =? size b)%Z then Ok None
  else if negb (hash_count f =? hash_count b)%Z then Ok None
  else
    let! r := init (capacity f) (error_rate f) in
    let! bits := bitarray_binop orb (bit_array f) (bit_array b) in
    let r := set_bit_array r bits in
    Ok (Some (set_element_count r (element_count f + element_count b))).

(** [intersection(b)]: [None] when the filters are not compatible; the
    element count of the result is estimated from its bits. *)
Definition intersection (f b : t) : result (option t) :=
  if negb (size f =? size b)%Z then Ok None
  else if negb (hash_count f =? hash_count b)%Z then Ok None
  else
    let! r := init (capacity f) (error_rate f) in
    let! bits := bitarray_binop andb (bit_array f) (bit_array b) in
    let r := set_bit_array r bits in
    let! n := calc_element_count r in
    Ok (Some (set_element_count r n)).

End BloomFilter.

(** ** class ScalableBloomFilter *)

Module ScalableBloomFilter.

Definition SCALE_MODE_LINEAR : Z := 1.
Definition SCALE_MODE_EXPONENTIAL : Z := 2.

(** References to [BloomFilter] objects and the store that holds them. *)
Definition ref : Type := positive.
Abbreviation store := (gmap positive BloomFilter.t).

Record t : Type := Build {
  initial_capacity : Z;
  element_count : Z;
  error_rate : R;
  scale_factor : R;
  scale_mode : Z;
  filters : list ref
}.

Definition set_filters (s : t) (fs : list ref) : t :=
  Build (initial_capacity s) (element_count s) (error_rate s) (scale_factor s)
        (scale_mode s) fs.

Definition set_element_count (s : t) (n : Z) : t :=
  Build (initial_capacity s) n (error_rate s) (scale_factor s) (scale_mode s)
        (filters s).

(** Allocation of a new object and access to an existing one. *)
Definition alloc (h : store) (f : BloomFilter.t) : ref * store :=
  let l := fresh (dom h) in (l, <[l := f]> h).

Definition deref (h : store) (l : ref) : result BloomFilter.t :=
  match h !! l with
  | Some f => Ok f
  | None => Raise DanglingRef
  end.

(** [filters[-1]]. *)
Definition last_filter (fs : list ref) : result ref :=
  getitem fs (-1).

(** [__init__(initial_capacity, error_rate, scale_factor, scale_mode)]. *)
Definition init (initial_capacity : Z) (error_rate scale_factor : R)
    (scale_mode : Z) (h : store) : result (t * store) :=
  if negb (0 <? initial_capacity)%Z then Raise ValueError
  else if Rlt_dec 0 error_rate then
    if Rlt_dec error_rate 1 then
      if Rlt_dec 0 scale_factor then
        if bool_decide (scale_mode ∈ [1; 2]%Z) then
          let! f := BloomFilter.init initial_capacity error_rate in
          let '(l, h') := alloc h f in
          Ok (Build initial_capacity 0 error_rate scale_factor scale_mode [l], h')
        else Raise ValueError
      else Raise ValueError
    else Raise ValueError
  else Raise ValueError.

(** [calc_next_capacity]: [int] of the product, in exact arithmetic.  For a
    scale factor that is an integer and a product below [2^53] this is the
    source's result; otherwise the source truncates the product as rounded
    in doubles, and raises [OverflowError] when it is beyond their range. *)
Definition calc_next_capacity (s : t) : Z :=
  if (scale_mode s =? SCALE_MODE_LINEAR)%Z then
    py_int (IZR (initial_capacity s)
            * (scale_factor s * INR (length (filters s))))%R
  else
    py_int (IZR (initial_capacity s)
            * (scale_factor s ^ length (filters s)))%R.

Section Hashing.

Variable hash : string -> Z -> Z.

(** [add(element)]. *)
Definition add (s : t) (element : string) (h : store) : result (t * store) :=
  let! l := last_filter (filters s) in
  let! f := deref h l in
  let! (s1, h1) :=
    if BloomFilter.is_full f then
      let! nf := BloomFilter.init (calc_next_capacity s) (error_rate s) in
      let '(l', h') := alloc h nf in
      Ok (set_filters s (filters s ++ [l']), h')
    else Ok (s, h) in
  let! l1 := last_filter (filters s1) in
  let! f1 := deref h1 l1 in
  let! f1' := BloomFilter.add hash f1 element in
  Ok (set_element_count s1 (element_count s1 + 1), <[l1 := f1']> h1).

(** [lookup(string)]: the filters are probed newest first. *)
Fixpoint lookup_loop (fs : list ref) (element : string) (h : store) : result bool :=
  match fs with
  | [] => Ok false
  | l :: fs' =>
      let! f := deref h l in
      let! b := BloomFilter.lookup hash f element in
      if b then Ok true else lookup_loop fs' element h
  end.

Definition lookup (s : t) (element : string) (h : store) : result bool :=
  lookup_loop (reverse (filters s)) element h.

(** [__contains__(string)]. *)
Definition __contains__ (s : t) (element : string) (h : store) : result bool :=
  lookup s element h.

(** Repeated [add], in the order of the list. *)
Fixpoint add_all (s : t) (elements : list string) (h : store)
  : result (t * store) :=
  match elements with
  | [] => Ok (s, h)
  | e :: rest => let! (s', h') := add s e h in add_all s' rest h'
  end.

End Hashing.

(** [union(b)]: a new object with the configuration of [s] whose [filters]
    list is the concatenation of the two lists of references. *)
Definition union (s b : t) (h : store) : result (t * store) :=
  let! (r, h') :=
    init (initial_capacity s) (error_rate s) (scale_factor s) (scale_mode s) h in
  let r := set_filters r (filters s ++ filters b) in
  Ok (set_element_count r (element_count s + element_count b), h').

End ScalableBloomFilter.

(** ** Specification-level vocabulary *)

(** The bit a probe of [element] with [seed] addresses in a filter of
    [sz] bits. *)
Definition probe (hash : string -> Z -> Z) (sz : Z) (element : string)
    (seed : Z) : nat :=
  Z.to_nat (hash element seed mod sz)%Z.

(** The probes of one element, and of a list of elements. *)
Definition probes (hash : string -> Z -> Z) (sz hc : Z) (element : string)
  : list nat :=
  probe hash sz element <$> xrange hc.

Definition probes_all (hash : string -> Z -> Z) (sz hc : Z)
    (elements : list string) : list nat :=
  elements ≫= probes hash sz hc.

(** Setting a list of bits, and reading one (0 outside the array). *)
Definition set_bits (ps : list nat) (bits : list bool) : list bool :=
  foldl (fun b p => <[p := true]> b) bits ps.

Definition test_bit (bits : list bool) (p : nat) : bool :=
  default false (bits !! p).

(** The state of a filter that the constructor and the operations of the
    class produce: valid parameters, derived [size] and [hash_count], and a
    bit array of [size] bits. *)
Record wf (f : BloomFilter.t) : Prop := {
  wf_capacity : (0 < BloomFilter.capacity f)%Z;
  wf_error_rate : (0 < BloomFilter.error_rate f < 1)%R;
  wf_size :
    BloomFilter.calc_size (BloomFilter.capacity f) (BloomFilter.error_rate f)
    = Ok (BloomFilter.size f);
  wf_hash_count :
    BloomFilter.calc_hash_count (BloomFilter.size f) (BloomFilter.capacity f)
    = Ok (BloomFilter.hash_count f);
  wf_size_pos : (0 < BloomFilter.size f)%Z;
  wf_bits : length (BloomFilter.bit_array f) = Z.to_nat (BloomFilter.size f)
}.

(** Two filters that [union] and [intersection] accept. *)
Definition compatible (a b : BloomFilter.t) : Prop :=
  BloomFilter.size a = BloomFilter.size b
  /\ BloomFilter.hash_count a = BloomFilter.hash_count b.

(** [BloomFilter(1, 0.9)] and [BloomFilter(1, 0.5)]. *)
Definition bf_1_09 : BloomFilter.t :=
  BloomFilter.Build 1 0 (9 / 10) 1 1 [false].

Definition bf_1_05 : BloomFilter.t :=
  BloomFilter.Build 1 0 (1 / 2) 2 2 [false; false].

(** [BloomFilter(1, 0.9)] after one [add]: its only bit is set. *)
Definition bf_1_09_full : BloomFilter.t :=
  BloomFilter.Build 1 1 (9 / 10) 1 1 [true].

(** A sample hash function, for concrete runs. *)
Definition sample_hash (element : string) (seed : Z) : Z :=
  (Z.of_nat (String.length element) + seed)%Z.

(** The state of a scalable filter that its constructor and operations
    produce, together with the store: valid configuration, a non-empty list
    of references, each to a well-formed filter of the store. *)
Record sbf_ok (s : ScalableBloomFilter.t) (h : ScalableBloomFilter.store)
  : Prop := {
  ok_capacity : (0 < ScalableBloomFilter.initial_capacity s)%Z;
  ok_error_rate : (0 < ScalableBloomFilter.error_rate s < 1)%R;
  ok_scale_factor : (0 < ScalableBloomFilter.scale_factor s)%R;
  ok_scale_mode :
    ScalableBloomFilter.scale_mode s = ScalableBloomFilter.SCALE_MODE_LINEAR
    \/ ScalableBloomFilter.scale_mode s = ScalableBloomFilter.SCALE_MODE_EXPONENTIAL;
  ok_nonempty : ScalableBloomFilter.filters s <> [];
  ok_refs : forall l, l ∈ ScalableBloomFilter.filters s ->
            exists f, h !! l = Some f /\ wf f
}.

(** The configuration of a scalable filter, which no operation changes. *)
Definition same_config (s s' : ScalableBloomFilter.t) : Prop :=
  ScalableBloomFilter.initial_capacity s' = ScalableBloomFilter.initial_capacity s
  /\ ScalableBloomFilter.error_rate s' = ScalableBloomFilter.error_rate s
  /\ ScalableBloomFilter.scale_factor s' = ScalableBloomFilter.scale_factor s
  /\ ScalableBloomFilter.scale_mode s' = ScalableBloomFilter.scale_mode s.

(** The operations a caller can apply to a scalable filter.  [OpUnion b]
    stands for [s = s.union(b)]: the run goes on with the result. *)
Inductive op : Type :=
| OpAdd (element : string)
| OpLookup (element : string)
| OpContains (element : string)
| OpNextCapacity
| OpUnion (b : ScalableBloomFilter.t).

Definition run_op (hash : string -> Z -> Z) (o : op)
    (s : ScalableBloomFilter.t) (h : ScalableBloomFilter.store)
  : result (ScalableBloomFilter.t * ScalableBloomFilter.store) :=
  match o with
  | OpAdd e => ScalableBloomFilter.add hash s e h
  | OpLookup e => let! _ := ScalableBloomFilter.lookup hash s e h in Ok (s, h)
  | OpContains e =>
      let! _ := ScalableBloomFilter.__contains__ hash s e h in Ok (s, h)
  | OpNextCapacity =>
      let _ := ScalableBloomFilter.calc_next_capacity s in Ok (s, h)
  | OpUnion b => ScalableBloomFilter.union s b h
  end.

Fixpoint run_ops (hash : string -> Z -> Z) (ops : list op)
    (s : ScalableBloomFilter.t) (h : ScalableBloomFilter.store)
  : result (ScalableBloomFilter.t * ScalableBloomFilter.store) :=
  match ops with
  | [] => Ok (s, h)
  | o :: ops' => let! (s', h') := run_op hash o s h in run_ops hash ops' s' h'
  end.

(** One store extends another: every well-formed filter of the first is
    still there, with the same [size] and [hash_count] and at least the
    bits it had. *)
Definition store_grows (h h' : ScalableBloomFilter.store) : Prop :=
  forall l f, h !! l = Some f -> wf f ->
    exists f',
      h' !! l = Some f' /\ wf f'
      /\ BloomFilter.size f' = BloomFilter.size f
      /\ BloomFilter.hash_count f' = BloomFilter.hash_count f
      /\ forall p, test_bit (BloomFilter.bit_array f) p = true ->
                   test_bit (BloomFilter.bit_array f') p = true.

(** The element count of the filter a reference points to (0 for a
    reference that points nowhere), and the sum over a list of references. *)
Definition count_at (h : ScalableBloomFilter.store) (l : ScalableBloomFilter.ref)
  : Z :=
  match h !! l with
  | Some f => BloomFilter.element_count f
  | None => 0%Z
  end.

Definition total_count (h : ScalableBloomFilter.store)
    (fs : list ScalableBloomFilter.ref) : Z :=
  foldr (fun l acc => (count_at h l + acc)%Z) 0%Z fs.

(** The fill state the growth policy keeps: distinct filters, none above its
    capacity, all but the newest exactly at capacity, and the element counts
    of the filters adding up to the count of the scalable filter. *)
Record sbf_filled (s : ScalableBloomFilter.t) (h : ScalableBloomFilter.store)
  : Prop := {
  filled_nodup : NoDup (ScalableBloomFilter.filters s);
  filled_bound : forall l, l ∈ ScalableBloomFilter.filters s ->
                 exists f, h !! l = Some f
                   /\ (0 <= BloomFilter.element_count f <= BloomFilter.capacity f)%Z;
  filled_older : forall fs l l', ScalableBloomFilter.filters s = fs ++ [l] ->
                 l' ∈ fs ->
                 exists f, h !! l' = Some f
                   /\ BloomFilter.element_count f = BloomFilter.capacity f;
  filled_total : total_count h (ScalableBloomFilter.filters s)
                 = ScalableBloomFilter.element_count s
}.

(** The integers [float] converts, and the filters whose configuration
    [calc_error_rate] can convert (every filter the constructor returned, its
    capacity, size and hash count having been through float arithmetic). *)
Definition in_float_range (n : Z) : Prop := (Z.abs n < float_max_int)%Z.

Definition fields_in_float_range (f : BloomFilter.t) : Prop :=
  in_float_range (BloomFilter.capacity f)
  /\ in_float_range (BloomFilter.size f)
  /\ in_float_range (BloomFilter.hash_count f).

(** The product [calc_next_capacity] hands to [int]. *)
Definition next_capacity_product (s : ScalableBloomFilter.t) : R :=
  if (ScalableBloomFilter.scale_mode s =? ScalableBloomFilter.SCALE_MODE_LINEAR)%Z
  then (IZR (ScalableBloomFilter.initial_capacity s)
        * (ScalableBloomFilter.scale_factor s
           * INR (length (ScalableBloomFilter.filters s))))%R
  else (IZR (ScalableBloomFilter.initial_capacity s)
        * ScalableBloomFilter.scale_factor s
          ^ length (ScalableBloomFilter.filters s))%R.

(** ** The error monad *)

Lemma bind_ok_inv {A B : Type} (c : result A) (k : A -> result B) (b : B) :
  bind c k = Ok b -> exists a, c = Ok a /\ k a = Ok b.
Proof. destruct c as [a | e]; simpl; [eauto | done]. Qed.

(** ** Facts about the real-number primitives *)

Section RealFacts.

Local Open Scope R_scope.

Lemma ln2_pos : 0 < ln 2.
Proof. pose proof ln_lt_2. lra. Qed.

Lemma ln2_lt_1 : ln 2 < 1.
Proof.
  rewrite <- (ln_exp 1). apply ln_increasing; [lra |].
  pose proof (exp_ineq1 1). lra.
Qed.

Lemma ln2_sqr_bounds : / 4 < ln 2 ^ 2 < 1.
Proof. pose proof ln_lt_2. pose proof ln2_lt_1. nra. Qed.

Lemma ln_lt_0 (p : R) : 0 < p < 1 -> ln p < 0.
Proof. intros [H0 H1]. rewrite <- ln_1. by apply ln_increasing. Qed.

Lemma ln_lower (p : R) : 0 < p < 1 -> 1 - / p < ln p.
Proof.
  intros [H0 H1].
  assert (Hinv : 1 < / p).
  { rewrite <- Rinv_1. apply Rinv_lt_contravar; lra. }
  assert (Hex : / p < exp (/ p - 1)).
  { pose proof (exp_ineq1 (/ p - 1)). lra. }
  assert (Hln : ln (/ p) < / p - 1).
  { rewrite <- (ln_exp (/ p - 1)). apply ln_increasing; lra. }
  rewrite ln_Rinv in Hln by done. lra.
Qed.

Lemma py_log_ok (x : R) : 0 < x -> py_log x = Ok (ln x).
Proof. intros Hx. unfold py_log. by destruct (Rlt_dec 0 x). Qed.

Lemma py_log_domain (x : R) : x <= 0 -> py_log x = Raise ValueError.
Proof. intros Hx. unfold py_log. destruct (Rlt_dec 0 x); [lra | done]. Qed.

Lemma py_fdiv_ok (a b : R) : b <> 0 -> py_fdiv a b = Ok (a / b).
Proof. intros Hb. unfold py_fdiv. by destruct (Req_dec_T b 0). Qed.

Lemma Zceil_pos (x : R) : 0 < x -> (1 <= Zceil x)%Z.
Proof.
  intros Hx. pose proof (Zceil_bound x) as [_ Hb].
  assert (H0 : 0 < IZR (Zceil x)) by lra.
  apply lt_IZR in H0. lia.
Qed.

Lemma py_int_IZR (z : Z) : py_int (IZR z) = z.
Proof.
  unfold py_int. destruct (Rle_dec 0 (IZR z)); [apply ZfloorZ |].
  unfold Zceil. rewrite ZfloorNZ. lia.
Qed.

Lemma py_int_floor (x : R) : 0 <= x -> py_int x = Zfloor x.
Proof. intros Hx. unfold py_int. by destruct (Rle_dec 0 x). Qed.

End RealFacts.

(** ** Sizing of a filter *)

Section Sizing.

Local Open Scope R_scope.

Lemma calc_size_ok (c : Z) (p : R) :
  (0 < c)%Z -> 0 < p < 1 ->
  BloomFilter.calc_size c p = Ok (Zceil (- (IZR c * ln p) / ln 2 ^ 2))
  /\ (1 <= Zceil (- (IZR c * ln p) / ln 2 ^ 2))%Z.
Proof.
  intros Hc Hp. pose proof ln2_sqr_bounds as Hl2. pose proof (ln_lt_0 p Hp) as Hl.
  assert (HcR : 0 < IZR c) by (by apply IZR_lt).
  split.
  - unfold BloomFilter.calc_size.
    rewrite py_log_ok by lra. rewrite py_log_ok by lra. simpl.
    rewrite py_fdiv_ok by lra. done.
  - apply Zceil_pos. apply Rdiv_lt_0_compat; nra.
Qed.

Lemma calc_hash_count_ok (sz c : Z) :
  (0 < sz)%Z -> (0 < c)%Z ->
  BloomFilter.calc_hash_count sz c = Ok (Zceil (IZR sz / IZR c * ln 2))
  /\ (1 <= Zceil (IZR sz / IZR c * ln 2))%Z.
Proof.
  intros Hsz Hc. pose proof ln2_pos as Hl2.
  assert (HcR : 0 < IZR c) by (by apply IZR_lt).
  assert (HsR : 0 < IZR sz) by (by apply IZR_lt).
  split.
  - unfold BloomFilter.calc_hash_count.
    rewrite py_fdiv_ok by lra. simpl. rewrite py_log_ok by lra. done.
  - apply Zceil_pos. apply Rmult_lt_0_compat; [| done].
    by apply Rdiv_lt_0_compat.
Qed.

End Sizing.

(** ** The constructor of [BloomFilter] *)

Lemma bf_init_eq (c : Z) (p : R) :
  (0 < c)%Z -> (0 < p < 1)%R ->
  let sz := Zceil (- (IZR c * ln p) / ln 2 ^ 2) in
  let hc := Zceil (IZR sz / IZR c * ln 2) in
  BloomFilter.init c p
  = Ok (BloomFilter.Build c 0 p sz hc (replicate (Z.to_nat sz) false))
  /\ wf (BloomFilter.Build c 0 p sz hc (replicate (Z.to_nat sz) false))
  /\ (1 <= sz)%Z /\ (1 <= hc)%Z.
Proof.
  intros Hc Hp sz hc.
  destruct (calc_size_ok c p Hc Hp) as [Hsz Hsz1]. fold sz in Hsz, Hsz1.
  destruct (calc_hash_count_ok sz c) as [Hhc Hhc1]; [lia | done |].
  fold hc in Hhc, Hhc1.
  split; [| split; [| done]].
  - unfold BloomFilter.init.
    destruct (0 <? c)%Z eqn:E; [| lia]. simpl.
    destruct (Rlt_dec 0 p); [| lra]. destruct (Rlt_dec p 1); [| lra].
    rewrite Hsz. simpl. rewrite Hhc. simpl.
    unfold bitarray_zeros. destruct (sz <? 0)%Z eqn:E'; [lia | done].
  - constructor; simpl; try done; try lia. by rewrite length_replicate.
Qed.

Lemma bf_init_ok (c : Z) (p : R) :
  (0 < c)%Z -> (0 < p < 1)%R ->
  exists f, BloomFilter.init c p = Ok f
    /\ wf f
    /\ BloomFilter.capacity f = c
    /\ BloomFilter.error_rate f = p
    /\ BloomFilter.element_count f = 0%Z
    /\ BloomFilter.bit_array f = replicate (Z.to_nat (BloomFilter.size f)) false.
Proof.
  intros Hc Hp. destruct (bf_init_eq c p Hc Hp) as (Hi & Hwf & _).
  eexists. split; [apply Hi |]. split; [apply Hwf | done].
Qed.

Lemma bf_init_raises (c : Z) (p : R) :
  (c <= 0)%Z \/ ~ (0 < p < 1)%R -> BloomFilter.init c p = Raise ValueError.
Proof.
  intros H. unfold BloomFilter.init.
  destruct (0 <? c)%Z eqn:E; simpl; [| done].
  destruct (Rlt_dec 0 p); [| done]. destruct (Rlt_dec p 1); [| done].
  destruct H as [H | H]; [lia | lra].
Qed.

(** A well-formed filter is rebuilt with the same [size] and [hash_count]
    by the constructor (as [union] and [intersection] do). *)
Lemma bf_init_of_wf (f : BloomFilter.t) :
  wf f ->
  BloomFilter.init (BloomFilter.capacity f) (BloomFilter.error_rate f)
  = Ok (BloomFilter.Build (BloomFilter.capacity f) 0 (BloomFilter.error_rate f)
          (BloomFilter.size f) (BloomFilter.hash_count f)
          (replicate (Z.to_nat (BloomFilter.size f)) false)).
Proof.
  intros [Hc Hp Hsz Hhc Hpos Hbits]. unfold BloomFilter.init.
  destruct (0 <? BloomFilter.capacity f)%Z eqn:E; [| lia]. simpl.
  destruct (Rlt_dec 0 (BloomFilter.error_rate f)); [| lra].
  destruct (Rlt_dec (BloomFilter.error_rate f) 1); [| lra].
  rewrite Hsz. simpl. rewrite Hhc. simpl.
  unfold bitarray_zeros. destruct (BloomFilter.size f <? 0)%Z eqn:E'; [lia | done].
Qed.

(** ** Bits: setting and testing *)

Lemma length_set_bits (ps : list nat) (bits : list bool) :
  length (set_bits ps bits) = length bits.
Proof.
  revert bits. induction ps as [| p ps IH]; intros bits; simpl; [done |].
  unfold set_bits in *. simpl. by rewrite IH, length_insert.
Qed.

Lemma set_bits_app (ps qs : list nat) (bits : list bool) :
  set_bits (ps ++ qs) bits = set_bits qs (set_bits ps bits).
Proof. unfold set_bits. by rewrite foldl_app. Qed.

Lemma test_bit_insert (bits : list bool) (p i : nat) :
  i < length bits ->
  test_bit (<[p := true]> bits) i = test_bit bits i || bool_decide (i = p).
Proof.
  intros Hi. unfold test_bit. destruct (decide (i = p)) as [-> | Hne].
  - rewrite list_lookup_insert_eq by done. simpl.
    rewrite bool_decide_eq_true_2 by done. by rewrite orb_true_r.
  - rewrite list_lookup_insert_ne by done.
    rewrite bool_decide_eq_false_2 by done. by rewrite orb_false_r.
Qed.

Lemma test_bit_set_bits (ps : list nat) (bits : list bool) (i : nat) :
  i < length bits ->
  test_bit (set_bits ps bits) i = test_bit bits i || bool_decide (i ∈ ps).
Proof.
  revert bits. induction ps as [| p ps IH]; intros bits Hi.
  - rewrite (bool_decide_eq_false_2 (i ∈ [])) by apply not_elem_of_nil.
    by rewrite orb_false_r.
  - change (set_bits (p :: ps) bits) with (set_bits ps (<[p := true]> bits)).
    rewrite IH by (by rewrite length_insert).
    rewrite test_bit_insert by done. rewrite <- orb_assoc. f_equal.
    destruct (decide (i = p)) as [-> | Hne].
    + rewrite bool_decide_eq_true_2 by done.
      rewrite (bool_decide_eq_true_2 (p ∈ p :: ps)); [done | constructor].
    + rewrite (bool_decide_eq_false_2 (i = p)) by done. simpl.
      apply bool_decide_ext. rewrite elem_of_cons.
      split; [auto | intros [Heq | Hin]; [by destruct Hne | done]].
Qed.

Lemma test_bit_ge (bits : list bool) (i : nat) :
  length bits <= i -> test_bit bits i = false.
Proof. intros Hi. unfold test_bit. by rewrite lookup_ge_None_2. Qed.

Lemma test_bit_replicate_false (n i : nat) : test_bit (replicate n false) i = false.
Proof.
  unfold test_bit. destruct (replicate n false !! i) as [b |] eqn:E; [| done].
  apply lookup_replicate in E as [-> _]. done.
Qed.

Lemma test_bit_zip_with (op : bool -> bool -> bool) (a b : list bool) (i : nat) :
  length a = length b -> op false false = false ->
  test_bit (zip_with op a b) i = op (test_bit a i) (test_bit b i).
Proof.
  intros Hlen Hop. unfold test_bit. rewrite lookup_zip_with.
  destruct (a !! i) as [x |] eqn:Ea; simpl.
  - destruct (b !! i) as [y |] eqn:Eb; simpl; [done |].
    apply lookup_lt_Some in Ea. apply lookup_ge_None in Eb. lia.
  - apply lookup_ge_None in Ea.
    rewrite (lookup_ge_None_2 b) by lia. by simpl.
Qed.

(** Two bit arrays of one length with the same bits are equal. *)
Lemma bits_ext (a b : list bool) :
  length a = length b -> (forall i, test_bit a i = test_bit b i) -> a = b.
Proof.
  intros Hlen Hbits. apply list_eq. intros i. specialize (Hbits i).
  unfold test_bit in Hbits.
  destruct (a !! i) as [x |] eqn:Ea, (b !! i) as [y |] eqn:Eb; simpl in *.
  - by subst.
  - apply lookup_lt_Some in Ea. apply lookup_ge_None in Eb. lia.
  - apply lookup_lt_Some in Eb. apply lookup_ge_None in Ea. lia.
  - done.
Qed.

(** ** [BloomFilter.add] and [BloomFilter.lookup] on a well-formed filter *)

Section FixedFilter.

Variable hash : string -> Z -> Z.

Lemma probe_lt (sz : Z) (e : string) (seed : Z) :
  (0 < sz)%Z -> probe hash sz e seed < Z.to_nat sz.
Proof.
  intros Hsz. unfold probe.
  pose proof (Z.mod_pos_bound (hash e seed) sz Hsz). lia.
Qed.

Lemma probes_lt (sz hc : Z) (e : string) (p : nat) :
  (0 < sz)%Z -> p ∈ probes hash sz hc e -> p < Z.to_nat sz.
Proof.
  intros Hsz Hp. unfold probes in Hp.
  apply list_elem_of_fmap in Hp as (seed & -> & _). by apply probe_lt.
Qed.

Lemma py_mod_ok (a sz : Z) : (0 < sz)%Z -> py_mod a sz = Ok (a mod sz)%Z.
Proof. intros Hsz. unfold py_mod. destruct (sz =? 0)%Z eqn:E; [lia | done]. Qed.

Lemma py_index_mod {A : Type} (l : list A) (a sz : Z) :
  (0 < sz)%Z -> length l = Z.to_nat sz ->
  py_index l (a mod sz)%Z = Ok (Z.to_nat (a mod sz)).
Proof.
  intros Hsz Hlen. pose proof (Z.mod_pos_bound a sz Hsz) as Hb.
  unfold py_index. destruct (a mod sz <? 0)%Z eqn:E; [lia |].
  destruct (0 <=? a mod sz)%Z eqn:E1; [| lia].
  destruct (a mod sz <? Z.of_nat (length l))%Z eqn:E2; [done | lia].
Qed.

Lemma add_loop_ok (f : BloomFilter.t) (e : string) (seeds : list Z)
    (bits : list bool) :
  (0 < BloomFilter.size f)%Z -> length bits = Z.to_nat (BloomFilter.size f) ->
  BloomFilter.add_loop hash f e seeds bits
  = Ok (set_bits (probe hash (BloomFilter.size f) e <$> seeds) bits).
Proof.
  intros Hsz. revert bits.
  induction seeds as [| seed seeds IH]; intros bits Hlen; simpl; [done |].
  rewrite py_mod_ok by done. simpl. unfold setitem.
  rewrite py_index_mod by done. simpl.
  rewrite IH by (by rewrite length_insert). done.
Qed.

Lemma lookup_loop_ok (f : BloomFilter.t) (e : string) (seeds : list Z) :
  (0 < BloomFilter.size f)%Z ->
  length (BloomFilter.bit_array f) = Z.to_nat (BloomFilter.size f) ->
  BloomFilter.lookup_loop hash f e seeds
  = Ok (forallb (test_bit (BloomFilter.bit_array f))
          (probe hash (BloomFilter.size f) e <$> seeds)).
Proof.
  intros Hsz Hlen. induction seeds as [| seed seeds IH]; simpl; [done |].
  rewrite py_mod_ok by done. simpl. unfold getitem.
  rewrite py_index_mod by done. simpl.
  pose proof (probe_lt (BloomFilter.size f) e seed Hsz) as Hlt.
  unfold probe in *. unfold test_bit at 1.
  destruct (BloomFilter.bit_array f !! _) as [b |] eqn:E; simpl.
  - destruct b; simpl; [apply IH | done].
  - apply lookup_ge_None in E. lia.
Qed.

(** [add] sets the probes of the element and counts it. *)
Lemma bf_add_ok (f : BloomFilter.t) (e : string) :
  wf f ->
  BloomFilter.add hash f e
  = Ok (BloomFilter.Build (BloomFilter.capacity f)
          (BloomFilter.element_count f + 1) (BloomFilter.error_rate f)
          (BloomFilter.size f) (BloomFilter.hash_count f)
          (set_bits (probes hash (BloomFilter.size f) (BloomFilter.hash_count f) e)
                    (BloomFilter.bit_array f))).
Proof.
  intros Hwf. unfold BloomFilter.add.
  rewrite add_loop_ok by apply Hwf. done.
Qed.

(** [lookup] answers the conjunction of the bits the element probes. *)
Lemma bf_lookup_ok (f : BloomFilter.t) (e : string) :
  wf f ->
  BloomFilter.lookup hash f e
  = Ok (forallb (test_bit (BloomFilter.bit_array f))
          (probes hash (BloomFilter.size f) (BloomFilter.hash_count f) e)).
Proof. intros Hwf. unfold BloomFilter.lookup. apply lookup_loop_ok; apply Hwf. Qed.

Lemma wf_set_bits (f : BloomFilter.t) (n : Z) (ps : list nat) :
  wf f ->
  wf (BloomFilter.Build (BloomFilter.capacity f) n (BloomFilter.error_rate f)
        (BloomFilter.size f) (BloomFilter.hash_count f)
        (set_bits ps (BloomFilter.bit_array f))).
Proof.
  intros [Hc Hp Hsz Hhc Hpos Hbits].
  constructor; simpl; try done. by rewrite length_set_bits.
Qed.

(** A sequence of [add] calls sets the probes of all its elements. *)
Lemma bf_add_all_ok (f : BloomFilter.t) (l : list string) :
  wf f ->
  BloomFilter.add_all hash f l
  = Ok (BloomFilter.Build (BloomFilter.capacity f)
          (BloomFilter.element_count f + Z.of_nat (length l))
          (BloomFilter.error_rate f) (BloomFilter.size f) (BloomFilter.hash_count f)
          (set_bits (probes_all hash (BloomFilter.size f) (BloomFilter.hash_count f) l)
                    (BloomFilter.bit_array f))).
Proof.
  revert f. induction l as [| e l IH]; intros f Hwf.
  - simpl. destruct f; simpl. do 2 f_equal. lia.
  - simpl. rewrite bf_add_ok by done. simpl.
    rewrite IH by (by apply wf_set_bits). simpl.
    unfold probes_all. simpl. rewrite set_bits_app.
    do 2 f_equal. lia.
Qed.

Lemma lookup_true_iff (f : BloomFilter.t) (e : string) :
  wf f ->
  BloomFilter.lookup hash f e = Ok true <->
  forall p, p ∈ probes hash (BloomFilter.size f) (BloomFilter.hash_count f) e ->
            test_bit (BloomFilter.bit_array f) p = true.
Proof.
  intros Hwf. rewrite bf_lookup_ok by done. split.
  - intros H p Hp. injection H as H.
    rewrite forallb_forall in H. apply H. by apply list_elem_of_In.
  - intros H. f_equal. apply forallb_forall. intros p Hp.
    apply H. by apply list_elem_of_In.
Qed.

End FixedFilter.

(** ** Two concrete filters *)

Section ConcreteFilters.

Local Open Scope R_scope.

Lemma calc_size_1_09 : BloomFilter.calc_size 1 (9 / 10) = Ok 1%Z.
Proof.
  destruct (calc_size_ok 1 (9 / 10)) as [-> _]; [lia | lra |].
  f_equal. apply Zceil_eq.
  pose proof ln2_sqr_bounds as Hl2.
  pose proof (ln_lt_0 (9 / 10)) as Hneg. pose proof (ln_lower (9 / 10)) as Hlow.
  set (a := ln (9 / 10)) in *. set (L := ln 2 ^ 2) in *.
  assert (Hx : - (1 * a) / L * L = - a) by (field; lra).
  set (x := - (1 * a) / L) in *.
  assert (Ha : - / 9 < a < 0) by lra.
  split; nra.
Qed.

Lemma calc_hash_count_1_1 : BloomFilter.calc_hash_count 1 1 = Ok 1%Z.
Proof.
  destruct (calc_hash_count_ok 1 1) as [-> _]; [lia | lia |].
  f_equal. apply Zceil_eq.
  pose proof ln2_pos. pose proof ln2_lt_1. lra.
Qed.

Lemma calc_size_1_05 : BloomFilter.calc_size 1 (1 / 2) = Ok 2%Z.
Proof.
  destruct (calc_size_ok 1 (1 / 2)) as [-> _]; [lia | lra |].
  f_equal. apply Zceil_eq.
  pose proof ln_lt_2 as Hlo. pose proof ln2_lt_1 as Hhi.
  assert (Ha : ln (1 / 2) = - ln 2).
  { replace (1 / 2) with (/ 2) by lra. apply ln_Rinv. lra. }
  rewrite Ha. set (l := ln 2) in *.
  assert (Hx : - (1 * - l) / l ^ 2 * l = 1) by (field; lra).
  set (x := - (1 * - l) / l ^ 2) in *.
  split; nra.
Qed.

Lemma calc_hash_count_2_1 : BloomFilter.calc_hash_count 2 1 = Ok 2%Z.
Proof.
  destruct (calc_hash_count_ok 2 1) as [-> _]; [lia | lia |].
  f_equal. apply Zceil_eq.
  pose proof ln_lt_2. pose proof ln2_lt_1. lra.
Qed.

Lemma init_1_09 : BloomFilter.init 1 (9 / 10) = Ok bf_1_09.
Proof.
  unfold BloomFilter.init. simpl.
  destruct (Rlt_dec 0 (9 / 10)); [| lra]. destruct (Rlt_dec (9 / 10) 1); [| lra].
  rewrite calc_size_1_09. simpl. rewrite calc_hash_count_1_1. done.
Qed.

Lemma init_1_05 : BloomFilter.init 1 (1 / 2) = Ok bf_1_05.
Proof.
  unfold BloomFilter.init. simpl.
  destruct (Rlt_dec 0 (1 / 2)); [| lra]. destruct (Rlt_dec (1 / 2) 1); [| lra].
  rewrite calc_size_1_05. simpl. rewrite calc_hash_count_2_1. done.
Qed.

Lemma wf_bf_1_09 : wf bf_1_09.
Proof.
  constructor; simpl; try lia; try lra.
  - apply calc_size_1_09.
  - apply calc_hash_count_1_1.
Qed.

Lemma wf_bf_1_05 : wf bf_1_05.
Proof.
  constructor; simpl; try lia; try lra.
  - apply calc_size_1_05.
  - apply calc_hash_count_2_1.
Qed.

End ConcreteFilters.

(** ** [BloomFilter.union] and [BloomFilter.intersection] *)

Lemma wf_hash_count_pos (f : BloomFilter.t) : wf f -> (1 <= BloomFilter.hash_count f)%Z.
Proof.
  intros [Hc Hp Hsz Hhc Hpos Hbits].
  destruct (calc_hash_count_ok _ _ Hpos Hc) as [Heq Hge].
  rewrite Heq in Hhc. injection Hhc as <-. done.
Qed.

Lemma bitarray_binop_ok (op : bool -> bool -> bool) (a b : BloomFilter.t) :
  wf a -> wf b -> compatible a b ->
  bitarray_binop op (BloomFilter.bit_array a) (BloomFilter.bit_array b)
  = Ok (zip_with op (BloomFilter.bit_array a) (BloomFilter.bit_array b))
  /\ length (zip_with op (BloomFilter.bit_array a) (BloomFilter.bit_array b))
     = Z.to_nat (BloomFilter.size a).
Proof.
  intros Ha Hb [Hsz _].
  assert (Hlen : length (BloomFilter.bit_array a) = length (BloomFilter.bit_array b)).
  { rewrite (wf_bits a Ha), (wf_bits b Hb). by rewrite Hsz. }
  split.
  - unfold bitarray_binop. by rewrite decide_True.
  - rewrite length_zip_with. rewrite <- Hlen, (wf_bits a Ha). lia.
Qed.

Lemma compatible_tests (a b : BloomFilter.t) :
  compatible a b ->
  negb (BloomFilter.size a =? BloomFilter.size b)%Z = false
  /\ negb (BloomFilter.hash_count a =? BloomFilter.hash_count b)%Z = false.
Proof. intros [-> ->]. by rewrite !Z.eqb_refl. Qed.

(** The union of two compatible filters: the bitwise OR under the
    parameters of the first operand. *)
Lemma bf_union_ok (a b : BloomFilter.t) :
  wf a -> wf b -> compatible a b ->
  BloomFilter.union a b
  = Ok (Some (BloomFilter.Build (BloomFilter.capacity a)
                (BloomFilter.element_count a + BloomFilter.element_count b)
                (BloomFilter.error_rate a) (BloomFilter.size a)
                (BloomFilter.hash_count a)
                (zip_with orb (BloomFilter.bit_array a) (BloomFilter.bit_array b)))).
Proof.
  intros Ha Hb Hab. unfold BloomFilter.union.
  destruct (compatible_tests a b Hab) as [-> ->].
  rewrite bf_init_of_wf by done. simpl.
  destruct (bitarray_binop_ok orb a b Ha Hb Hab) as [-> _]. done.
Qed.

Lemma wf_with_bits (f : BloomFilter.t) (n : Z) (bits : list bool) :
  wf f -> length bits = Z.to_nat (BloomFilter.size f) ->
  wf (BloomFilter.Build (BloomFilter.capacity f) n (BloomFilter.error_rate f)
        (BloomFilter.size f) (BloomFilter.hash_count f) bits).
Proof. intros [Hc Hp Hsz Hhc Hpos Hbits] Hlen. by constructor. Qed.

Lemma bitarray_count_le (a : list bool) : bitarray_count a <= length a.
Proof. unfold bitarray_count. apply length_filter. Qed.

(** The intersection of two compatible filters, as long as their bitwise
    AND has a 0 bit left. *)
Lemma bf_intersection_ok (a b : BloomFilter.t) :
  wf a -> wf b -> compatible a b ->
  let bits := zip_with andb (BloomFilter.bit_array a) (BloomFilter.bit_array b) in
  bitarray_count bits < Z.to_nat (BloomFilter.size a) ->
  exists n,
    BloomFilter.intersection a b
    = Ok (Some (BloomFilter.Build (BloomFilter.capacity a) n
                  (BloomFilter.error_rate a) (BloomFilter.size a)
                  (BloomFilter.hash_count a) bits)).
Proof.
  intros Ha Hb Hab bits Hcount. unfold BloomFilter.intersection.
  destruct (compatible_tests a b Hab) as [-> ->].
  rewrite bf_init_of_wf by done. simpl.
  destruct (bitarray_binop_ok andb a b Ha Hb Hab) as [-> _]. simpl.
  fold bits. unfold BloomFilter.calc_element_count. simpl.
  pose proof (wf_size_pos a Ha) as Hpos.
  pose proof (wf_hash_count_pos a Ha) as Hhc.
  assert (HszR : (0 < IZR (BloomFilter.size a))%R) by (by apply IZR_lt).
  assert (HhcR : (0 < IZR (BloomFilter.hash_count a))%R) by (apply IZR_lt; lia).
  rewrite py_fdiv_ok by lra. simpl.
  assert (Hx : (INR (bitarray_count bits) < IZR (BloomFilter.size a))%R).
  { rewrite INR_IZR_INZ. apply IZR_lt. lia. }
  rewrite py_log_ok.
  - simpl. rewrite py_fdiv_ok by lra. simpl. eauto.
  - apply Rlt_0_minus. apply Rmult_lt_reg_r with (IZR (BloomFilter.size a)); [done |].
    unfold Rdiv. rewrite Rmult_assoc, Rinv_l by lra. lra.
Qed.

(** When the bitwise AND has every bit set, the estimator of the element
    count takes [log(0.0)] and [intersection] raises [ValueError]. *)
Lemma bf_intersection_saturated (a b : BloomFilter.t) :
  wf a -> wf b -> compatible a b ->
  bitarray_count (zip_with andb (BloomFilter.bit_array a) (BloomFilter.bit_array b))
  = Z.to_nat (BloomFilter.size a) ->
  BloomFilter.intersection a b = Raise ValueError.
Proof.
  intros Ha Hb Hab Hcount. unfold BloomFilter.intersection.
  destruct (compatible_tests a b Hab) as [-> ->].
  rewrite bf_init_of_wf by done. simpl.
  destruct (bitarray_binop_ok andb a b Ha Hb Hab) as [-> _]. simpl.
  unfold BloomFilter.calc_element_count. simpl.
  pose proof (wf_size_pos a Ha) as Hpos.
  assert (HszR : (0 < IZR (BloomFilter.size a))%R) by (by apply IZR_lt).
  rewrite py_fdiv_ok by lra. simpl.
  rewrite Hcount, INR_IZR_INZ, Z2Nat.id by lia.
  rewrite py_log_domain; [done |].
  unfold Rdiv. rewrite Rinv_r by lra. lra.
Qed.

(** ** [BloomFilter.is_full] *)

Lemma is_full_true_iff (f : BloomFilter.t) :
  BloomFilter.is_full f = true
  <-> (BloomFilter.capacity f <= BloomFilter.element_count f)%Z.
Proof.
  unfold BloomFilter.is_full.
  destruct (BloomFilter.element_count f <? BloomFilter.capacity f)%Z eqn:E.
  - split; [done | lia].
  - split; [lia | done].
Qed.

Lemma is_full_false_iff (f : BloomFilter.t) :
  BloomFilter.is_full f = false
  <-> (BloomFilter.element_count f < BloomFilter.capacity f)%Z.
Proof.
  unfold BloomFilter.is_full.
  destruct (BloomFilter.element_count f <? BloomFilter.capacity f)%Z eqn:E.
  - split; [lia | done].
  - split; [done | lia].
Qed.

(** ** Properties of the fixed filter *)





Lemma test_bit_set_zeros (ps : list nat) (n i : nat) :
  i < n ->
  test_bit (set_bits ps (replicate n false)) i = bool_decide (i ∈ ps).
Proof.
  intros Hi. rewrite test_bit_set_bits by (by rewrite length_replicate).
  by rewrite test_bit_replicate_false.
Qed.

Lemma probes_all_elem (hash : string -> Z -> Z) (sz hc : Z) (l : list string)
    (i : nat) :
  i ∈ probes_all hash sz hc l <-> exists e, e ∈ l /\ i ∈ probes hash sz hc e.
Proof.
  unfold probes_all. rewrite list_elem_of_bind.
  split; intros (e & H1 & H2); eauto.
Qed.



(** What a successful call of the constructor returned. *)
Lemma bf_init_inv (c : Z) (p : R) (f : BloomFilter.t) :
  BloomFilter.init c p = Ok f ->
  wf f
  /\ BloomFilter.capacity f = c
  /\ BloomFilter.error_rate f = p
  /\ BloomFilter.element_count f = 0%Z
  /\ BloomFilter.bit_array f = replicate (Z.to_nat (BloomFilter.size f)) false.
Proof.
  intros Hi.
  destruct (decide (0 < c)%Z) as [Hc | Hc];
    [| rewrite bf_init_raises in Hi by (left; lia); done].
  destruct (Rlt_dec 0 p) as [Hp0 | Hp0];
    [| rewrite bf_init_raises in Hi by (right; lra); done].
  destruct (Rlt_dec p 1) as [Hp1 | Hp1];
    [| rewrite bf_init_raises in Hi by (right; lra); done].
  destruct (bf_init_ok c p) as (f' & Hi' & H); [done | done |].
  rewrite Hi' in Hi. injection Hi as <-. done.
Qed.

(** A filter filled from scratch: its bits are the probes of its elements. *)
Lemma bf_from_scratch (hash : string -> Z -> Z) (c : Z) (p : R)
    (l : list string) (f0 f : BloomFilter.t) :
  BloomFilter.init c p = Ok f0 -> BloomFilter.add_all hash f0 l = Ok f ->
  wf f0 /\ wf f
  /\ BloomFilter.size f0 = BloomFilter.size f
  /\ BloomFilter.hash_count f0 = BloomFilter.hash_count f
  /\ BloomFilter.bit_array f0 = replicate (Z.to_nat (BloomFilter.size f)) false
  /\ BloomFilter.bit_array f
     = set_bits (probes_all hash (BloomFilter.size f) (BloomFilter.hash_count f) l)
         (replicate (Z.to_nat (BloomFilter.size f)) false).
Proof.
  intros Hi Ha. destruct (bf_init_inv c p f0 Hi) as (Hwf & _ & _ & _ & Hbits).
  rewrite bf_add_all_ok in Ha by done. injection Ha as <-. simpl.
  split; [done |]. split; [by apply wf_set_bits |].
  by rewrite Hbits.
Qed.


Lemma add_bf_1_09 (hash : string -> Z -> Z) (e : string) :
  BloomFilter.add hash bf_1_09 e = Ok bf_1_09_full.
Proof.
  rewrite bf_add_ok by apply wf_bf_1_09. simpl.
  unfold probes, xrange. change (seqZ 0 1) with [0%Z]. simpl.
  unfold probe. rewrite Z.mod_1_r. done.
Qed.

Lemma wf_bf_1_09_full : wf bf_1_09_full.
Proof. apply (wf_with_bits bf_1_09 1 [true] wf_bf_1_09). done. Qed.


(** The filters [union] and [intersection] return are well formed. *)
Lemma bf_union_wf (a b u : BloomFilter.t) :
  wf a -> wf b -> BloomFilter.union a b = Ok (Some u) -> wf u.
Proof.
  intros Ha Hb Hu.
  assert (Hab : compatible a b).
  { unfold BloomFilter.union in Hu. unfold compatible.
    destruct (BloomFilter.size a =? BloomFilter.size b)%Z eqn:E1; [| done].
    destruct (BloomFilter.hash_count a =? BloomFilter.hash_count b)%Z eqn:E2;
      [| done].
    lia. }
  rewrite bf_union_ok in Hu by done. injection Hu as <-.
  apply wf_with_bits; [done |]. by apply bitarray_binop_ok.
Qed.

Lemma bf_intersection_wf (a b i : BloomFilter.t) :
  wf a -> wf b -> BloomFilter.intersection a b = Ok (Some i) -> wf i.
Proof.
  intros Ha Hb Hi. unfold BloomFilter.intersection in Hi.
  destruct (BloomFilter.size a =? BloomFilter.size b)%Z eqn:E1; [| done].
  destruct (BloomFilter.hash_count a =? BloomFilter.hash_count b)%Z eqn:E2;
    [| done].
  assert (Hab : compatible a b) by (unfold compatible; lia).
  simpl in Hi. rewrite bf_init_of_wf in Hi by done. simpl in Hi.
  destruct (bitarray_binop_ok andb a b Ha Hb Hab) as [Hop Hlen].
  rewrite Hop in Hi. simpl in Hi.
  apply bind_ok_inv in Hi as (n & _ & Hi). injection Hi as <-.
  unfold BloomFilter.set_element_count, BloomFilter.set_bit_array. simpl.
  by apply (wf_with_bits a).
Qed.

(** Whenever [intersection] returns a filter, its [lookup] answers [True]
    exactly for the elements both operands answer [True] for. *)
Lemma bf_intersection_lookup (hash : string -> Z -> Z) (a b i : BloomFilter.t)
    (e : string) :
  wf a -> wf b -> BloomFilter.intersection a b = Ok (Some i) ->
  BloomFilter.lookup hash i e = Ok true
  <-> BloomFilter.lookup hash a e = Ok true /\ BloomFilter.lookup hash b e = Ok true.
Proof.
  intros Ha Hb Hi.
  assert (Hab : compatible a b).
  { unfold BloomFilter.intersection in Hi. unfold compatible.
    destruct (BloomFilter.size a =? BloomFilter.size b)%Z eqn:E1; [| done].
    destruct (BloomFilter.hash_count a =? BloomFilter.hash_count b)%Z eqn:E2;
      [| done].
    lia. }
  destruct (bitarray_binop_ok andb a b Ha Hb Hab) as [_ Hlen].
  pose proof (bitarray_count_le
    (zip_with andb (BloomFilter.bit_array a) (BloomFilter.bit_array b))) as Hle.
  rewrite Hlen in Hle.
  destruct (decide (bitarray_count
      (zip_with andb (BloomFilter.bit_array a) (BloomFilter.bit_array b))
      = Z.to_nat (BloomFilter.size a))) as [Hsat | Hsat].
  { rewrite bf_intersection_saturated in Hi by done. done. }
  destruct (bf_intersection_ok a b Ha Hb Hab) as [n Hn]; [lia |].
  rewrite Hn in Hi. injection Hi as <-.
  assert (Hlenab : length (BloomFilter.bit_array a) = length (BloomFilter.bit_array b)).
  { rewrite (wf_bits a Ha), (wf_bits b Hb). by destruct Hab as [-> _]. }
  rewrite !lookup_true_iff; [| done | done | by apply wf_with_bits]. simpl.
  destruct Hab as [Hsz Hhc]. rewrite <- Hsz, <- Hhc.
  split.
  - intros H. split; intros p Hp; specialize (H p Hp);
      rewrite test_bit_zip_with in H by done;
      apply andb_true_iff in H; apply H.
  - intros [H1 H2] p Hp. rewrite test_bit_zip_with by done.
    by rewrite (H1 p Hp), (H2 p Hp).
Qed.

(** C3 (intersection), at the input where the code departs from it:
    [BloomFilter(1, 0.9)] has a single bit, one [add] of any element sets it,
    and the intersection of two such filters raises [ValueError] (the
    estimator of the element count takes [log(0.0)]) instead of returning a
    filter whose [lookup] finds the element added to both. *)
Theorem C3_intersection_saturated_raises (hash : string -> Z -> Z) (e : string) :
  BloomFilter.init 1 (9 / 10) = Ok bf_1_09
  /\ BloomFilter.add hash bf_1_09 e = Ok bf_1_09_full
  /\ BloomFilter.lookup hash bf_1_09_full e = Ok true
  /\ BloomFilter.intersection bf_1_09_full bf_1_09_full = Raise ValueError.
Proof.
  split; [apply init_1_09 |]. split; [apply add_bf_1_09 |]. split.
  - apply lookup_true_iff; [apply wf_bf_1_09_full |]. simpl.
    intros p Hp. apply list_elem_of_fmap in Hp as (seed & -> & _).
    unfold probe. by rewrite Z.mod_1_r.
  - apply bf_intersection_saturated; try apply wf_bf_1_09_full; done.
Qed.

(** C4 as stated fails: on two filters of sizes 1 and 2 neither [union] nor
    [intersection] raises an error. *)
Lemma C4_incompatible_counterexample :
  BloomFilter.init 1 (9 / 10) = Ok bf_1_09
  /\ BloomFilter.init 1 (1 / 2) = Ok bf_1_05
  /\ BloomFilter.size bf_1_09 <> BloomFilter.size bf_1_05
  /\ ~ raises (BloomFilter.union bf_1_09 bf_1_05)
  /\ ~ raises (BloomFilter.intersection bf_1_09 bf_1_05).
Proof.
  split; [apply init_1_09 |]. split; [apply init_1_05 |]. split; [done |].
  split; intros [e He]; done.
Qed.

(** C4 (amended). On filters of differing [size] or differing [hash_count],
    [union] and [intersection] return [None]: no exception is raised and no
    filter is returned. *)
Theorem C4_incompatible_returns_none (a b : BloomFilter.t) :
  BloomFilter.size a <> BloomFilter.size b
  \/ BloomFilter.hash_count a <> BloomFilter.hash_count b ->
  BloomFilter.union a b = Ok None /\ BloomFilter.intersection a b = Ok None.
Proof.
  intros H. unfold BloomFilter.union, BloomFilter.intersection.
  destruct (BloomFilter.size a =? BloomFilter.size b)%Z eqn:E1; simpl; [| done].
  destruct (BloomFilter.hash_count a =? BloomFilter.hash_count b)%Z eqn:E2;
    simpl; [| done].
  destruct H as [H | H]; lia.
Qed.

Lemma C4_incompatible_returns_none_witness :
  (BloomFilter.size bf_1_09 <> BloomFilter.size bf_1_05
   \/ BloomFilter.hash_count bf_1_09 <> BloomFilter.hash_count bf_1_05)
  /\ BloomFilter.union bf_1_09 bf_1_05 = Ok None
  /\ BloomFilter.intersection bf_1_09 bf_1_05 = Ok None.
Proof.
  assert (H : BloomFilter.size bf_1_09 <> BloomFilter.size bf_1_05
              \/ BloomFilter.hash_count bf_1_09 <> BloomFilter.hash_count bf_1_05)
    by (left; simpl; lia).
  split; [exact H |].
  apply (C4_incompatible_returns_none bf_1_09 bf_1_05 H).
Defined.

(** ** The scalable filter *)

Lemma last_filter_snoc (fs : list ScalableBloomFilter.ref) (l : ScalableBloomFilter.ref) :
  ScalableBloomFilter.last_filter (fs ++ [l]) = Ok l.
Proof.
  unfold ScalableBloomFilter.last_filter, getitem, py_index.
  rewrite length_app. change (-1 <? 0)%Z with true. cbv iota.
  set (n := Z.of_nat (length fs + length [l])).
  assert (Hn : n = (Z.of_nat (length fs) + 1)%Z) by (unfold n; simpl; lia).
  destruct (0 <=? -1 + n)%Z eqn:E1; [| lia].
  destruct (-1 + n <? n)%Z eqn:E2; [| lia].
  simpl.
  replace (Z.to_nat (-1 + n)) with (length fs) by lia.
  by rewrite list_lookup_middle.
Qed.

Lemma last_filter_ok (fs : list ScalableBloomFilter.ref) :
  fs <> [] -> exists l, ScalableBloomFilter.last_filter fs = Ok l /\ l ∈ fs.
Proof.
  destruct fs as [| x fs] using rev_ind; [done |]. intros _.
  exists x. split; [apply last_filter_snoc |].
  apply elem_of_app. right. constructor.
Qed.

Lemma last_filter_inv (fs : list ScalableBloomFilter.ref) (l : ScalableBloomFilter.ref) :
  ScalableBloomFilter.last_filter fs = Ok l -> exists fs', fs = fs' ++ [l].
Proof.
  destruct fs as [| x fs] using rev_ind; [done |].
  rewrite last_filter_snoc. intros [= ->]. eauto.
Qed.

Lemma deref_ok (h : ScalableBloomFilter.store) (l : ScalableBloomFilter.ref)
    (f : BloomFilter.t) :
  h !! l = Some f -> ScalableBloomFilter.deref h l = Ok f.
Proof. intros H. unfold ScalableBloomFilter.deref. by rewrite H. Qed.

Lemma fresh_not_in_store (h : ScalableBloomFilter.store) :
  h !! fresh (dom h) = None.
Proof. apply not_elem_of_dom. apply is_fresh. Qed.

(** The constructor of the scalable filter on valid arguments. *)
Lemma sbf_init_ok (ic : Z) (p sf : R) (sm : Z) (h : ScalableBloomFilter.store) :
  (0 < ic)%Z -> (0 < p < 1)%R -> (0 < sf)%R -> sm = 1%Z \/ sm = 2%Z ->
  exists f,
    BloomFilter.init ic p = Ok f /\ wf f
    /\ BloomFilter.capacity f = ic /\ BloomFilter.element_count f = 0%Z
    /\ ScalableBloomFilter.init ic p sf sm h
       = Ok (ScalableBloomFilter.Build ic 0 p sf sm [fresh (dom h)],
             <[fresh (dom h) := f]> h)
    /\ sbf_ok (ScalableBloomFilter.Build ic 0 p sf sm [fresh (dom h)])
              (<[fresh (dom h) := f]> h).
Proof.
  intros Hic Hp Hsf Hsm.
  destruct (bf_init_ok ic p Hic Hp) as (f & Hi & Hwf & Hcap & _ & Hec & _).
  exists f. do 4 (split; [done |]). split.
  - unfold ScalableBloomFilter.init.
    destruct (0 <? ic)%Z eqn:E; [| lia]. simpl.
    destruct (Rlt_dec 0 p); [| lra]. destruct (Rlt_dec p 1); [| lra].
    destruct (Rlt_dec 0 sf); [| lra].
    rewrite bool_decide_eq_true_2.
    + rewrite Hi. done.
    + destruct Hsm as [-> | ->]; [left | right; left].
  - constructor; simpl; try done.
    intros l Hl. apply list_elem_of_singleton in Hl as ->.
    exists f. by rewrite lookup_insert_eq.
Qed.

Lemma sbf_init_raises (ic : Z) (p sf : R) (sm : Z) (h : ScalableBloomFilter.store) :
  (ic <= 0)%Z \/ ~ (0 < p < 1)%R \/ (sf <= 0)%R \/ (sm <> 1%Z /\ sm <> 2%Z) ->
  ScalableBloomFilter.init ic p sf sm h = Raise ValueError.
Proof.
  intros H. unfold ScalableBloomFilter.init.
  destruct (0 <? ic)%Z eqn:E; simpl; [| done].
  destruct (Rlt_dec 0 p); [| done]. destruct (Rlt_dec p 1); [| done].
  destruct (Rlt_dec 0 sf); [| done].
  destruct (bool_decide (sm ∈ [1%Z; 2%Z])) eqn:Em; [| done].
  apply bool_decide_eq_true_1 in Em.
  destruct H as [H | [H | [H | [H1 H2]]]]; [lia | lra | lra |].
  apply elem_of_cons in Em as [-> | Em]; [done |].
  apply list_elem_of_singleton in Em as ->. done.
Qed.

(** C5 (constructor validation). [BloomFilter(capacity, error_rate)] raises
    [ValueError] exactly when [capacity <= 0] or [error_rate] is not
    strictly between 0 and 1; [ScalableBloomFilter(initial_capacity,
    error_rate, scale_factor, scale_mode)] raises [ValueError] exactly when
    [initial_capacity <= 0], [error_rate] is not in (0,1),
    [scale_factor <= 0] or [scale_mode] is neither constant.  A raised
    exception carries no object: the outcome is [Raise], not [Ok]. *)
Theorem C5_constructor_validation (c : Z) (p : R) (ic : Z) (q sf : R) (sm : Z)
    (h : ScalableBloomFilter.store) :
  (BloomFilter.init c p = Raise ValueError
   <-> (c <= 0)%Z \/ ~ (0 < p < 1)%R)
  /\ (ScalableBloomFilter.init ic q sf sm h = Raise ValueError
      <-> (ic <= 0)%Z \/ ~ (0 < q < 1)%R \/ (sf <= 0)%R
          \/ (sm <> ScalableBloomFilter.SCALE_MODE_LINEAR
              /\ sm <> ScalableBloomFilter.SCALE_MODE_EXPONENTIAL)).
Proof.
  unfold ScalableBloomFilter.SCALE_MODE_LINEAR,
    ScalableBloomFilter.SCALE_MODE_EXPONENTIAL.
  split.
  - split; [| apply bf_init_raises].
    intros Hr.
    destruct (decide (0 < c)%Z) as [Hc |]; [| left; lia].
    destruct (Rlt_dec 0 p) as [Hp0 |]; [| right; lra].
    destruct (Rlt_dec p 1) as [Hp1 |]; [| right; lra].
    destruct (bf_init_ok c p Hc (conj Hp0 Hp1)) as (f & Hf & _).
    by rewrite Hf in Hr.
  - split; [| apply sbf_init_raises].
    intros Hr.
    destruct (decide (0 < ic)%Z) as [Hic |]; [| left; lia].
    destruct (Rlt_dec 0 q) as [Hq0 |]; [| right; left; lra].
    destruct (Rlt_dec q 1) as [Hq1 |]; [| right; left; lra].
    destruct (Rlt_dec 0 sf) as [Hsf |]; [| right; right; left; lra].
    assert (Hsm : sm = 1%Z \/ sm = 2%Z \/ (sm <> 1%Z /\ sm <> 2%Z)).
    { destruct (decide (sm = 1%Z)); [tauto |].
      destruct (decide (sm = 2%Z)); tauto. }
    destruct Hsm as [Hsm | [Hsm | Hsm]]; [| | tauto].
    + destruct (sbf_init_ok ic q sf sm h Hic (conj Hq0 Hq1) Hsf (or_introl Hsm))
        as (f & _ & _ & _ & _ & Hs & _).
      by rewrite Hs in Hr.
    + destruct (sbf_init_ok ic q sf sm h Hic (conj Hq0 Hq1) Hsf (or_intror Hsm))
        as (f & _ & _ & _ & _ & Hs & _).
      by rewrite Hs in Hr.
Qed.

(** C10 (membership operator). For both classes [e in filter] is
    [lookup(e)]. *)
Theorem C10_contains_is_lookup (hash : string -> Z -> Z) (e : string)
    (f : BloomFilter.t) (s : ScalableBloomFilter.t)
    (h : ScalableBloomFilter.store) :
  BloomFilter.__contains__ hash f e = BloomFilter.lookup hash f e
  /\ ScalableBloomFilter.__contains__ hash s e h
     = ScalableBloomFilter.lookup hash s e h.
Proof. split; reflexivity. Qed.

(** ** [ScalableBloomFilter.add] *)

Section ScalableAdd.

Variable hash : string -> Z -> Z.

Lemma sbf_ok_last (s : ScalableBloomFilter.t) (h : ScalableBloomFilter.store)
    (l : ScalableBloomFilter.ref) (f : BloomFilter.t) :
  sbf_ok s h ->
  ScalableBloomFilter.last_filter (ScalableBloomFilter.filters s) = Ok l ->
  h !! l = Some f -> wf f.
Proof.
  intros Hok Hlast Hf. apply last_filter_inv in Hlast as [fs' Hfs].
  destruct (ok_refs s h Hok l) as (f0 & Hf0 & Hwf).
  - rewrite Hfs. apply elem_of_app. right. constructor.
  - rewrite Hf in Hf0. by injection Hf0 as ->.
Qed.

(** While the newest filter is not full, [add] goes to it and the list of
    filters stays as it is. *)
Lemma sadd_not_full (s : ScalableBloomFilter.t) (e : string)
    (h : ScalableBloomFilter.store) (l : ScalableBloomFilter.ref)
    (f : BloomFilter.t) :
  sbf_ok s h ->
  ScalableBloomFilter.last_filter (ScalableBloomFilter.filters s) = Ok l ->
  h !! l = Some f -> BloomFilter.is_full f = false ->
  exists f',
    BloomFilter.add hash f e = Ok f' /\ wf f'
    /\ BloomFilter.capacity f' = BloomFilter.capacity f
    /\ BloomFilter.element_count f' = (BloomFilter.element_count f + 1)%Z
    /\ ScalableBloomFilter.add hash s e h
       = Ok (ScalableBloomFilter.set_element_count s
               (ScalableBloomFilter.element_count s + 1),
             <[l := f']> h)
    /\ sbf_ok (ScalableBloomFilter.set_element_count s
                 (ScalableBloomFilter.element_count s + 1))
              (<[l := f']> h).
Proof.
  intros Hok Hlast Hf Hfull.
  pose proof (sbf_ok_last s h l f Hok Hlast Hf) as Hwf.
  eexists. split; [by apply bf_add_ok |].
  split; [by apply wf_set_bits |]. split; [done |]. split; [done |]. split.
  - unfold ScalableBloomFilter.add. rewrite Hlast. simpl.
    rewrite (deref_ok h l f Hf). simpl. rewrite Hfull. simpl.
    rewrite Hlast. simpl. rewrite (deref_ok h l f Hf). simpl.
    rewrite bf_add_ok by done. done.
  - destruct Hok as [H1 H2 H3 Hm H4 H5]. constructor; simpl; try done.
    intros l0 Hl0. destruct (decide (l0 = l)) as [-> | Hne].
    + eexists. rewrite lookup_insert_eq. split; [done |]. by apply wf_set_bits.
    + rewrite lookup_insert_ne by done. by apply H5.
Qed.

(** When the newest filter is full, [add] first appends a filter of the next
    capacity, provided that capacity is positive. *)
Lemma sadd_full (s : ScalableBloomFilter.t) (e : string)
    (h : ScalableBloomFilter.store) (l : ScalableBloomFilter.ref)
    (f : BloomFilter.t) :
  sbf_ok s h ->
  ScalableBloomFilter.last_filter (ScalableBloomFilter.filters s) = Ok l ->
  h !! l = Some f -> BloomFilter.is_full f = true ->
  (0 < ScalableBloomFilter.calc_next_capacity s)%Z ->
  exists nf nf',
    BloomFilter.init (ScalableBloomFilter.calc_next_capacity s)
      (ScalableBloomFilter.error_rate s) = Ok nf
    /\ BloomFilter.add hash nf e = Ok nf' /\ wf nf'
    /\ BloomFilter.capacity nf' = ScalableBloomFilter.calc_next_capacity s
    /\ BloomFilter.element_count nf' = 1%Z
    /\ ScalableBloomFilter.add hash s e h
       = Ok (ScalableBloomFilter.set_element_count
               (ScalableBloomFilter.set_filters s
                  (ScalableBloomFilter.filters s ++ [fresh (dom h)]))
               (ScalableBloomFilter.element_count s + 1),
             <[fresh (dom h) := nf']> (<[fresh (dom h) := nf]> h))
    /\ sbf_ok (ScalableBloomFilter.set_element_count
                 (ScalableBloomFilter.set_filters s
                    (ScalableBloomFilter.filters s ++ [fresh (dom h)]))
                 (ScalableBloomFilter.element_count s + 1))
              (<[fresh (dom h) := nf']> (<[fresh (dom h) := nf]> h)).
Proof.
  intros Hok Hlast Hf Hfull Hcap.
  destruct (bf_init_ok _ _ Hcap (ok_error_rate s h Hok))
    as (nf & Hnf & Hwf & Hc & _ & Hec & _).
  exists nf. eexists. split; [done |]. split; [by apply bf_add_ok |].
  split; [by apply wf_set_bits |]. split; [done |].
  split; [simpl; lia |]. split.
  - unfold ScalableBloomFilter.add. rewrite Hlast. simpl.
    rewrite (deref_ok h l f Hf). simpl. rewrite Hfull. rewrite Hnf. simpl.
    rewrite last_filter_snoc. simpl.
    unfold ScalableBloomFilter.deref. rewrite lookup_insert_eq. simpl.
    rewrite bf_add_ok by done. done.
  - destruct Hok as [H1 H2 H3 Hm H4 H5]. constructor; simpl; try done.
    + intros Happ. by apply app_eq_nil in Happ as [_ ?].
    + intros l0 Hl0. apply elem_of_app in Hl0 as [Hl0 | Hl0].
      * destruct (H5 l0 Hl0) as (f0 & Hf0 & Hwf0).
        assert (Hne : fresh (dom h) <> l0).
        { intros <-. by rewrite fresh_not_in_store in Hf0. }
        exists f0. by rewrite !lookup_insert_ne.
      * apply list_elem_of_singleton in Hl0 as ->.
        eexists. rewrite lookup_insert_eq. split; [done |]. by apply wf_set_bits.
Qed.

(** When the next capacity truncates to 0 (a scale factor below 1), the
    constructor of the new filter rejects it and [add] raises. *)
Lemma sadd_full_rejected (s : ScalableBloomFilter.t) (e : string)
    (h : ScalableBloomFilter.store) (l : ScalableBloomFilter.ref)
    (f : BloomFilter.t) :
  ScalableBloomFilter.last_filter (ScalableBloomFilter.filters s) = Ok l ->
  h !! l = Some f -> BloomFilter.is_full f = true ->
  (ScalableBloomFilter.calc_next_capacity s <= 0)%Z ->
  ScalableBloomFilter.add hash s e h = Raise ValueError.
Proof.
  intros Hlast Hf Hfull Hcap. unfold ScalableBloomFilter.add.
  rewrite Hlast. simpl. rewrite (deref_ok h l f Hf). simpl. rewrite Hfull.
  rewrite bf_init_raises by (by left). done.
Qed.

(** In a good state [add] returns a good state, or raises [ValueError] at a
    growth step whose capacity is not positive. *)
Lemma sadd_total (s : ScalableBloomFilter.t) (e : string)
    (h : ScalableBloomFilter.store) :
  sbf_ok s h ->
  (exists s' h', ScalableBloomFilter.add hash s e h = Ok (s', h') /\ sbf_ok s' h')
  \/ ScalableBloomFilter.add hash s e h = Raise ValueError.
Proof.
  intros Hok.
  destruct (last_filter_ok _ (ok_nonempty s h Hok)) as (l & Hlast & Hl).
  destruct (ok_refs s h Hok l Hl) as (f & Hf & _).
  destruct (BloomFilter.is_full f) eqn:Hfull.
  - destruct (decide (0 < ScalableBloomFilter.calc_next_capacity s)%Z) as [Hc | Hc].
    + destruct (sadd_full s e h l f Hok Hlast Hf Hfull Hc)
        as (nf & nf' & _ & _ & _ & _ & _ & Hadd & Hok').
      left. eauto.
    + right. apply (sadd_full_rejected s e h l f Hlast Hf Hfull). lia.
  - destruct (sadd_not_full s e h l f Hok Hlast Hf Hfull)
      as (f' & _ & _ & _ & _ & Hadd & Hok').
    left. eauto.
Qed.

Lemma sadd_all_app (es1 es2 : list string) (s : ScalableBloomFilter.t)
    (h : ScalableBloomFilter.store) :
  ScalableBloomFilter.add_all hash s (es1 ++ es2) h
  = let! (s', h') := ScalableBloomFilter.add_all hash s es1 h in
    ScalableBloomFilter.add_all hash s' es2 h'.
Proof.
  revert s h. induction es1 as [| e es1 IH]; intros s h; simpl; [done |].
  destruct (ScalableBloomFilter.add hash s e h) as [[s1 h1] | x]; simpl; [| done].
  apply IH.
Qed.

(** As long as the newest filter has room for them, a sequence of [add]
    calls fills it and appends nothing. *)
Lemma sadd_all_fill (es : list string) (s : ScalableBloomFilter.t)
    (h : ScalableBloomFilter.store) (l : ScalableBloomFilter.ref)
    (f : BloomFilter.t) :
  sbf_ok s h ->
  ScalableBloomFilter.last_filter (ScalableBloomFilter.filters s) = Ok l ->
  h !! l = Some f ->
  (BloomFilter.element_count f + Z.of_nat (length es) <= BloomFilter.capacity f)%Z ->
  exists s' h' f',
    ScalableBloomFilter.add_all hash s es h = Ok (s', h')
    /\ sbf_ok s' h' /\ same_config s s'
    /\ ScalableBloomFilter.filters s' = ScalableBloomFilter.filters s
    /\ ScalableBloomFilter.element_count s'
       = (ScalableBloomFilter.element_count s + Z.of_nat (length es))%Z
    /\ h' !! l = Some f'
    /\ BloomFilter.capacity f' = BloomFilter.capacity f
    /\ BloomFilter.element_count f'
       = (BloomFilter.element_count f + Z.of_nat (length es))%Z.
Proof.
  revert s h f. induction es as [| e es IH]; intros s h f Hok Hlast Hf Hroom.
  - exists s, h, f. simpl.
    split; [done |]. split; [done |]. split; [by unfold same_config |].
    split; [done |]. split; [lia |]. split; [done |]. split; [done | lia].
  - simpl in Hroom.
    assert (Hnf : BloomFilter.is_full f = false) by (apply is_full_false_iff; lia).
    destruct (sadd_not_full s e h l f Hok Hlast Hf Hnf)
      as (f1 & _ & _ & Hc1 & He1 & Hadd & Hok1).
    destruct (IH _ _ f1 Hok1 Hlast (lookup_insert_eq _ _ _))
      as (s' & h' & f' & Hall & Hok' & Hcfg & Hfs & Hec & Hf' & Hc' & He');
      [lia |].
    exists s', h', f'. simpl. rewrite Hadd. simpl.
    split; [done |]. split; [done |]. split; [apply Hcfg |].
    split; [done |]. split; [simpl in Hec; lia |]. split; [done |].
    split; [congruence | lia].
Qed.

End ScalableAdd.

(** The next capacity for a scale factor that is an integer: the product
    itself. *)
Lemma calc_next_capacity_integral (s : ScalableBloomFilter.t) (k : Z) :
  ScalableBloomFilter.scale_factor s = IZR k ->
  ScalableBloomFilter.calc_next_capacity s
  = if (ScalableBloomFilter.scale_mode s =? ScalableBloomFilter.SCALE_MODE_LINEAR)%Z
    then (ScalableBloomFilter.initial_capacity s * k
          * Z.of_nat (length (ScalableBloomFilter.filters s)))%Z
    else (ScalableBloomFilter.initial_capacity s
          * k ^ Z.of_nat (length (ScalableBloomFilter.filters s)))%Z.
Proof.
  intros Hk. unfold ScalableBloomFilter.calc_next_capacity. rewrite Hk.
  destruct (ScalableBloomFilter.scale_mode s =? _)%Z.
  - rewrite INR_IZR_INZ, <- !mult_IZR, py_int_IZR. lia.
  - rewrite pow_IZR, <- mult_IZR, py_int_IZR. done.
Qed.

(** What a growing [add] appended. *)
Lemma sadd_full_inv (hash : string -> Z -> Z) (s s' : ScalableBloomFilter.t)
    (e : string) (h h' : ScalableBloomFilter.store) (l : ScalableBloomFilter.ref)
    (f : BloomFilter.t) :
  ScalableBloomFilter.last_filter (ScalableBloomFilter.filters s) = Ok l ->
  h !! l = Some f -> BloomFilter.is_full f = true ->
  ScalableBloomFilter.add hash s e h = Ok (s', h') ->
  exists l' f',
    ScalableBloomFilter.filters s' = ScalableBloomFilter.filters s ++ [l']
    /\ h' !! l' = Some f'
    /\ BloomFilter.capacity f' = ScalableBloomFilter.calc_next_capacity s.
Proof.
  intros Hlast Hf Hfull Hadd. unfold ScalableBloomFilter.add in Hadd.
  rewrite Hlast in Hadd. simpl in Hadd.
  rewrite (deref_ok h l f Hf) in Hadd. simpl in Hadd. rewrite Hfull in Hadd.
  destruct (BloomFilter.init (ScalableBloomFilter.calc_next_capacity s)
              (ScalableBloomFilter.error_rate s)) as [nf | x] eqn:Hnf;
    simpl in Hadd; [| done].
  rewrite last_filter_snoc in Hadd. simpl in Hadd.
  unfold ScalableBloomFilter.deref in Hadd.
  rewrite lookup_insert_eq in Hadd. simpl in Hadd.
  destruct (bf_init_inv _ _ _ Hnf) as (Hwf & Hcap & _).
  rewrite bf_add_ok in Hadd by done. simpl in Hadd.
  injection Hadd as <- <-.
  eexists _, _. split; [done |]. rewrite lookup_insert_eq. split; [done |].
  simpl. done.
Qed.

(** The first growth step of a fresh scalable filter: the seeded filter
    takes [initial_capacity] elements, is full exactly from then on, and the
    next [add] appends a second filter of the next capacity. *)
Lemma first_growth (hash : string -> Z -> Z) (ic : Z) (p sf : R) (sm : Z)
    (h0 : ScalableBloomFilter.store) (es : list string) (c1 : Z) :
  (0 < ic)%Z -> (0 < p < 1)%R -> (0 < sf)%R -> sm = 1%Z \/ sm = 2%Z ->
  length es = S (Z.to_nat ic) ->
  c1 = (if (sm =? 1)%Z then py_int (IZR ic * (sf * INR 1))
        else py_int (IZR ic * sf ^ 1)) ->
  (0 < c1)%Z ->
  exists s0 h1 l0,
    ScalableBloomFilter.init ic p sf sm h0 = Ok (s0, h1)
    /\ ScalableBloomFilter.filters s0 = [l0]
    /\ (forall k, k < Z.to_nat ic ->
          exists s h f,
            ScalableBloomFilter.add_all hash s0 (take k es) h1 = Ok (s, h)
            /\ ScalableBloomFilter.filters s = [l0]
            /\ h !! l0 = Some f /\ BloomFilter.is_full f = false)
    /\ (exists s h f,
          ScalableBloomFilter.add_all hash s0 (take (Z.to_nat ic) es) h1 = Ok (s, h)
          /\ ScalableBloomFilter.filters s = [l0]
          /\ h !! l0 = Some f /\ BloomFilter.is_full f = true)
    /\ (exists s h l1 f1,
          ScalableBloomFilter.add_all hash s0 es h1 = Ok (s, h)
          /\ ScalableBloomFilter.filters s = [l0; l1]
          /\ h !! l1 = Some f1
          /\ BloomFilter.capacity f1 = c1
          /\ BloomFilter.element_count f1 = 1%Z).
Proof.
  intros Hic Hp Hsf Hsm Hlen Hc1 Hpos.
  destruct (sbf_init_ok ic p sf sm h0 Hic Hp Hsf Hsm)
    as (f0 & Hf0 & Hwf0 & Hcap0 & Hec0 & Hinit & Hok0).
  set (l0 := fresh (dom h0)) in *.
  set (s0 := ScalableBloomFilter.Build ic 0 p sf sm [l0]) in *.
  set (h1 := <[l0 := f0]> h0) in *.
  assert (Hlast0 : ScalableBloomFilter.last_filter (ScalableBloomFilter.filters s0)
                   = Ok l0) by apply (last_filter_snoc [] l0).
  assert (Hl0 : h1 !! l0 = Some f0) by apply lookup_insert_eq.
  assert (Hfill : forall k, k <= Z.to_nat ic ->
            exists s h f,
              ScalableBloomFilter.add_all hash s0 (take k es) h1 = Ok (s, h)
              /\ sbf_ok s h /\ same_config s0 s
              /\ ScalableBloomFilter.filters s = [l0]
              /\ h !! l0 = Some f
              /\ BloomFilter.capacity f = ic
              /\ BloomFilter.element_count f = Z.of_nat k).
  { intros k Hk.
    assert (Hlk : length (take k es) = k) by (rewrite length_take; lia).
    destruct (sadd_all_fill hash (take k es) s0 h1 l0 f0 Hok0 Hlast0 Hl0)
      as (s & h & f & Hall & Hok & Hcfg & Hfs & _ & Hf & Hc & He); [lia |].
    exists s, h, f. rewrite Hlk in He.
    split; [done |]. split; [done |]. split; [done |]. split; [done |].
    split; [done |]. split; [congruence | lia]. }
  exists s0, h1, l0. split; [done |]. split; [done |]. split; [| split].
  - intros k Hk. destruct (Hfill k) as (s & h & f & Hall & _ & _ & Hfs & Hf & Hc & He);
      [lia |].
    exists s, h, f. split; [done |]. split; [done |]. split; [done |].
    apply is_full_false_iff. lia.
  - destruct (Hfill (Z.to_nat ic)) as (s & h & f & Hall & _ & _ & Hfs & Hf & Hc & He);
      [lia |].
    exists s, h, f. split; [done |]. split; [done |]. split; [done |].
    apply is_full_true_iff. lia.
  - destruct (Hfill (Z.to_nat ic)) as (s & h & f & Hall & Hok & Hcfg & Hfs & Hf & Hc & He);
      [lia |].
    assert (Hfull : BloomFilter.is_full f = true) by (apply is_full_true_iff; lia).
    assert (Hdrop : exists e, drop (Z.to_nat ic) es = [e]).
    { destruct (drop (Z.to_nat ic) es) as [| e [| e' tl]] eqn:Ed;
        apply (f_equal length) in Ed; rewrite length_drop in Ed; simpl in Ed;
        [lia | eauto | lia]. }
    destruct Hdrop as [e Hdrop].
    assert (Hlast : ScalableBloomFilter.last_filter (ScalableBloomFilter.filters s)
                    = Ok l0) by (rewrite Hfs; apply (last_filter_snoc [] l0)).
    assert (Hnext : ScalableBloomFilter.calc_next_capacity s = c1).
    { destruct Hcfg as (Hc_ic & _ & Hc_sf & Hc_sm).
      unfold ScalableBloomFilter.calc_next_capacity.
      rewrite Hc_ic, Hc_sf, Hc_sm, Hfs, Hc1. done. }
    destruct (sadd_full hash s e h l0 f Hok Hlast Hf Hfull)
      as (nf & nf' & _ & _ & _ & Hcn & Hen & Hadd & _); [lia |].
    eexists _, _, (fresh (dom h)), nf'.
    split.
    + rewrite <- (take_drop (Z.to_nat ic) es), Hdrop, sadd_all_app, Hall.
      simpl. rewrite Hadd. done.
    + simpl. rewrite Hfs. split; [done |]. rewrite lookup_insert_eq.
      split; [done |]. split; [congruence | done].
Qed.

(** C7 as stated fails for a scale factor that is not an integer:
    [ScalableBloomFilter(5, 0.9, 0.5, LINEAR)] appends, at its sixth [add], a
    filter of capacity [int(5 * (0.5 * 1)) = 2], not [5 * 0.5 * 1 = 2.5]. *)
Lemma C7_next_capacity_counterexample :
  exists s0 h1 s h l0 l1 f1,
    ScalableBloomFilter.init 5 (9 / 10) (1 / 2)
      ScalableBloomFilter.SCALE_MODE_LINEAR ∅ = Ok (s0, h1)
    /\ ScalableBloomFilter.filters s0 = [l0]
    /\ ScalableBloomFilter.add_all sample_hash s0
         ["a"; "b"; "c"; "d"; "e"; "f"] h1 = Ok (s, h)
    /\ ScalableBloomFilter.filters s = [l0; l1]
    /\ h !! l1 = Some f1
    /\ BloomFilter.capacity f1 = 2%Z
    /\ IZR (BloomFilter.capacity f1)
       <> (IZR (ScalableBloomFilter.initial_capacity s0)
           * ScalableBloomFilter.scale_factor s0
           * INR (length (ScalableBloomFilter.filters s0)))%R.
Proof.
  destruct (first_growth sample_hash 5 (9 / 10) (1 / 2) 1 ∅
              ["a"; "b"; "c"; "d"; "e"; "f"] 2)
    as (s0 & h1 & l0 & Hinit & Hfs0 & _ & _ & (s & h & l1 & f1 & Hall & Hfs & Hf1 & Hc & _));
    [lia | lra | lra | by left | done | | lia |].
  - change (1 =? 1)%Z with true. cbv iota. rewrite py_int_floor by (simpl; lra).
    symmetry. apply Zfloor_eq. simpl. lra.
  - exists s0, h1, s, h, l0, l1, f1.
    do 5 (split; [done |]). split; [done |].
    rewrite Hc, Hfs0.
    assert (Hs0 : ScalableBloomFilter.initial_capacity s0 = 5%Z
                  /\ ScalableBloomFilter.scale_factor s0 = (1 / 2)%R).
    { destruct (sbf_init_ok 5 (9 / 10) (1 / 2) 1 ∅) as (f & _ & _ & _ & _ & Hi & _);
        [lia | lra | lra | by left |].
      unfold ScalableBloomFilter.SCALE_MODE_LINEAR in Hinit.
      rewrite Hi in Hinit. injection Hinit as <- _. done. }
    destruct Hs0 as [-> ->]. simpl. lra.
Qed.

(** C7 (amended). When [add] finds the newest filter full and the scale
    factor is a positive integer [k], the filter it appends has capacity
    [initial_capacity * k * n] in LINEAR mode and [initial_capacity * k ^ n]
    otherwise, [n] being the number of filters before the call, as long as
    that product is below [2^53] (where the arithmetic of doubles is exact).
    With [initial_capacity = 10], [scale_factor = 2] and LINEAR mode, the
    seeded filter is not full before the 10th [add], is full after it, and
    the 11th [add] leaves exactly two filters, the second of capacity 20. *)
Theorem C7_next_capacity (hash : string -> Z -> Z) :
  (forall s s' e h h' l f (k : Z),
      ScalableBloomFilter.last_filter (ScalableBloomFilter.filters s) = Ok l ->
      h !! l = Some f -> BloomFilter.is_full f = true ->
      ScalableBloomFilter.add hash s e h = Ok (s', h') ->
      (0 < ScalableBloomFilter.initial_capacity s)%Z ->
      ScalableBloomFilter.scale_factor s = IZR k -> (0 < k)%Z ->
      ((if (ScalableBloomFilter.scale_mode s
            =? ScalableBloomFilter.SCALE_MODE_LINEAR)%Z
        then ScalableBloomFilter.initial_capacity s * k
             * Z.of_nat (length (ScalableBloomFilter.filters s))
        else ScalableBloomFilter.initial_capacity s
             * k ^ Z.of_nat (length (ScalableBloomFilter.filters s)))
       < 2 ^ 53)%Z ->
      exists l' f',
        ScalableBloomFilter.filters s' = ScalableBloomFilter.filters s ++ [l']
        /\ h' !! l' = Some f'
        /\ BloomFilter.capacity f'
           = if (ScalableBloomFilter.scale_mode s
                 =? ScalableBloomFilter.SCALE_MODE_LINEAR)%Z
             then (ScalableBloomFilter.initial_capacity s * k
                   * Z.of_nat (length (ScalableBloomFilter.filters s)))%Z
             else (ScalableBloomFilter.initial_capacity s
                   * k ^ Z.of_nat (length (ScalableBloomFilter.filters s)))%Z)
  /\ (forall (p : R) (h0 : ScalableBloomFilter.store) (es : list string),
        (0 < p < 1)%R -> length es = 11 ->
        exists s0 h1 l0,
          ScalableBloomFilter.init 10 p 2 ScalableBloomFilter.SCALE_MODE_LINEAR h0
          = Ok (s0, h1)
          /\ ScalableBloomFilter.filters s0 = [l0]
          /\ (forall k, k < 10 ->
                exists s h f,
                  ScalableBloomFilter.add_all hash s0 (take k es) h1 = Ok (s, h)
                  /\ ScalableBloomFilter.filters s = [l0]
                  /\ h !! l0 = Some f /\ BloomFilter.is_full f = false)
          /\ (exists s h f,
                ScalableBloomFilter.add_all hash s0 (take 10 es) h1 = Ok (s, h)
                /\ ScalableBloomFilter.filters s = [l0]
                /\ h !! l0 = Some f /\ BloomFilter.is_full f = true)
          /\ (exists s h l1 f1,
                ScalableBloomFilter.add_all hash s0 es h1 = Ok (s, h)
                /\ ScalableBloomFilter.filters s = [l0; l1]
                /\ h !! l1 = Some f1
                /\ BloomFilter.capacity f1 = 20%Z
                /\ BloomFilter.element_count f1 = 1%Z)).
Proof.
  split.
  - intros s s' e h h' l f k Hlast Hf Hfull Hadd _ Hk _ _.
    destruct (sadd_full_inv hash s s' e h h' l f Hlast Hf Hfull Hadd)
      as (l' & f' & Hfs & Hf' & Hcap).
    exists l', f'. split; [done |]. split; [done |].
    rewrite Hcap. by apply calc_next_capacity_integral.
  - intros p h0 es Hp Hlen.
    apply (first_growth hash 10 p 2 1 h0 es 20);
      [lia | done | lra | by left | done | | lia].
    change (1 =? 1)%Z with true. cbv iota.
    replace (IZR 10 * (2 * INR 1))%R with (IZR 20) by (simpl; lra).
    by rewrite py_int_IZR.
Qed.

Lemma C7_next_capacity_witness :
  ((0 < 1 / 2 < 1)%R
   /\ length ["a"; "b"; "c"; "d"; "e"; "f"; "g"; "h"; "i"; "j"; "k"] = 11)
  /\ exists s0 h1 l0 s10 h10 f0 s h l1 f1,
       ScalableBloomFilter.init 10 (1 / 2) 2
         ScalableBloomFilter.SCALE_MODE_LINEAR ∅ = Ok (s0, h1)
       /\ ScalableBloomFilter.filters s0 = [l0]
       /\ ScalableBloomFilter.add_all sample_hash s0
            ["a"; "b"; "c"; "d"; "e"; "f"; "g"; "h"; "i"; "j"] h1 = Ok (s10, h10)
       /\ ScalableBloomFilter.filters s10 = [l0]
       /\ h10 !! l0 = Some f0 /\ BloomFilter.is_full f0 = true
       /\ ScalableBloomFilter.add sample_hash s10 "k" h10 = Ok (s, h)
       /\ ScalableBloomFilter.filters s = [l0; l1]
       /\ h !! l1 = Some f1
       /\ BloomFilter.capacity f1 = 20%Z
       /\ exists l' f',
            ScalableBloomFilter.filters s = ScalableBloomFilter.filters s10 ++ [l']
            /\ h !! l' = Some f'
            /\ BloomFilter.capacity f' = (10 * 2 * Z.of_nat 1)%Z.
Proof.
  assert (Hp : (0 < 1 / 2 < 1)%R) by lra.
  split; [split; [exact Hp | reflexivity] |].
  destruct (proj2 (C7_next_capacity sample_hash) (1 / 2)%R ∅
              ["a"; "b"; "c"; "d"; "e"; "f"; "g"; "h"; "i"; "j"; "k"] Hp eq_refl)
    as (s0 & h1 & l0 & Hinit & Hfs0 & _
        & (s10 & h10 & f0 & Hall10 & Hfs10 & Hf0 & Hfull)
        & (s & h & l1 & f1 & Hall & Hfs & Hf1 & Hc & _)).
  simpl take in Hall10.
  assert (Hadd : ScalableBloomFilter.add sample_hash s10 "k" h10 = Ok (s, h)).
  { change ["a"; "b"; "c"; "d"; "e"; "f"; "g"; "h"; "i"; "j"; "k"]
      with (["a"; "b"; "c"; "d"; "e"; "f"; "g"; "h"; "i"; "j"] ++ ["k"]) in Hall.
    rewrite sadd_all_app, Hall10 in Hall. simpl in Hall.
    by destruct (ScalableBloomFilter.add sample_hash s10 "k" h10) as [[s1 h1'] |]. }
  assert (Hcfg : ScalableBloomFilter.initial_capacity s10 = 10%Z
                 /\ ScalableBloomFilter.scale_factor s10 = IZR 2
                 /\ ScalableBloomFilter.scale_mode s10 = 1%Z).
  { destruct (sbf_init_ok 10 (1 / 2) 2 1 ∅) as (g & _ & _ & Hcg & Heg & Hi & Hok0);
      [lia | lra | lra | by left |].
    unfold ScalableBloomFilter.SCALE_MODE_LINEAR in Hinit.
    rewrite Hi in Hinit. injection Hinit as <- <-.
    destruct (sadd_all_fill sample_hash
                ["a"; "b"; "c"; "d"; "e"; "f"; "g"; "h"; "i"; "j"] _ _ _ g Hok0
                (last_filter_snoc [] _) (lookup_insert_eq _ _ _))
      as (s1 & h1' & g' & Hall1 & _ & (C1 & _ & C3 & C4) & _);
      [rewrite Hcg, Heg; simpl; lia |].
    rewrite Hall10 in Hall1. injection Hall1 as <- <-.
    rewrite C1, C3, C4. done. }
  destruct Hcfg as (Eic & Esf & Esm).
  assert (Hlast : ScalableBloomFilter.last_filter (ScalableBloomFilter.filters s10)
                  = Ok l0) by (rewrite Hfs10; apply (last_filter_snoc [] l0)).
  assert (Hic : (0 < ScalableBloomFilter.initial_capacity s10)%Z)
    by (rewrite Eic; lia).
  assert (Hk : (0 < 2)%Z) by lia.
  assert (Hb : ((if (ScalableBloomFilter.scale_mode s10
                     =? ScalableBloomFilter.SCALE_MODE_LINEAR)%Z
                 then ScalableBloomFilter.initial_capacity s10 * 2
                      * Z.of_nat (length (ScalableBloomFilter.filters s10))
                 else ScalableBloomFilter.initial_capacity s10
                      * 2 ^ Z.of_nat (length (ScalableBloomFilter.filters s10)))
                < 2 ^ 53)%Z).
  { rewrite Esm, Eic, Hfs10. vm_compute. done. }
  destruct (proj1 (C7_next_capacity sample_hash) s10 s "k" h10 h l0 f0 2%Z
              Hlast Hf0 Hfull Hadd Hic Esf Hk Hb) as (l' & f' & Hfs' & Hf' & Hcap').
  rewrite Esm, Eic, Hfs10 in Hcap'.
  exists s0, h1, l0, s10, h10, f0, s, h, l1, f1.
  do 10 (split; [done |]).
  exists l', f'. split; [done |]. split; [done |]. exact Hcap'.
Defined.

(** ** The list of filters of a scalable filter *)

Section FiltersSequence.

Variable hash : string -> Z -> Z.

(** [add] leaves the list of references as it is or appends one to it. *)
Lemma sadd_filters (s s' : ScalableBloomFilter.t) (e : string)
    (h h' : ScalableBloomFilter.store) :
  ScalableBloomFilter.add hash s e h = Ok (s', h') ->
  ScalableBloomFilter.filters s' = ScalableBloomFilter.filters s
  \/ exists l', ScalableBloomFilter.filters s'
                = ScalableBloomFilter.filters s ++ [l'].
Proof.
  unfold ScalableBloomFilter.add. intros Hadd.
  apply bind_ok_inv in Hadd as (l & _ & Hadd).
  apply bind_ok_inv in Hadd as (f & _ & Hadd).
  apply bind_ok_inv in Hadd as ([s1 h1] & Hgrow & Hadd).
  apply bind_ok_inv in Hadd as (l1 & _ & Hadd).
  apply bind_ok_inv in Hadd as (f1 & _ & Hadd).
  apply bind_ok_inv in Hadd as (f1' & _ & Hadd).
  injection Hadd as <- <-. simpl.
  destruct (BloomFilter.is_full f).
  - apply bind_ok_inv in Hgrow as (nf & _ & Hgrow).
    simpl in Hgrow. injection Hgrow as <- <-. simpl. eauto.
  - injection Hgrow as <- <-. by left.
Qed.

Lemma sunion_filters (s b r : ScalableBloomFilter.t)
    (h h' : ScalableBloomFilter.store) :
  ScalableBloomFilter.union s b h = Ok (r, h') ->
  ScalableBloomFilter.filters r
  = ScalableBloomFilter.filters s ++ ScalableBloomFilter.filters b.
Proof.
  unfold ScalableBloomFilter.union. intros Hu.
  apply bind_ok_inv in Hu as ([r0 h0] & _ & Hu). by injection Hu as <- <-.
Qed.

Lemma run_op_prefix (o : op) (s s' : ScalableBloomFilter.t)
    (h h' : ScalableBloomFilter.store) :
  run_op hash o s h = Ok (s', h') ->
  ScalableBloomFilter.filters s `prefix_of` ScalableBloomFilter.filters s'.
Proof.
  destruct o as [e | e | e | | b]; simpl; intros Hrun.
  - apply sadd_filters in Hrun as [-> | [l' ->]]; [done |].
    by apply prefix_app_r.
  - apply bind_ok_inv in Hrun as (x & _ & Hrun). by injection Hrun as <- <-.
  - apply bind_ok_inv in Hrun as (x & _ & Hrun). by injection Hrun as <- <-.
  - by injection Hrun as <- <-.
  - rewrite (sunion_filters s b s' h h' Hrun). by apply prefix_app_r.
Qed.

Lemma run_ops_prefix (ops : list op) (s s' : ScalableBloomFilter.t)
    (h h' : ScalableBloomFilter.store) :
  run_ops hash ops s h = Ok (s', h') ->
  ScalableBloomFilter.filters s `prefix_of` ScalableBloomFilter.filters s'.
Proof.
  revert s h. induction ops as [| o ops IH]; intros s h Hrun; simpl in Hrun.
  - by injection Hrun as <- <-.
  - apply bind_ok_inv in Hrun as ([s1 h1] & Hop & Hrun).
    etrans; [by eapply run_op_prefix | by eapply IH].
Qed.

Lemma prefix_nonempty {A : Type} (l k : list A) : l `prefix_of` k -> l <> [] -> k <> [].
Proof. intros [t ->] Hl Happ. by apply app_eq_nil in Happ as [? _]. Qed.

(** What the constructor of the scalable filter seeded. *)
Lemma sbf_init_inv (ic : Z) (p sf : R) (sm : Z) (h0 h1 : ScalableBloomFilter.store)
    (s0 : ScalableBloomFilter.t) :
  ScalableBloomFilter.init ic p sf sm h0 = Ok (s0, h1) ->
  exists l0 f0,
    ScalableBloomFilter.filters s0 = [l0]
    /\ h0 !! l0 = None /\ h1 !! l0 = Some f0
    /\ BloomFilter.init ic p = Ok f0
    /\ BloomFilter.capacity f0 = ic.
Proof.
  unfold ScalableBloomFilter.init. intros Hi.
  destruct (negb (0 <? ic)%Z); [done |].
  destruct (Rlt_dec 0 p); [| done]. destruct (Rlt_dec p 1); [| done].
  destruct (Rlt_dec 0 sf); [| done].
  destruct (bool_decide (sm ∈ [1%Z; 2%Z])); [| done].
  apply bind_ok_inv in Hi as (f0 & Hf0 & Hi). simpl in Hi.
  injection Hi as <- <-. simpl.
  exists (fresh (dom h0)), f0. split; [done |].
  split; [apply fresh_not_in_store |]. rewrite lookup_insert_eq.
  split; [done |]. split; [done |].
  by destruct (bf_init_inv ic p f0 Hf0) as (_ & ? & _).
Qed.

(** [lookup] on a scalable filter in a good state returns an answer. *)
Lemma slookup_loop_total (fs : list ScalableBloomFilter.ref) (e : string)
    (h : ScalableBloomFilter.store) :
  (forall l, l ∈ fs -> exists f, h !! l = Some f /\ wf f) ->
  exists b, ScalableBloomFilter.lookup_loop hash fs e h = Ok b.
Proof.
  induction fs as [| l fs IH]; intros Hrefs; simpl; [eauto |].
  destruct (Hrefs l) as (f & Hf & Hwf); [constructor |].
  rewrite (deref_ok h l f Hf). simpl. rewrite bf_lookup_ok by done. simpl.
  destruct (forallb _ _); [eauto |].
  apply IH. intros l' Hl'. apply Hrefs. by constructor.
Qed.

Lemma slookup_total (s : ScalableBloomFilter.t) (e : string)
    (h : ScalableBloomFilter.store) :
  sbf_ok s h -> exists b, ScalableBloomFilter.lookup hash s e h = Ok b.
Proof.
  intros Hok. apply slookup_loop_total. intros l Hl.
  apply (ok_refs s h Hok). by apply elem_of_reverse.
Qed.

(** [union] of two scalable filters in a good state. *)
Lemma sunion_ok (s b : ScalableBloomFilter.t) (h : ScalableBloomFilter.store) :
  sbf_ok s h -> sbf_ok b h ->
  exists r h',
    ScalableBloomFilter.union s b h = Ok (r, h') /\ sbf_ok r h'
    /\ ScalableBloomFilter.filters r
       = ScalableBloomFilter.filters s ++ ScalableBloomFilter.filters b
    /\ ScalableBloomFilter.element_count r
       = (ScalableBloomFilter.element_count s + ScalableBloomFilter.element_count b)%Z.
Proof.
  intros [S1 S2 S3 Sm S4 S5] [B1 B2 B3 Bm B4 B5].
  destruct (sbf_init_ok _ _ _ _ h S1 S2 S3 Sm) as (f & _ & _ & _ & _ & Hi & _).
  eexists _, _. split.
  { unfold ScalableBloomFilter.union. rewrite Hi. simpl. done. }
  split; [| done].
  assert (Hh' : forall l g, h !! l = Some g -> <[fresh (dom h) := f]> h !! l = Some g).
  { intros l g Hl. rewrite lookup_insert_ne; [done |].
    intros <-. by rewrite fresh_not_in_store in Hl. }
  constructor; simpl; try done.
  - intros Happ. by apply app_eq_nil in Happ as [? _].
  - intros l Hl. apply elem_of_app in Hl as [Hl | Hl].
    + destruct (S5 l Hl) as (g & Hg & Hwf). eauto.
    + destruct (B5 l Hl) as (g & Hg & Hwf). eauto.
Qed.

End FiltersSequence.

(** C9 (the list of filters). The constructor seeds the list with exactly
    one filter of capacity [initial_capacity]; along every run of
    operations ([add], [lookup], [in], [calc_next_capacity], [union]) the
    list is never empty, and the list at any point of the run is a prefix of
    the list at any later point: references are only appended. *)
Theorem C9_filters_append_only (hash : string -> Z -> Z) (ic : Z) (p sf : R)
    (sm : Z) (h0 h1 h1' h2 : ScalableBloomFilter.store)
    (s0 s1 s2 : ScalableBloomFilter.t) (ops1 ops2 : list op) :
  ScalableBloomFilter.init ic p sf sm h0 = Ok (s0, h1) ->
  run_ops hash ops1 s0 h1 = Ok (s1, h1') ->
  run_ops hash ops2 s1 h1' = Ok (s2, h2) ->
  (exists l0 f0,
      ScalableBloomFilter.filters s0 = [l0]
      /\ h1 !! l0 = Some f0
      /\ BloomFilter.init ic p = Ok f0
      /\ BloomFilter.capacity f0 = ic)
  /\ ScalableBloomFilter.filters s1 <> []
  /\ ScalableBloomFilter.filters s2 <> []
  /\ ScalableBloomFilter.filters s0 `prefix_of` ScalableBloomFilter.filters s1
  /\ ScalableBloomFilter.filters s1 `prefix_of` ScalableBloomFilter.filters s2.
Proof.
  intros Hinit Hrun1 Hrun2.
  destruct (sbf_init_inv ic p sf sm h0 h1 s0 Hinit)
    as (l0 & f0 & Hfs0 & _ & Hl0 & Hf0 & Hcap).
  pose proof (run_ops_prefix hash ops1 s0 s1 h1 h1' Hrun1) as Hp1.
  pose proof (run_ops_prefix hash ops2 s1 s2 h1' h2 Hrun2) as Hp2.
  assert (Hne0 : ScalableBloomFilter.filters s0 <> []) by (by rewrite Hfs0).
  pose proof (prefix_nonempty _ _ Hp1 Hne0) as Hne1.
  pose proof (prefix_nonempty _ _ Hp2 Hne1) as Hne2.
  split; [by exists l0, f0 |]. done.
Qed.

Lemma C9_filters_append_only_witness :
  exists s0 h1 s1 h1' s2 h2,
    ScalableBloomFilter.init 1 (9 / 10) 2 1 ∅ = Ok (s0, h1)
    /\ run_ops sample_hash [OpAdd "a"; OpLookup "a"] s0 h1 = Ok (s1, h1')
    /\ run_ops sample_hash [OpUnion s1; OpContains "b"] s1 h1' = Ok (s2, h2)
    /\ (exists l0 f0,
          ScalableBloomFilter.filters s0 = [l0]
          /\ h1 !! l0 = Some f0
          /\ BloomFilter.init 1 (9 / 10) = Ok f0
          /\ BloomFilter.capacity f0 = 1%Z)
    /\ ScalableBloomFilter.filters s1 <> []
    /\ ScalableBloomFilter.filters s2 <> []
    /\ ScalableBloomFilter.filters s0 `prefix_of` ScalableBloomFilter.filters s1
    /\ ScalableBloomFilter.filters s1 `prefix_of` ScalableBloomFilter.filters s2.
Proof.
  assert (Hp : (0 < 9 / 10 < 1)%R) by lra.
  assert (Hsf : (0 < 2)%R) by lra.
  destruct (sbf_init_ok 1 (9 / 10) 2 1 ∅ eq_refl Hp Hsf (or_introl eq_refl))
    as (f0 & Hf0 & Hwf0 & Hcap0 & Hec0 & Hinit & Hok0).
  set (l0 := fresh (dom (∅ : ScalableBloomFilter.store))) in *.
  set (s0 := ScalableBloomFilter.Build 1 0 (9 / 10) 2 1 [l0]) in *.
  set (h1 := <[l0 := f0]> (∅ : ScalableBloomFilter.store)) in *.
  assert (Hnf : BloomFilter.is_full f0 = false) by (apply is_full_false_iff; lia).
  destruct (sadd_not_full sample_hash s0 "a" h1 l0 f0 Hok0
              (last_filter_snoc [] l0) (lookup_insert_eq _ _ _) Hnf)
    as (f1 & _ & _ & _ & _ & Hadd & Hok1).
  set (s1 := ScalableBloomFilter.set_element_count s0
               (ScalableBloomFilter.element_count s0 + 1)) in *.
  set (h1' := <[l0 := f1]> h1) in *.
  destruct (slookup_total sample_hash s1 "a" h1' Hok1) as [b1 Hlk1].
  destruct (sunion_ok s1 s1 h1' Hok1 Hok1) as (r & h2 & Hun & Hokr & _).
  destruct (slookup_total sample_hash r "b" h2 Hokr) as [b2 Hlk2].
  assert (Hrun1 : run_ops sample_hash [OpAdd "a"; OpLookup "a"] s0 h1
                  = Ok (s1, h1')).
  { simpl. rewrite Hadd. simpl. rewrite Hlk1. reflexivity. }
  assert (Hrun2 : run_ops sample_hash [OpUnion s1; OpContains "b"] s1 h1'
                  = Ok (r, h2)).
  { simpl. rewrite Hun. simpl.
    unfold ScalableBloomFilter.__contains__. rewrite Hlk2. reflexivity. }
  exists s0, h1, s1, h1', r, h2.
  split; [exact Hinit |]. split; [exact Hrun1 |]. split; [exact Hrun2 |].
  exact (C9_filters_append_only sample_hash 1 (9 / 10) 2 1 ∅ h1 h1' h2 s0 s1 r
           [OpAdd "a"; OpLookup "a"] [OpUnion s1; OpContains "b"]
           Hinit Hrun1 Hrun2).
Defined.

(** * Further properties of the fixed filter *)

Lemma probes_nonempty (hash : string -> Z -> Z) (sz hc : Z) (e : string) :
  (1 <= hc)%Z -> exists p ps, probes hash sz hc e = p :: ps.
Proof.
  intros Hhc. unfold probes, xrange. rewrite seqZ_cons by lia. simpl. eauto.
Qed.

(** Setting bits depends on the set of positions only. *)
Lemma set_bits_ext (ps qs : list nat) (bits : list bool) :
  (forall i, i ∈ ps <-> i ∈ qs) -> set_bits ps bits = set_bits qs bits.
Proof.
  intros Hpq. apply bits_ext.
  - by rewrite !length_set_bits.
  - intros i. destruct (decide (i < length bits)) as [Hi | Hi].
    + rewrite !test_bit_set_bits by done. f_equal. by apply bool_decide_ext.
    + rewrite !test_bit_ge; [done | ..]; rewrite length_set_bits; lia.
Qed.

(** Setting bits that are set already changes nothing. *)
Lemma set_bits_id (ps : list nat) (bits : list bool) :
  (forall p, p ∈ ps -> test_bit bits p = true) -> set_bits ps bits = bits.
Proof.
  intros Hset. apply bits_ext; [apply length_set_bits |].
  intros i. destruct (decide (i < length bits)) as [Hi | Hi].
  - rewrite test_bit_set_bits by done.
    destruct (decide (i ∈ ps)) as [Hin | Hin].
    + rewrite (Hset i Hin). done.
    + rewrite (bool_decide_eq_false_2 _ Hin). apply orb_false_r.
  - rewrite !test_bit_ge; [done | lia | rewrite length_set_bits; lia].
Qed.

(** X1. A filter fresh from the constructor answers [False] to every
    [lookup]. *)
Theorem X1_fresh_lookup_false (hash : string -> Z -> Z) (c : Z) (p : R)
    (f : BloomFilter.t) (e : string) :
  BloomFilter.init c p = Ok f -> BloomFilter.lookup hash f e = Ok false.
Proof.
  intros Hi. destruct (bf_init_inv c p f Hi) as (Hwf & _ & _ & _ & Hbits).
  rewrite bf_lookup_ok by done.
  destruct (probes_nonempty hash (BloomFilter.size f) (BloomFilter.hash_count f) e
              (wf_hash_count_pos f Hwf)) as (q & qs & ->).
  simpl. by rewrite Hbits, test_bit_replicate_false.
Qed.

Lemma X1_fresh_lookup_false_witness :
  BloomFilter.init 1 (9 / 10) = Ok bf_1_09
  /\ BloomFilter.lookup sample_hash bf_1_09 "a" = Ok false.
Proof.
  split; [apply init_1_09 |].
  apply (X1_fresh_lookup_false sample_hash 1 (9 / 10) bf_1_09 "a" init_1_09).
Defined.

(** X2. The answer of [lookup] on a filter filled from scratch: [True]
    exactly when every bit the element probes is probed by some element that
    was added (so a false positive is an element whose probes are all
    covered by the added ones). *)
Theorem X2_lookup_characterised (hash : string -> Z -> Z) (c : Z) (p : R)
    (f0 f : BloomFilter.t) (l : list string) (e : string) :
  BloomFilter.init c p = Ok f0 -> BloomFilter.add_all hash f0 l = Ok f ->
  exists b,
    BloomFilter.lookup hash f e = Ok b
    /\ (b = true <->
        forall i,
          i ∈ probes hash (BloomFilter.size f) (BloomFilter.hash_count f) e ->
          exists x,
            x ∈ l
            /\ i ∈ probes hash (BloomFilter.size f) (BloomFilter.hash_count f) x).
Proof.
  intros Hi Ha.
  destruct (bf_from_scratch hash c p l f0 f Hi Ha) as (_ & Hwf & _ & _ & _ & Hbits).
  eexists. split; [by apply bf_lookup_ok |].
  assert (Hlt : forall i,
            i ∈ probes hash (BloomFilter.size f) (BloomFilter.hash_count f) e ->
            i < Z.to_nat (BloomFilter.size f)).
  { intros i Hin. apply (probes_lt hash _ _ e i (wf_size_pos f Hwf) Hin). }
  rewrite forallb_forall. split.
  - intros H i Hin. specialize (H i (proj1 (list_elem_of_In _ _) Hin)).
    rewrite Hbits, test_bit_set_zeros in H by (by apply Hlt).
    apply bool_decide_eq_true_1 in H. by apply probes_all_elem.
  - intros H i Hin. apply list_elem_of_In in Hin.
    rewrite Hbits, test_bit_set_zeros by (by apply Hlt).
    apply bool_decide_eq_true_2, probes_all_elem. by apply H.
Qed.

Lemma X2_lookup_characterised_witness :
  BloomFilter.init 1 (9 / 10) = Ok bf_1_09
  /\ BloomFilter.add_all sample_hash bf_1_09 ["a"] = Ok bf_1_09_full
  /\ exists b,
       BloomFilter.lookup sample_hash bf_1_09_full "b" = Ok b
       /\ (b = true <->
           forall i,
             i ∈ probes sample_hash (BloomFilter.size bf_1_09_full)
                   (BloomFilter.hash_count bf_1_09_full) "b" ->
             exists x,
               x ∈ ["a"]
               /\ i ∈ probes sample_hash (BloomFilter.size bf_1_09_full)
                         (BloomFilter.hash_count bf_1_09_full) x).
Proof.
  assert (Ha : BloomFilter.add_all sample_hash bf_1_09 ["a"] = Ok bf_1_09_full)
    by (cbn [BloomFilter.add_all]; by rewrite add_bf_1_09).
  split; [apply init_1_09 |]. split; [exact Ha |].
  apply (X2_lookup_characterised sample_hash 1 (9 / 10) bf_1_09 bf_1_09_full
           ["a"] "b" init_1_09 Ha).
Defined.

(** X3. The bits of a filter depend on the set of the elements added, not
    on their order or multiplicity: two sequences of [add] calls with the
    same elements leave the same bit array and the same [lookup] answers. *)
Theorem X3_add_order_irrelevant (hash : string -> Z -> Z) (f f1 f2 : BloomFilter.t)
    (l1 l2 : list string) :
  wf f ->
  BloomFilter.add_all hash f l1 = Ok f1 -> BloomFilter.add_all hash f l2 = Ok f2 ->
  (forall x, x ∈ l1 <-> x ∈ l2) ->
  BloomFilter.bit_array f1 = BloomFilter.bit_array f2
  /\ forall e, BloomFilter.lookup hash f1 e = BloomFilter.lookup hash f2 e.
Proof.
  intros Hwf H1 H2 Hl.
  rewrite bf_add_all_ok in H1 by done. injection H1 as <-.
  rewrite bf_add_all_ok in H2 by done. injection H2 as <-. simpl.
  assert (Hbits :
    set_bits (probes_all hash (BloomFilter.size f) (BloomFilter.hash_count f) l1)
      (BloomFilter.bit_array f)
    = set_bits (probes_all hash (BloomFilter.size f) (BloomFilter.hash_count f) l2)
        (BloomFilter.bit_array f)).
  { apply set_bits_ext. intros i. rewrite !probes_all_elem.
    split; intros (x & Hx & Hi); exists x; (split; [by apply Hl | done]). }
  split; [done |].
  intros e. rewrite !bf_lookup_ok by (by apply wf_set_bits). simpl.
  by rewrite Hbits.
Qed.

Lemma X3_add_order_irrelevant_witness :
  wf bf_1_09
  /\ (forall x : string, x ∈ ["a"; "b"] <-> x ∈ ["b"; "a"; "a"])
  /\ exists f1 f2,
       BloomFilter.add_all sample_hash bf_1_09 ["a"; "b"] = Ok f1
       /\ BloomFilter.add_all sample_hash bf_1_09 ["b"; "a"; "a"] = Ok f2
       /\ BloomFilter.bit_array f1 = BloomFilter.bit_array f2
       /\ forall e, BloomFilter.lookup sample_hash f1 e
                    = BloomFilter.lookup sample_hash f2 e.
Proof.
  assert (Hl : forall x : string, x ∈ ["a"; "b"] <-> x ∈ ["b"; "a"; "a"]).
  { intros x. rewrite !elem_of_cons, !elem_of_nil. tauto. }
  split; [apply wf_bf_1_09 |]. split; [exact Hl |].
  eexists _, _.
  split; [apply (bf_add_all_ok sample_hash bf_1_09 ["a"; "b"] wf_bf_1_09) |].
  split; [apply (bf_add_all_ok sample_hash bf_1_09 ["b"; "a"; "a"] wf_bf_1_09) |].
  apply (X3_add_order_irrelevant sample_hash bf_1_09 _ _ ["a"; "b"] ["b"; "a"; "a"]
           wf_bf_1_09
           (bf_add_all_ok sample_hash bf_1_09 ["a"; "b"] wf_bf_1_09)
           (bf_add_all_ok sample_hash bf_1_09 ["b"; "a"; "a"] wf_bf_1_09) Hl).
Defined.

(** X4. [add] of an element the filter already reports as present changes
    no bit: only [element_count] grows, so repeated adds are counted again
    although the set the filter represents is the same. *)
Theorem X4_add_present_keeps_bits (hash : string -> Z -> Z) (f : BloomFilter.t)
    (e : string) :
  wf f -> BloomFilter.lookup hash f e = Ok true ->
  exists f',
    BloomFilter.add hash f e = Ok f'
    /\ BloomFilter.bit_array f' = BloomFilter.bit_array f
    /\ BloomFilter.element_count f' = (BloomFilter.element_count f + 1)%Z.
Proof.
  intros Hwf Hl. eexists. split; [by apply bf_add_ok |]. simpl.
  split; [| done]. apply set_bits_id. by apply lookup_true_iff.
Qed.

Lemma lookup_bf_1_09_full (hash : string -> Z -> Z) (e : string) :
  BloomFilter.lookup hash bf_1_09_full e = Ok true.
Proof.
  apply lookup_true_iff; [apply wf_bf_1_09_full |]. simpl.
  intros p Hp. apply list_elem_of_fmap in Hp as (seed & -> & _).
  unfold probe. by rewrite Z.mod_1_r.
Qed.

Lemma X4_add_present_keeps_bits_witness :
  wf bf_1_09_full
  /\ BloomFilter.lookup sample_hash bf_1_09_full "a" = Ok true
  /\ exists f',
       BloomFilter.add sample_hash bf_1_09_full "a" = Ok f'
       /\ BloomFilter.bit_array f' = BloomFilter.bit_array bf_1_09_full
       /\ BloomFilter.element_count f'
          = (BloomFilter.element_count bf_1_09_full + 1)%Z.
Proof.
  assert (Hl : BloomFilter.lookup sample_hash bf_1_09_full "a" = Ok true)
    by apply lookup_bf_1_09_full.
  split; [apply wf_bf_1_09_full |]. split; [exact Hl |].
  apply (X4_add_present_keeps_bits sample_hash bf_1_09_full "a" wf_bf_1_09_full Hl).
Defined.

(** X5. [add] never turns a [True] answer into [False]: whatever [lookup]
    finds before a sequence of [add] calls it finds after it. *)
Theorem X5_lookup_monotone (hash : string -> Z -> Z) (f f' : BloomFilter.t)
    (l : list string) (x : string) :
  wf f -> BloomFilter.lookup hash f x = Ok true ->
  BloomFilter.add_all hash f l = Ok f' ->
  BloomFilter.lookup hash f' x = Ok true.
Proof.
  intros Hwf Hx Ha. rewrite bf_add_all_ok in Ha by done. injection Ha as <-.
  apply lookup_true_iff; [by apply wf_set_bits |]. simpl.
  intros p Hp. rewrite lookup_true_iff in Hx by done.
  rewrite test_bit_set_bits.
  - by rewrite (Hx p Hp).
  - rewrite (wf_bits f Hwf). apply (probes_lt hash _ _ x p (wf_size_pos f Hwf) Hp).
Qed.

Lemma X5_lookup_monotone_witness :
  wf bf_1_09_full
  /\ BloomFilter.lookup sample_hash bf_1_09_full "a" = Ok true
  /\ exists f',
       BloomFilter.add_all sample_hash bf_1_09_full ["b"; "c"] = Ok f'
       /\ BloomFilter.lookup sample_hash f' "a" = Ok true.
Proof.
  split; [apply wf_bf_1_09_full |]. split; [apply lookup_bf_1_09_full |].
  eexists.
  split; [apply (bf_add_all_ok sample_hash bf_1_09_full ["b"; "c"] wf_bf_1_09_full) |].
  apply (X5_lookup_monotone sample_hash bf_1_09_full _ ["b"; "c"] "a"
           wf_bf_1_09_full (lookup_bf_1_09_full sample_hash "a")
           (bf_add_all_ok sample_hash bf_1_09_full ["b"; "c"] wf_bf_1_09_full)).
Defined.

(** * Further properties of [union] and [intersection] *)

Lemma zip_with_bits_comm (op : bool -> bool -> bool) (a b : list bool) :
  (forall x y, op x y = op y x) -> op false false = false ->
  length a = length b -> zip_with op a b = zip_with op b a.
Proof.
  intros Hcomm Hop Hlen. apply bits_ext.
  - rewrite !length_zip_with. lia.
  - intros i. rewrite !test_bit_zip_with by done. apply Hcomm.
Qed.

Lemma zip_with_bits_idemp (op : bool -> bool -> bool) (a : list bool) :
  (forall x, op x x = x) -> zip_with op a a = a.
Proof.
  intros Hid. apply bits_ext.
  - rewrite length_zip_with. lia.
  - intros i. rewrite test_bit_zip_with by (done || apply Hid). apply Hid.
Qed.

Lemma compatible_sym (a b : BloomFilter.t) : compatible a b -> compatible b a.
Proof. intros [H1 H2]. by split. Qed.

(** X6. [union] is commutative on what [lookup] sees: for compatible
    filters [a.union(b)] and [b.union(a)] have the same bit array, the same
    [element_count] (the sum of the two) and the same [lookup] answers; they
    differ in [capacity] and [error_rate], taken from the receiver. *)
Theorem X6_union_commutes (hash : string -> Z -> Z) (a b : BloomFilter.t) :
  wf a -> wf b -> compatible a b ->
  exists u v,
    BloomFilter.union a b = Ok (Some u)
    /\ BloomFilter.union b a = Ok (Some v)
    /\ BloomFilter.bit_array u = BloomFilter.bit_array v
    /\ BloomFilter.element_count u
       = (BloomFilter.element_count a + BloomFilter.element_count b)%Z
    /\ BloomFilter.element_count v = BloomFilter.element_count u
    /\ BloomFilter.capacity u = BloomFilter.capacity a
    /\ BloomFilter.error_rate u = BloomFilter.error_rate a
    /\ BloomFilter.capacity v = BloomFilter.capacity b
    /\ BloomFilter.error_rate v = BloomFilter.error_rate b
    /\ forall e, BloomFilter.lookup hash u e = BloomFilter.lookup hash v e.
Proof.
  intros Ha Hb Hab. pose proof (compatible_sym a b Hab) as Hba.
  eexists _, _. split; [by apply bf_union_ok |]. split; [by apply bf_union_ok |].
  simpl.
  assert (Hlen : length (BloomFilter.bit_array a) = length (BloomFilter.bit_array b)).
  { rewrite (wf_bits a Ha), (wf_bits b Hb). by destruct Hab as [-> _]. }
  assert (Hbits : zip_with orb (BloomFilter.bit_array a) (BloomFilter.bit_array b)
                  = zip_with orb (BloomFilter.bit_array b) (BloomFilter.bit_array a))
    by (apply zip_with_bits_comm; [apply orb_comm | done | done]).
  split; [done |]. split; [done |]. split; [lia |].
  do 4 (split; [done |]).
  intros e. destruct (bitarray_binop_ok orb a b Ha Hb Hab) as [_ Hl1].
  destruct (bitarray_binop_ok orb b a Hb Ha Hba) as [_ Hl2].
  rewrite !bf_lookup_ok by (by apply wf_with_bits). simpl.
  destruct Hab as [-> ->]. by rewrite Hbits.
Qed.

Lemma X6_union_commutes_witness :
  wf bf_1_09 /\ wf bf_1_09_full /\ compatible bf_1_09 bf_1_09_full
  /\ exists u v,
       BloomFilter.union bf_1_09 bf_1_09_full = Ok (Some u)
       /\ BloomFilter.union bf_1_09_full bf_1_09 = Ok (Some v)
       /\ BloomFilter.bit_array u = BloomFilter.bit_array v
       /\ BloomFilter.element_count u = BloomFilter.element_count v.
Proof.
  split; [apply wf_bf_1_09 |]. split; [apply wf_bf_1_09_full |].
  split; [done |].
  destruct (X6_union_commutes sample_hash bf_1_09 bf_1_09_full
              wf_bf_1_09 wf_bf_1_09_full (conj eq_refl eq_refl))
    as (u & v & Hu & Hv & Hbits & _ & Hec & _).
  exists u, v. done.
Defined.

(** X7. [a.union(a)] answers every [lookup] as [a] does and has the bit
    array of [a], but twice its [element_count]: the count of a union is a
    sum, not a count of distinct elements. *)
Theorem X7_union_self (hash : string -> Z -> Z) (a : BloomFilter.t) :
  wf a ->
  exists u,
    BloomFilter.union a a = Ok (Some u)
    /\ BloomFilter.bit_array u = BloomFilter.bit_array a
    /\ BloomFilter.element_count u = (2 * BloomFilter.element_count a)%Z
    /\ forall e, BloomFilter.lookup hash u e = BloomFilter.lookup hash a e.
Proof.
  intros Ha. eexists. split; [by apply bf_union_ok |]. simpl.
  assert (Hbits : zip_with orb (BloomFilter.bit_array a) (BloomFilter.bit_array a)
                  = BloomFilter.bit_array a)
    by (apply zip_with_bits_idemp; intros []; done).
  split; [done |]. split; [lia |].
  intros e. rewrite !bf_lookup_ok; [| done | apply wf_with_bits; [done |]].
  - simpl. by rewrite Hbits.
  - rewrite Hbits. apply Ha.
Qed.

Lemma X7_union_self_witness :
  wf bf_1_09_full
  /\ exists u,
       BloomFilter.union bf_1_09_full bf_1_09_full = Ok (Some u)
       /\ BloomFilter.bit_array u = BloomFilter.bit_array bf_1_09_full
       /\ BloomFilter.element_count u = (2 * BloomFilter.element_count bf_1_09_full)%Z
       /\ forall e, BloomFilter.lookup sample_hash u e
                    = BloomFilter.lookup sample_hash bf_1_09_full e.
Proof.
  split; [apply wf_bf_1_09_full |].
  apply (X7_union_self sample_hash bf_1_09_full wf_bf_1_09_full).
Defined.

(** X8. On compatible filters [intersection] raises [ValueError] exactly
    when the bitwise AND of the two bit arrays has every bit set; in every
    other case it returns a filter with that AND as bit array and the
    capacity and error rate of the receiver. *)
Theorem X8_intersection_outcome (a b : BloomFilter.t) :
  wf a -> wf b -> compatible a b ->
  let bits := zip_with andb (BloomFilter.bit_array a) (BloomFilter.bit_array b) in
  (BloomFilter.intersection a b = Raise ValueError
   <-> bitarray_count bits = length bits)
  /\ (bitarray_count bits <> length bits ->
      exists i,
        BloomFilter.intersection a b = Ok (Some i)
        /\ BloomFilter.bit_array i = bits
        /\ BloomFilter.capacity i = BloomFilter.capacity a
        /\ BloomFilter.error_rate i = BloomFilter.error_rate a
        /\ BloomFilter.size i = BloomFilter.size a
        /\ BloomFilter.hash_count i = BloomFilter.hash_count a).
Proof.
  intros Ha Hb Hab bits.
  destruct (bitarray_binop_ok andb a b Ha Hb Hab) as [_ Hlen]. fold bits in Hlen.
  pose proof (bitarray_count_le bits) as Hle.
  assert (Hok : bitarray_count bits <> length bits ->
            exists i,
              BloomFilter.intersection a b = Ok (Some i)
              /\ BloomFilter.bit_array i = bits
              /\ BloomFilter.capacity i = BloomFilter.capacity a
              /\ BloomFilter.error_rate i = BloomFilter.error_rate a
              /\ BloomFilter.size i = BloomFilter.size a
              /\ BloomFilter.hash_count i = BloomFilter.hash_count a).
  { intros Hne. destruct (bf_intersection_ok a b Ha Hb Hab) as [n Hn].
    - fold bits. lia.
    - eexists. split; [exact Hn |]. done. }
  split; [| exact Hok]. split.
  - intros Hr. destruct (decide (bitarray_count bits = length bits)) as [| Hne];
      [done |].
    destruct (Hok Hne) as (i & Hi & _). by rewrite Hi in Hr.
  - intros Hsat. apply bf_intersection_saturated; try done. fold bits. lia.
Qed.

Lemma X8_intersection_outcome_witness :
  wf bf_1_05 /\ wf bf_1_05 /\ compatible bf_1_05 bf_1_05
  /\ (BloomFilter.intersection bf_1_05 bf_1_05 = Raise ValueError
      <-> bitarray_count
            (zip_with andb (BloomFilter.bit_array bf_1_05)
               (BloomFilter.bit_array bf_1_05))
          = length (zip_with andb (BloomFilter.bit_array bf_1_05)
                      (BloomFilter.bit_array bf_1_05)))
  /\ exists i,
       BloomFilter.intersection bf_1_05 bf_1_05 = Ok (Some i)
       /\ BloomFilter.bit_array i = [false; false].
Proof.
  split; [apply wf_bf_1_05 |]. split; [apply wf_bf_1_05 |]. split; [done |].
  destruct (X8_intersection_outcome bf_1_05 bf_1_05 wf_bf_1_05 wf_bf_1_05
              (conj eq_refl eq_refl)) as [Hiff Hok].
  split; [exact Hiff |].
  destruct Hok as (i & Hi & Hbits & _); [intros H; vm_compute in H; discriminate |].
  exists i. done.
Defined.

Lemma calc_element_count_ext (f g : BloomFilter.t) :
  BloomFilter.size f = BloomFilter.size g ->
  BloomFilter.hash_count f = BloomFilter.hash_count g ->
  BloomFilter.bit_array f = BloomFilter.bit_array g ->
  BloomFilter.calc_element_count f = BloomFilter.calc_element_count g.
Proof. intros H1 H2 H3. unfold BloomFilter.calc_element_count. by rewrite H1, H2, H3. Qed.

(** X9. Whenever [intersection] returns a filter, its [lookup] answers
    [True] exactly for the elements both operands answer [True] for, and
    swapping the operands gives a filter with the same bit array and the
    same estimated [element_count]. *)
Theorem X9_intersection_lookup (hash : string -> Z -> Z) (a b i : BloomFilter.t) :
  wf a -> wf b -> BloomFilter.intersection a b = Ok (Some i) ->
  (forall e,
      BloomFilter.lookup hash i e = Ok true
      <-> BloomFilter.lookup hash a e = Ok true
          /\ BloomFilter.lookup hash b e = Ok true)
  /\ exists j,
       BloomFilter.intersection b a = Ok (Some j)
       /\ BloomFilter.bit_array j = BloomFilter.bit_array i
       /\ BloomFilter.element_count j = BloomFilter.element_count i.
Proof.
  intros Ha Hb Hi.
  split; [intros e; by apply (bf_intersection_lookup hash a b i e) |].
  assert (Hab : compatible a b).
  { unfold BloomFilter.intersection in Hi. unfold compatible.
    destruct (BloomFilter.size a =? BloomFilter.size b)%Z eqn:E1; [| done].
    destruct (BloomFilter.hash_count a =? BloomFilter.hash_count b)%Z eqn:E2;
      [| done].
    lia. }
  assert (Hlen : length (BloomFilter.bit_array a) = length (BloomFilter.bit_array b)).
  { rewrite (wf_bits a Ha), (wf_bits b Hb). by destruct Hab as [-> _]. }
  assert (Hbits : zip_with andb (BloomFilter.bit_array b) (BloomFilter.bit_array a)
                  = zip_with andb (BloomFilter.bit_array a) (BloomFilter.bit_array b))
    by (apply zip_with_bits_comm; [apply andb_comm | done | done]).
  unfold BloomFilter.intersection in Hi |- *.
  destruct (compatible_tests a b Hab) as [E1 E2].
  destruct (compatible_tests b a (compatible_sym a b Hab)) as [E3 E4].
  rewrite E1, E2 in Hi. rewrite E3, E4.
  rewrite bf_init_of_wf in Hi by done. rewrite bf_init_of_wf by done.
  simpl in Hi. simpl.
  destruct (bitarray_binop_ok andb a b Ha Hb Hab) as [Hop1 _].
  destruct (bitarray_binop_ok andb b a Hb Ha (compatible_sym a b Hab)) as [Hop2 _].
  rewrite Hop1 in Hi. rewrite Hop2. simpl in Hi. simpl.
  apply bind_ok_inv in Hi as (n & Hn & Hi). injection Hi as <-.
  destruct Hab as [Hsz Hhc].
  rewrite (calc_element_count_ext _
             (BloomFilter.set_bit_array
                (BloomFilter.Build (BloomFilter.capacity a) 0
                   (BloomFilter.error_rate a) (BloomFilter.size a)
                   (BloomFilter.hash_count a)
                   (replicate (Z.to_nat (BloomFilter.size a)) false))
                (zip_with andb (BloomFilter.bit_array a) (BloomFilter.bit_array b))));
    simpl; try done.
  rewrite Hn. simpl. eexists. split; [done |]. simpl. done.
Qed.

Lemma X9_intersection_lookup_witness :
  wf bf_1_05 /\ wf bf_1_05
  /\ exists i,
       BloomFilter.intersection bf_1_05 bf_1_05 = Ok (Some i)
       /\ forall e,
            BloomFilter.lookup sample_hash i e = Ok true
            <-> BloomFilter.lookup sample_hash bf_1_05 e = Ok true
                /\ BloomFilter.lookup sample_hash bf_1_05 e = Ok true.
Proof.
  split; [apply wf_bf_1_05 |]. split; [apply wf_bf_1_05 |].
  destruct (bf_intersection_ok bf_1_05 bf_1_05 wf_bf_1_05 wf_bf_1_05
              (conj eq_refl eq_refl)) as [n Hn]; [vm_compute; lia |].
  eexists. split; [exact Hn |].
  apply (X9_intersection_lookup sample_hash bf_1_05 bf_1_05 _
           wf_bf_1_05 wf_bf_1_05 Hn).
Defined.

(** * The estimators *)

Lemma ln_le_minus_1 (y : R) : (0 < y)%R -> (ln y <= y - 1)%R.
Proof.
  intros Hy. pose proof (exp_ineq1_le (ln y)) as H.
  rewrite exp_ln in H by done. lra.
Qed.

(** X10. [calc_element_count] on a well-formed filter: a [ValueError] when
    every bit is set; otherwise a non-negative estimate that is 0 exactly
    when no bit is set and that, multiplied by [hash_count], is at least the
    number of set bits (each element sets at most [hash_count] bits). *)
Theorem X10_element_count_estimate (f : BloomFilter.t) :
  wf f ->
  let x := bitarray_count (BloomFilter.bit_array f) in
  (x = length (BloomFilter.bit_array f) ->
   BloomFilter.calc_element_count f = Raise ValueError)
  /\ (x < length (BloomFilter.bit_array f) ->
      exists n,
        BloomFilter.calc_element_count f = Ok n
        /\ (0 <= n)%Z
        /\ (n = 0%Z <-> x = 0)
        /\ (Z.of_nat x <= n * BloomFilter.hash_count f)%Z).
Proof.
  intros Hwf x.
  pose proof (wf_size_pos f Hwf) as Hpos.
  pose proof (wf_hash_count_pos f Hwf) as Hhc.
  pose proof (wf_bits f Hwf) as Hlen.
  assert (HmR : (0 < IZR (BloomFilter.size f))%R) by (by apply IZR_lt).
  assert (HkR : (1 <= IZR (BloomFilter.hash_count f))%R) by (by apply IZR_le).
  assert (Hlen' : INR (length (BloomFilter.bit_array f)) = IZR (BloomFilter.size f)).
  { rewrite Hlen, INR_IZR_INZ, Z2Nat.id by lia. done. }
  unfold BloomFilter.calc_element_count. fold x.
  rewrite py_fdiv_ok by lra. simpl.
  split.
  - intros Hsat. rewrite Hsat, Hlen'.
    rewrite py_log_domain; [done |].
    unfold Rdiv. rewrite Rinv_r by lra. lra.
  - intros Hlt.
    set (m := IZR (BloomFilter.size f)) in *.
    set (k := IZR (BloomFilter.hash_count f)) in *.
    assert (Hx0 : (0 <= INR x)%R) by apply pos_INR.
    assert (Hxm : (INR x < m)%R).
    { rewrite <- Hlen'. by apply lt_INR. }
    assert (Ht : (INR x / m * m = INR x)%R) by (field; lra).
    set (t := (INR x / m)%R) in *.
    assert (Ht1 : (0 <= t < 1)%R) by (split; nra).
    rewrite py_log_ok by lra. simpl. rewrite py_fdiv_ok by lra. simpl.
    pose proof (ln_le_minus_1 (1 - t)) as Hln.
    set (L := ln (1 - t)) in *.
    assert (Hrk : (- (m * L) / k * k = - (m * L))%R) by (field; lra).
    set (r := (- (m * L) / k)%R) in *.
    pose proof (Zceil_bound r) as [Hc1 Hc2].
    set (n := Zceil r) in *.
    assert (HL : (L <= - t)%R) by lra.
    assert (Hmx : (INR x <= - (m * L))%R) by nra.
    assert (Hr0 : (0 <= r)%R) by nra.
    assert (Hn0 : (0 <= n)%Z) by (apply le_IZR; lra).
    assert (Hnk : (Z.of_nat x <= n * BloomFilter.hash_count f)%Z).
    { apply le_IZR. rewrite mult_IZR, <- INR_IZR_INZ. fold k. nra. }
    exists n. split; [done |]. split; [done |]. split; [| done].
    split.
    + intros Hn. rewrite Hn in Hnk. lia.
    + intros Hx. unfold n. apply Zceil_eq.
      assert (Ht0 : t = 0%R) by (unfold t; rewrite Hx; simpl; lra).
      assert (HL0 : L = 0%R).
      { unfold L. rewrite Ht0. replace (1 - 0)%R with 1%R by lra. apply ln_1. }
      assert (Hr : r = 0%R) by nra.
      rewrite Hr. simpl. lra.
Qed.

Lemma X10_element_count_estimate_witness :
  wf bf_1_05
  /\ (bitarray_count (BloomFilter.bit_array bf_1_05)
      < length (BloomFilter.bit_array bf_1_05))
  /\ exists n,
       BloomFilter.calc_element_count bf_1_05 = Ok n
       /\ (0 <= n)%Z
       /\ (n = 0%Z <-> bitarray_count (BloomFilter.bit_array bf_1_05) = 0)
       /\ (Z.of_nat (bitarray_count (BloomFilter.bit_array bf_1_05))
           <= n * BloomFilter.hash_count bf_1_05)%Z.
Proof.
  assert (Hlt : bitarray_count (BloomFilter.bit_array bf_1_05)
                < length (BloomFilter.bit_array bf_1_05)) by (vm_compute; lia).
  split; [apply wf_bf_1_05 |]. split; [exact Hlt |].
  apply (proj2 (X10_element_count_estimate bf_1_05 wf_bf_1_05) Hlt).
Defined.

Section ErrorRate.

Local Open Scope R_scope.

Lemma py_pow_exp_0 (x y : R) : y = 0 -> py_pow x y = Ok 1.
Proof. intros ->. unfold py_pow. by destruct (Req_dec_T 0 0). Qed.

Lemma py_pow_pos (x y : R) : 0 < x -> y <> 0 -> py_pow x y = Ok (Rpower x y).
Proof.
  intros Hx Hy. unfold py_pow. destruct (Req_dec_T y 0); [done |].
  destruct (Rlt_dec 0 x); [done | lra].
Qed.

Lemma py_pow_base_0 (x y : R) : x = 0 -> 0 < y -> py_pow x y = Ok 0.
Proof.
  intros -> Hy. unfold py_pow. destruct (Req_dec_T y 0); [lra |].
  destruct (Rlt_dec 0 0); [lra |]. destruct (Req_dec_T 0 0); [| done].
  destruct (Rlt_dec y 0); [lra | done].
Qed.

Lemma Rpower_1_base (y : R) : Rpower 1 y = 1.
Proof. unfold Rpower. by rewrite ln_1, Rmult_0_r, exp_0. Qed.

Lemma Rpower_unit_interval (x y : R) : 0 < x < 1 -> 0 < y -> 0 < Rpower x y < 1.
Proof.
  intros Hx Hy. unfold Rpower. split; [apply exp_pos |].
  rewrite <- exp_0. apply exp_increasing.
  pose proof (ln_lt_0 x Hx). nra.
Qed.

Lemma Rpower_antitone_exp (x y z : R) :
  0 < x < 1 -> y <= z -> Rpower x z <= Rpower x y.
Proof.
  intros Hx Hyz. unfold Rpower. pose proof (ln_lt_0 x Hx) as Hl.
  destruct (Req_dec_T y z) as [-> | Hne]; [lra |].
  left. apply exp_increasing. nra.
Qed.

(** The value of the error-rate formula for a filter of [m] bits with [k]
    probes holding [n] elements. *)
Lemma rate_value (m k n : R) :
  1 <= m -> 1 <= k -> 0 <= n ->
  exists r,
    (let! q := py_fdiv 1 m in
     let! a := py_pow (1 - q) (k * n) in py_pow (1 - a) k) = Ok r
    /\ (n = 0 -> r = 0)
    /\ (0 < n -> m = 1 -> r = 1)
    /\ (0 < n -> 1 < m ->
        r = Rpower (1 - Rpower (1 - 1 / m) (k * n)) k /\ 0 < r < 1).
Proof.
  intros Hm Hk Hn. rewrite py_fdiv_ok by lra. simpl.
  destruct (Req_dec_T n 0) as [-> | Hn0].
  - rewrite py_pow_exp_0 by lra. simpl.
    rewrite py_pow_base_0 by lra. exists 0. repeat split; intros; lra.
  - assert (Hkn : 0 < k * n) by nra.
    destruct (Req_dec_T m 1) as [-> | Hm1].
    + rewrite (py_pow_base_0 (1 - 1 / 1)) by lra. simpl.
      rewrite py_pow_pos by lra. replace (1 - 0) with 1 by lra.
      rewrite Rpower_1_base. exists 1. repeat split; intros; lra.
    + assert (Hq : 0 < 1 / m < 1).
      { split; [apply Rdiv_lt_0_compat; lra |].
        apply Rmult_lt_reg_r with m; [lra |].
        unfold Rdiv. rewrite Rmult_assoc, Rinv_l by lra. lra. }
      rewrite py_pow_pos by lra. simpl.
      pose proof (Rpower_unit_interval (1 - 1 / m) (k * n)) as Ha.
      rewrite py_pow_pos by lra.
      eexists. split; [done |]. split; [lra |]. split; [lra |].
      intros _ _. split; [done |]. apply Rpower_unit_interval; lra.
Qed.

Lemma rate_monotone (m k n1 n2 r1 r2 : R) :
  1 <= m -> 1 <= k -> 0 <= n1 <= n2 ->
  (let! q := py_fdiv 1 m in
   let! a := py_pow (1 - q) (k * n1) in py_pow (1 - a) k) = Ok r1 ->
  (let! q := py_fdiv 1 m in
   let! a := py_pow (1 - q) (k * n2) in py_pow (1 - a) k) = Ok r2 ->
  r1 <= r2.
Proof.
  intros Hm Hk [Hn1 Hn12] H1 H2.
  destruct (rate_value m k n1 Hm Hk Hn1) as (r1' & E1 & Z1 & O1 & P1).
  destruct (rate_value m k n2 Hm Hk) as (r2' & E2 & Z2 & O2 & P2); [lra |].
  rewrite E1 in H1. injection H1 as ->. rewrite E2 in H2. injection H2 as ->.
  destruct (Req_dec_T n1 0) as [Hz | Hnz].
  - rewrite (Z1 Hz).
    destruct (Req_dec_T n2 0) as [Hz2 | Hnz2]; [rewrite (Z2 Hz2); lra |].
    destruct (Req_dec_T m 1) as [Hm1 | Hm1]; [rewrite O2; lra |].
    destruct P2 as [_ ?]; lra.
  - destruct (Req_dec_T m 1) as [Hm1 | Hm1]; [rewrite O1, O2; lra |].
    destruct P1 as [-> _]; [lra | lra |]. destruct P2 as [-> _]; [lra | lra |].
    assert (Hb : 0 < 1 - 1 / m < 1).
    { assert (0 < 1 / m < 1); [| lra].
      split; [apply Rdiv_lt_0_compat; lra |].
      apply Rmult_lt_reg_r with m; [lra |].
      unfold Rdiv. rewrite Rmult_assoc, Rinv_l by lra. lra. }
    pose proof (Rpower_antitone_exp (1 - 1 / m) (k * n1) (k * n2) Hb) as Ha.
    pose proof (Rpower_unit_interval (1 - 1 / m) (k * n1) Hb) as Hu1.
    pose proof (Rpower_unit_interval (1 - 1 / m) (k * n2) Hb) as Hu2.
    apply Rle_Rpower_l; [lra |]. split; [nra | nra].
Qed.

End ErrorRate.

Lemma wf_rate_args (f : BloomFilter.t) :
  wf f ->
  (1 <= IZR (BloomFilter.size f))%R /\ (1 <= IZR (BloomFilter.hash_count f))%R
  /\ (0 < IZR (BloomFilter.capacity f))%R.
Proof.
  intros Hwf. pose proof (wf_size_pos f Hwf). pose proof (wf_hash_count_pos f Hwf).
  pose proof (wf_capacity f Hwf).
  split; [apply IZR_le; lia |]. split; [by apply IZR_le | by apply IZR_lt].
Qed.

Lemma py_float_ok (n : Z) : in_float_range n -> py_float n = Ok (IZR n).
Proof.
  unfold in_float_range, py_float. intros H.
  destruct (Z.abs n <? float_max_int)%Z eqn:E; [done | lia].
Qed.

Lemma py_float_overflow (n : Z) :
  ~ in_float_range n -> py_float n = Raise OverflowError.
Proof.
  unfold in_float_range, py_float. intros H.
  destruct (Z.abs n <? float_max_int)%Z eqn:E; [lia | done].
Qed.

(** [calc_error_rate] once its conversions to float have succeeded. *)
Lemma calc_error_rate_in_range (f : BloomFilter.t) (use_capacity : bool) :
  fields_in_float_range f ->
  (use_capacity = false -> in_float_range (BloomFilter.element_count f)) ->
  BloomFilter.calc_error_rate f use_capacity
  = (let! q := py_fdiv 1 (IZR (BloomFilter.size f)) in
     let! a := py_pow (1 - q)
                 (IZR (BloomFilter.hash_count f)
                  * (if use_capacity then IZR (BloomFilter.capacity f)
                     else IZR (BloomFilter.element_count f))) in
     py_pow (1 - a) (IZR (BloomFilter.hash_count f))).
Proof.
  intros (Hc & Hs & Hh) He. unfold BloomFilter.calc_error_rate.
  rewrite (py_float_ok _ Hs), (py_float_ok _ Hh).
  destruct use_capacity.
  - by rewrite (py_float_ok _ Hc).
  - by rewrite (py_float_ok _ (He eq_refl)).
Qed.

(** X11. [calc_error_rate] on a well-formed filter with a non-negative
    element count returns a probability, a number between 0 and 1, which is
    0 for the current rate of a filter holding no element; the one way it
    fails is the [OverflowError] of [float(element_count)] for an element
    count beyond the range of doubles. *)
Theorem X11_error_rate_range (f : BloomFilter.t) (use_capacity : bool) :
  wf f -> (0 <= BloomFilter.element_count f)%Z -> fields_in_float_range f ->
  ((use_capacity = false -> in_float_range (BloomFilter.element_count f)) ->
   exists r,
     BloomFilter.calc_error_rate f use_capacity = Ok r
     /\ (0 <= r <= 1)%R
     /\ (use_capacity = false -> BloomFilter.element_count f = 0%Z -> r = 0%R))
  /\ (~ in_float_range (BloomFilter.element_count f) ->
      BloomFilter.calc_error_rate f false = Raise OverflowError).
Proof.
  intros Hwf Hec Hrange. split.
  - intros He. rewrite (calc_error_rate_in_range f use_capacity Hrange He).
    destruct (wf_rate_args f Hwf) as (Hm & Hk & Hc).
    set (n := if use_capacity then IZR (BloomFilter.capacity f)
              else IZR (BloomFilter.element_count f)).
    assert (Hn : (0 <= n)%R).
    { unfold n. destruct use_capacity; [lra | by apply IZR_le]. }
    destruct (rate_value _ _ n Hm Hk Hn) as (r & Hr & Hz & Ho & Hp).
    exists r. split; [exact Hr |].
    assert (Hcases : (n = 0 \/ 0 < n)%R) by lra.
    assert (Hsz : (IZR (BloomFilter.size f) = 1 \/ 1 < IZR (BloomFilter.size f))%R)
      by lra.
    split.
    + destruct Hcases as [H0 | Hpos]; [rewrite (Hz H0); lra |].
      destruct Hsz as [H1 | H1]; [rewrite (Ho Hpos H1); lra |].
      destruct (Hp Hpos H1) as [_ ?]. lra.
    + intros -> Hz0. apply Hz. unfold n. by rewrite Hz0.
  - intros Hout. unfold BloomFilter.calc_error_rate.
    by rewrite (py_float_overflow _ Hout).
Qed.

Lemma X11_error_rate_range_witness :
  wf bf_1_05 /\ (0 <= BloomFilter.element_count bf_1_05)%Z
  /\ fields_in_float_range bf_1_05
  /\ in_float_range (BloomFilter.element_count bf_1_05)
  /\ (exists r,
        BloomFilter.calc_error_rate bf_1_05 false = Ok r
        /\ (0 <= r <= 1)%R
        /\ (false = false -> BloomFilter.element_count bf_1_05 = 0%Z -> r = 0%R))
  /\ BloomFilter.calc_error_rate
       (BloomFilter.set_element_count bf_1_05 (2 ^ 1024)) false
     = Raise OverflowError.
Proof.
  assert (Hec : (0 <= BloomFilter.element_count bf_1_05)%Z) by (simpl; lia).
  assert (Hr : fields_in_float_range bf_1_05).
  { unfold fields_in_float_range, in_float_range. vm_compute. done. }
  assert (He : in_float_range (BloomFilter.element_count bf_1_05)).
  { unfold in_float_range. vm_compute. done. }
  split; [apply wf_bf_1_05 |]. split; [exact Hec |]. split; [exact Hr |].
  split; [exact He |]. split.
  - apply (proj1 (X11_error_rate_range bf_1_05 false wf_bf_1_05 Hec Hr)).
    intros _. exact He.
  - assert (Hwf : wf (BloomFilter.set_element_count bf_1_05 (2 ^ 1024))).
    { destruct wf_bf_1_05 as [H1 H2 H3 H4 H5 H6]. by constructor. }
    apply (proj2 (X11_error_rate_range _ true Hwf ltac:(simpl; lia) Hr)).
    unfold in_float_range. vm_compute. intros H. discriminate H.
Defined.

(** X12. Load and error rate, while the element count stays within the
    range of doubles: each [add] leaves the rate estimated at capacity as it
    is and does not lower the current rate; the current rate is at most the
    rate at capacity while [element_count <= capacity] and at least that
    rate once [element_count >= capacity]. *)
Theorem X12_error_rate_grows (hash : string -> Z -> Z) (f : BloomFilter.t)
    (e : string) :
  wf f -> (0 <= BloomFilter.element_count f)%Z -> fields_in_float_range f ->
  in_float_range (BloomFilter.element_count f + 1) ->
  exists f' r r' rc,
    BloomFilter.add hash f e = Ok f'
    /\ BloomFilter.calc_error_rate f false = Ok r
    /\ BloomFilter.calc_error_rate f' false = Ok r'
    /\ BloomFilter.calc_error_rate f true = Ok rc
    /\ BloomFilter.calc_error_rate f' true = Ok rc
    /\ (r <= r')%R
    /\ ((BloomFilter.element_count f <= BloomFilter.capacity f)%Z -> (r <= rc)%R)
    /\ ((BloomFilter.capacity f <= BloomFilter.element_count f)%Z -> (rc <= r)%R).
Proof.
  intros Hwf Hec Hrange Hec1. destruct (wf_rate_args f Hwf) as (Hm & Hk & Hc).
  assert (Hec0 : in_float_range (BloomFilter.element_count f)).
  { unfold in_float_range in *. lia. }
  assert (HecR : (0 <= IZR (BloomFilter.element_count f))%R) by (by apply IZR_le).
  assert (HecR' : (0 <= IZR (BloomFilter.element_count f + 1))%R)
    by (apply IZR_le; lia).
  destruct (rate_value _ _ _ Hm Hk HecR) as (r & Hr & _).
  destruct (rate_value _ _ _ Hm Hk HecR') as (r' & Hr' & _).
  destruct (rate_value _ _ (IZR (BloomFilter.capacity f)) Hm Hk) as (rc & Hrc & _);
    [lra |].
  eexists _, r, r', rc. split; [by apply bf_add_ok |].
  split; [by rewrite calc_error_rate_in_range |].
  split; [by rewrite calc_error_rate_in_range |].
  split; [by rewrite calc_error_rate_in_range |].
  split; [by rewrite calc_error_rate_in_range |].
  split; [| split].
  - refine (rate_monotone _ _ _ _ r r' Hm Hk _ Hr Hr').
    split; [done |]. apply IZR_le. lia.
  - intros Hle. refine (rate_monotone _ _ _ _ r rc Hm Hk _ Hr Hrc).
    split; [done | by apply IZR_le].
  - intros Hle. refine (rate_monotone _ _ _ _ rc r Hm Hk _ Hrc Hr).
    split; [lra | by apply IZR_le].
Qed.

Lemma X12_error_rate_grows_witness :
  wf bf_1_05 /\ (0 <= BloomFilter.element_count bf_1_05)%Z
  /\ fields_in_float_range bf_1_05
  /\ in_float_range (BloomFilter.element_count bf_1_05 + 1)
  /\ exists f' r r' rc,
       BloomFilter.add sample_hash bf_1_05 "a" = Ok f'
       /\ BloomFilter.calc_error_rate bf_1_05 false = Ok r
       /\ BloomFilter.calc_error_rate f' false = Ok r'
       /\ BloomFilter.calc_error_rate bf_1_05 true = Ok rc
       /\ (r <= r')%R /\ (r <= rc)%R.
Proof.
  assert (Hec : (0 <= BloomFilter.element_count bf_1_05)%Z) by (simpl; lia).
  assert (Hr : fields_in_float_range bf_1_05).
  { unfold fields_in_float_range, in_float_range. vm_compute. done. }
  assert (He : in_float_range (BloomFilter.element_count bf_1_05 + 1)).
  { unfold in_float_range. vm_compute. done. }
  split; [apply wf_bf_1_05 |]. split; [exact Hec |]. split; [exact Hr |].
  split; [exact He |].
  destruct (X12_error_rate_grows sample_hash bf_1_05 "a" wf_bf_1_05 Hec Hr He)
    as (f' & r & r' & rc & Ha & Hr0 & Hr' & Hrc & _ & Hle & Hcap & _).
  exists f', r, r', rc. do 4 (split; [done |]). split; [done |].
  apply Hcap. simpl. lia.
Defined.

(** * Further properties of the scalable filter *)

Lemma slookup_loop_spec (hash : string -> Z -> Z)
    (fs : list ScalableBloomFilter.ref) (e : string)
    (h : ScalableBloomFilter.store) :
  (forall l, l ∈ fs -> exists f, h !! l = Some f /\ wf f) ->
  exists b,
    ScalableBloomFilter.lookup_loop hash fs e h = Ok b
    /\ (b = true <->
        exists l f, l ∈ fs /\ h !! l = Some f
                    /\ BloomFilter.lookup hash f e = Ok true).
Proof.
  induction fs as [| l fs IH]; intros Hrefs; simpl.
  - exists false. split; [done |]. split; [done |].
    intros (l & f & Hl & _). by apply elem_of_nil in Hl.
  - destruct (Hrefs l) as (f & Hf & Hwf); [constructor |].
    rewrite (deref_ok h l f Hf). simpl.
    rewrite (bf_lookup_ok hash f e Hwf). simpl.
    destruct (forallb _ _) eqn:Eb.
    + exists true. split; [done |]. split; [| done]. intros _.
      exists l, f. split; [constructor |]. split; [done |].
      rewrite (bf_lookup_ok hash f e Hwf). by rewrite Eb.
    + destruct IH as (b & Hb & Hiff).
      { intros l' Hl'. apply Hrefs. by constructor. }
      exists b. split; [done |]. rewrite Hiff. split.
      * intros (l' & f' & Hl' & Hf' & Hlk). exists l', f'.
        split; [by constructor | done].
      * intros (l' & f' & Hl' & Hf' & Hlk).
        apply elem_of_cons in Hl' as [-> | Hl']; [| by eauto].
        rewrite Hf in Hf'. injection Hf' as <-.
        rewrite (bf_lookup_ok hash f e Hwf), Eb in Hlk. done.
Qed.

Lemma slookup_spec (hash : string -> Z -> Z)
    (s : ScalableBloomFilter.t) (e : string) (h : ScalableBloomFilter.store) :
  sbf_ok s h ->
  exists b,
    ScalableBloomFilter.lookup hash s e h = Ok b
    /\ (b = true <->
        exists l f,
          l ∈ ScalableBloomFilter.filters s /\ h !! l = Some f
          /\ BloomFilter.lookup hash f e = Ok true).
Proof.
  intros Hok.
  destruct (slookup_loop_spec hash (reverse (ScalableBloomFilter.filters s)) e h)
    as (b & Hb & Hiff).
  { intros l Hl. apply (ok_refs s h Hok). by apply elem_of_reverse. }
  exists b. split; [done |]. rewrite Hiff.
  split; intros (l & f & Hl & Hf); exists l, f; (split; [| done]);
    by apply elem_of_reverse.
Qed.

(** X13. [ScalableBloomFilter.lookup] is the disjunction of the member
    filters: it returns, and it answers [True] exactly when the [lookup] of
    some filter of the list does (the newest-first order of the probes does
    not matter). *)
Theorem X13_scalable_lookup_is_or (hash : string -> Z -> Z)
    (s : ScalableBloomFilter.t) (e : string) (h : ScalableBloomFilter.store) :
  sbf_ok s h ->
  exists b,
    ScalableBloomFilter.lookup hash s e h = Ok b
    /\ (b = true <->
        exists l f,
          l ∈ ScalableBloomFilter.filters s /\ h !! l = Some f
          /\ BloomFilter.lookup hash f e = Ok true).
Proof. apply slookup_spec. Qed.

Lemma sample_sbf :
  exists s h,
    ScalableBloomFilter.init 1 (9 / 10) 2 1 ∅ = Ok (s, h) /\ sbf_ok s h.
Proof.
  destruct (sbf_init_ok 1 (9 / 10) 2 1 ∅) as (f & _ & _ & _ & _ & Hi & Hok);
    [lia | lra | lra | by left |].
  eauto.
Qed.

Lemma X13_scalable_lookup_is_or_witness :
  exists s h,
    ScalableBloomFilter.init 1 (9 / 10) 2 1 ∅ = Ok (s, h)
    /\ sbf_ok s h
    /\ exists b,
         ScalableBloomFilter.lookup sample_hash s "a" h = Ok b
         /\ (b = true <->
             exists l f,
               l ∈ ScalableBloomFilter.filters s /\ h !! l = Some f
               /\ BloomFilter.lookup sample_hash f "a" = Ok true).
Proof.
  destruct sample_sbf as (s & h & Hi & Hok).
  exists s, h. split; [done |]. split; [done |].
  apply (X13_scalable_lookup_is_or sample_hash s "a" h Hok).
Defined.

Lemma store_grows_refl (h : ScalableBloomFilter.store) : store_grows h h.
Proof. intros l f Hf Hwf. exists f. do 4 (split; [done |]). auto. Qed.

Lemma store_grows_trans (h1 h2 h3 : ScalableBloomFilter.store) :
  store_grows h1 h2 -> store_grows h2 h3 -> store_grows h1 h3.
Proof.
  intros H12 H23 l f Hf Hwf.
  destruct (H12 l f Hf Hwf) as (f2 & Hf2 & Hwf2 & Hs2 & Hh2 & Hb2).
  destruct (H23 l f2 Hf2 Hwf2) as (f3 & Hf3 & Hwf3 & Hs3 & Hh3 & Hb3).
  exists f3. split; [done |]. split; [done |].
  split; [congruence |]. split; [congruence |]. auto.
Qed.

Lemma store_grows_fresh (h : ScalableBloomFilter.store) (g : BloomFilter.t) :
  store_grows h (<[fresh (dom h) := g]> h).
Proof.
  intros l f Hf Hwf. exists f. rewrite lookup_insert_ne.
  - do 4 (split; [done |]). auto.
  - intros <-. by rewrite fresh_not_in_store in Hf.
Qed.

Lemma store_grows_add (hash : string -> Z -> Z) (h : ScalableBloomFilter.store)
    (l : ScalableBloomFilter.ref) (f f' : BloomFilter.t) (e : string) :
  h !! l = Some f -> wf f -> BloomFilter.add hash f e = Ok f' ->
  store_grows h (<[l := f']> h).
Proof.
  intros Hf Hwf Ha l0 f0 Hf0 Hwf0.
  destruct (decide (l0 = l)) as [Heq | Hne].
  - subst l0. assert (Hff : Some f0 = Some f) by (rewrite <- Hf0; exact Hf).
    injection Hff as ->.
    rewrite bf_add_ok in Ha by done. injection Ha as <-.
    eexists. rewrite lookup_insert_eq. split; [done |].
    split; [by apply wf_set_bits |]. split; [done |]. split; [done |].
    simpl. intros p Hp.
    destruct (decide (p < length (BloomFilter.bit_array f))) as [Hlt | Hge].
    + rewrite test_bit_set_bits by done. by rewrite Hp.
    + rewrite test_bit_ge in Hp by lia. done.
  - exists f0. rewrite lookup_insert_ne by done. do 4 (split; [done |]). auto.
Qed.

(** After [add], [lookup] finds the element. *)
Lemma bf_add_then_lookup (hash : string -> Z -> Z) (f : BloomFilter.t)
    (e : string) :
  wf f ->
  exists f', BloomFilter.add hash f e = Ok f'
             /\ BloomFilter.lookup hash f' e = Ok true.
Proof.
  intros Hwf. eexists. split; [by apply bf_add_ok |].
  apply lookup_true_iff; [by apply wf_set_bits |]. simpl.
  intros p Hp. rewrite test_bit_set_bits.
  - rewrite (bool_decide_eq_true_2 _ Hp). apply orb_true_r.
  - rewrite (wf_bits f Hwf). apply (probes_lt hash _ _ e p (wf_size_pos f Hwf) Hp).
Qed.

(** One [add] on a scalable filter in a good state: what it keeps and where
    the element went. *)
Lemma sadd_step (hash : string -> Z -> Z) (s s' : ScalableBloomFilter.t)
    (e : string) (h h' : ScalableBloomFilter.store) :
  sbf_ok s h -> ScalableBloomFilter.add hash s e h = Ok (s', h') ->
  sbf_ok s' h' /\ store_grows h h' /\ same_config s s'
  /\ ScalableBloomFilter.filters s `prefix_of` ScalableBloomFilter.filters s'
  /\ ScalableBloomFilter.element_count s'
     = (ScalableBloomFilter.element_count s + 1)%Z
  /\ exists l f',
       ScalableBloomFilter.last_filter (ScalableBloomFilter.filters s') = Ok l
       /\ h' !! l = Some f'
       /\ BloomFilter.lookup hash f' e = Ok true.
Proof.
  intros Hok Hadd.
  destruct (last_filter_ok _ (ok_nonempty s h Hok)) as (l & Hlast & Hl).
  destruct (ok_refs s h Hok l Hl) as (f & Hf & Hwf).
  destruct (BloomFilter.is_full f) eqn:Hfull.
  - destruct (decide (0 < ScalableBloomFilter.calc_next_capacity s)%Z) as [Hc | Hc];
      [| rewrite (sadd_full_rejected hash s e h l f Hlast Hf Hfull) in Hadd by lia;
         done].
    destruct (sadd_full hash s e h l f Hok Hlast Hf Hfull Hc)
      as (nf & nf' & Hnf & Hnf' & Hwf' & _ & _ & Heq & Hok').
    rewrite Heq in Hadd. injection Hadd as <- <-.
    destruct (bf_init_inv _ _ _ Hnf) as (Hwfn & _).
    split; [done |]. split.
    { eapply store_grows_trans; [apply store_grows_fresh |].
      apply (store_grows_add hash _ _ nf nf' e);
        [apply lookup_insert_eq | done | done]. }
    split; [done |]. split; [by apply prefix_app_r |]. split; [done |].
    exists (fresh (dom h)), nf'. simpl. split; [apply last_filter_snoc |].
    rewrite lookup_insert_eq. split; [done |].
    destruct (bf_add_then_lookup hash nf e Hwfn) as (g & Hg & Hlk).
    rewrite Hg in Hnf'. by injection Hnf' as <-.
  - destruct (sadd_not_full hash s e h l f Hok Hlast Hf Hfull)
      as (f' & Hf' & Hwf' & _ & _ & Heq & Hok').
    rewrite Heq in Hadd. injection Hadd as <- <-.
    split; [done |]. split; [by apply (store_grows_add hash h l f f' e) |].
    split; [done |]. split; [done |]. split; [done |].
    exists l, f'. simpl. split; [done |]. rewrite lookup_insert_eq.
    split; [done |].
    destruct (bf_add_then_lookup hash f e Hwf) as (g & Hg & Hlk).
    rewrite Hg in Hf'. by injection Hf' as <-.
Qed.

Lemma sadd_all_step (hash : string -> Z -> Z) (es : list string)
    (s s' : ScalableBloomFilter.t) (h h' : ScalableBloomFilter.store) :
  sbf_ok s h -> ScalableBloomFilter.add_all hash s es h = Ok (s', h') ->
  sbf_ok s' h' /\ store_grows h h' /\ same_config s s'
  /\ ScalableBloomFilter.filters s `prefix_of` ScalableBloomFilter.filters s'
  /\ ScalableBloomFilter.element_count s'
     = (ScalableBloomFilter.element_count s + Z.of_nat (length es))%Z.
Proof.
  revert s h. induction es as [| e es IH]; intros s h Hok Hall; simpl in Hall.
  - injection Hall as <- <-. split; [done |]. split; [apply store_grows_refl |].
    split; [by unfold same_config |]. split; [done |]. simpl. lia.
  - apply bind_ok_inv in Hall as ([s1 h1] & Hadd & Hall).
    destruct (sadd_step hash s s1 e h h1 Hok Hadd)
      as (Hok1 & Hg1 & Hc1 & Hp1 & He1 & _).
    destruct (IH s1 h1 Hok1 Hall) as (Hok' & Hg' & Hc' & Hp' & He').
    split; [done |]. split; [by eapply store_grows_trans |].
    split.
    { destruct Hc1 as (A1 & A2 & A3 & A4). destruct Hc' as (B1 & B2 & B3 & B4).
      unfold same_config. repeat split; congruence. }
    split; [by etrans |]. simpl length. lia.
Qed.

(** With a scale factor of at least 1 the next capacity is at least the
    initial capacity. *)
Lemma calc_next_capacity_ge (s : ScalableBloomFilter.t)
    (h : ScalableBloomFilter.store) :
  sbf_ok s h -> (1 <= ScalableBloomFilter.scale_factor s)%R ->
  (ScalableBloomFilter.initial_capacity s
   <= ScalableBloomFilter.calc_next_capacity s)%Z.
Proof.
  intros Hok Hsf. pose proof (ok_capacity s h Hok) as Hic.
  assert (HicR : (1 <= IZR (ScalableBloomFilter.initial_capacity s))%R)
    by (apply IZR_le; lia).
  assert (Hlen : (1 <= INR (length (ScalableBloomFilter.filters s)))%R).
  { pose proof (ok_nonempty s h Hok) as Hne.
    destruct (ScalableBloomFilter.filters s) as [| x xs]; [done |].
    rewrite length_cons, S_INR. pose proof (pos_INR (length xs)). lra. }
  unfold ScalableBloomFilter.calc_next_capacity.
  destruct (ScalableBloomFilter.scale_mode s =? _)%Z.
  - set (x := (ScalableBloomFilter.scale_factor s
                * INR (length (ScalableBloomFilter.filters s)))%R).
    assert (Hx : (1 <= x)%R) by (unfold x; nra).
    rewrite py_int_floor by nra. apply Zfloor_lub. nra.
  - pose proof (pow_R1_Rle (ScalableBloomFilter.scale_factor s)
                  (length (ScalableBloomFilter.filters s)) Hsf) as Hpow.
    set (x := (ScalableBloomFilter.scale_factor s
                ^ length (ScalableBloomFilter.filters s))%R) in *.
    rewrite py_int_floor by nra. apply Zfloor_lub. nra.
Qed.

Lemma sadd_all_total (hash : string -> Z -> Z) (es : list string)
    (s : ScalableBloomFilter.t) (h : ScalableBloomFilter.store) :
  sbf_ok s h -> (1 <= ScalableBloomFilter.scale_factor s)%R ->
  exists s' h', ScalableBloomFilter.add_all hash s es h = Ok (s', h').
Proof.
  revert s h. induction es as [| e es IH]; intros s h Hok Hsf; simpl; [eauto |].
  destruct (sadd_total hash s e h Hok) as [(s1 & h1 & Hadd & Hok1) | Hr].
  - rewrite Hadd. simpl. apply IH; [done |].
    destruct (sadd_step hash s s1 e h h1 Hok Hadd) as (_ & _ & (_ & _ & -> & _) & _).
    done.
  - exfalso.
    destruct (last_filter_ok _ (ok_nonempty s h Hok)) as (l & Hlast & Hl).
    destruct (ok_refs s h Hok l Hl) as (f & Hf & Hwf).
    pose proof (calc_next_capacity_ge s h Hok Hsf) as Hge.
    pose proof (ok_capacity s h Hok) as Hic.
    destruct (BloomFilter.is_full f) eqn:Hfull.
    + destruct (sadd_full hash s e h l f Hok Hlast Hf Hfull)
        as (? & ? & _ & _ & _ & _ & _ & Heq & _); [lia |].
      by rewrite Heq in Hr.
    + destruct (sadd_not_full hash s e h l f Hok Hlast Hf Hfull)
        as (? & _ & _ & _ & _ & Heq & _).
      by rewrite Heq in Hr.
Qed.

(** X14. No false negatives for the scalable filter: after a successful
    [add(e)], [lookup(e)] answers [True], and it still does after any
    further successful sequence of [add] calls, through every growth step. *)
Theorem X14_scalable_no_false_negatives (hash : string -> Z -> Z)
    (s s1 s2 : ScalableBloomFilter.t) (h h1 h2 : ScalableBloomFilter.store)
    (e : string) (es : list string) :
  sbf_ok s h ->
  ScalableBloomFilter.add hash s e h = Ok (s1, h1) ->
  ScalableBloomFilter.add_all hash s1 es h1 = Ok (s2, h2) ->
  ScalableBloomFilter.lookup hash s1 e h1 = Ok true
  /\ ScalableBloomFilter.lookup hash s2 e h2 = Ok true.
Proof.
  intros Hok Hadd Hall.
  destruct (sadd_step hash s s1 e h h1 Hok Hadd)
    as (Hok1 & _ & _ & _ & _ & (l & f1 & Hlast & Hf1 & Hlk1)).
  destruct (sadd_all_step hash es s1 s2 h1 h2 Hok1 Hall)
    as (Hok2 & Hg & _ & Hpre & _).
  apply last_filter_inv in Hlast as [fs Hfs].
  assert (Hl1 : l ∈ ScalableBloomFilter.filters s1).
  { rewrite Hfs. apply elem_of_app. right. constructor. }
  destruct (ok_refs s1 h1 Hok1 l Hl1) as (f1' & Hf1' & Hwf1).
  assert (Hff : Some f1' = Some f1) by (rewrite <- Hf1'; exact Hf1).
  injection Hff as ->.
  split.
  - destruct (slookup_spec hash s1 e h1 Hok1) as (b & Hb & Hiff).
    rewrite Hb. f_equal. apply Hiff. eauto.
  - destruct (Hg l f1 Hf1 Hwf1) as (f2 & Hf2 & Hwf2 & Hsz & Hhc & Hbits).
    destruct (slookup_spec hash s2 e h2 Hok2) as (b & Hb & Hiff).
    rewrite Hb. f_equal. apply Hiff. exists l, f2.
    split.
    { destruct Hpre as [k ->]. apply elem_of_app. by left. }
    split; [done |].
    apply lookup_true_iff; [done |]. rewrite Hsz, Hhc.
    intros p Hp. apply Hbits. by apply (lookup_true_iff hash f1 e Hwf1).
Qed.

Lemma X14_scalable_no_false_negatives_witness :
  exists s h s1 h1 s2 h2,
    sbf_ok s h
    /\ ScalableBloomFilter.add sample_hash s "a" h = Ok (s1, h1)
    /\ ScalableBloomFilter.add_all sample_hash s1 ["b"; "c"; "d"] h1 = Ok (s2, h2)
    /\ ScalableBloomFilter.lookup sample_hash s1 "a" h1 = Ok true
    /\ ScalableBloomFilter.lookup sample_hash s2 "a" h2 = Ok true.
Proof.
  destruct (sbf_init_ok 1 (9 / 10) 2 1 ∅) as (f & _ & _ & _ & _ & _ & Hok);
    [lia | lra | lra | by left |].
  set (s := ScalableBloomFilter.Build 1 0 (9 / 10) 2 1
              [fresh (dom (∅ : ScalableBloomFilter.store))]) in *.
  set (h := <[fresh (dom (∅ : ScalableBloomFilter.store)) := f]>
              (∅ : ScalableBloomFilter.store)) in *.
  assert (Hsf : (1 <= ScalableBloomFilter.scale_factor s)%R) by (simpl; lra).
  destruct (sadd_all_total sample_hash ["a"; "b"; "c"; "d"] s h Hok Hsf)
    as (s2 & h2 & Hall).
  simpl in Hall. apply bind_ok_inv in Hall as ([s1 h1] & Hadd & Hall).
  exists s, h, s1, h1, s2, h2. split; [done |]. split; [done |].
  split; [exact Hall |].
  apply (X14_scalable_no_false_negatives sample_hash s s1 s2 h h1 h2 "a"
           ["b"; "c"; "d"] Hok Hadd Hall).
Defined.

(** X15. With a scale factor of at least 1 the growth policy never asks
    for a filter the constructor rejects: no sequence of [add] calls on a
    scalable filter raises [ValueError], and when the calls have returned,
    each element is counted and the configuration is as it was. *)
Theorem X15_add_never_rejected_when_growing (hash : string -> Z -> Z)
    (es : list string) (s : ScalableBloomFilter.t)
    (h : ScalableBloomFilter.store) :
  sbf_ok s h -> (1 <= ScalableBloomFilter.scale_factor s)%R ->
  ScalableBloomFilter.add_all hash s es h <> Raise ValueError
  /\ forall s' h',
       ScalableBloomFilter.add_all hash s es h = Ok (s', h') ->
       sbf_ok s' h' /\ same_config s s'
       /\ ScalableBloomFilter.element_count s'
          = (ScalableBloomFilter.element_count s + Z.of_nat (length es))%Z.
Proof.
  intros Hok Hsf. split.
  - destruct (sadd_all_total hash es s h Hok Hsf) as (s' & h' & Hall).
    by rewrite Hall.
  - intros s' h' Hall.
    destruct (sadd_all_step hash es s s' h h' Hok Hall) as (Hok' & _ & Hc & _ & He).
    done.
Qed.

Lemma X15_add_never_rejected_when_growing_witness :
  exists s h s' h',
    ScalableBloomFilter.init 1 (9 / 10) 2 1 ∅ = Ok (s, h)
    /\ sbf_ok s h /\ (1 <= ScalableBloomFilter.scale_factor s)%R
    /\ ScalableBloomFilter.add_all sample_hash s ["a"; "b"; "c"] h = Ok (s', h')
    /\ ScalableBloomFilter.add_all sample_hash s ["a"; "b"; "c"] h
       <> Raise ValueError
    /\ sbf_ok s' h' /\ same_config s s'
    /\ ScalableBloomFilter.element_count s'
       = (ScalableBloomFilter.element_count s
          + Z.of_nat (length ["a"; "b"; "c"]))%Z.
Proof.
  destruct (sbf_init_ok 1 (9 / 10) 2 1 ∅) as (f & _ & _ & _ & _ & Hi & Hok);
    [lia | lra | lra | by left |].
  assert (Hsf : (1 <= 2)%R) by lra.
  destruct (sadd_all_total sample_hash ["a"; "b"; "c"] _ _ Hok Hsf)
    as (s' & h' & Hall).
  eexists _, _, s', h'. split; [exact Hi |]. split; [exact Hok |].
  split; [exact Hsf |]. split; [exact Hall |].
  destruct (X15_add_never_rejected_when_growing sample_hash ["a"; "b"; "c"] _ _
              Hok Hsf) as [Hne Hpost].
  split; [exact Hne |]. exact (Hpost s' h' Hall).
Defined.

(** A fresh scalable filter takes up to [initial_capacity] elements in its
    seeded filter. *)
Lemma fresh_fill (hash : string -> Z -> Z) (ic : Z) (p sf : R) (sm : Z)
    (h0 : ScalableBloomFilter.store) (es : list string) :
  (0 < ic)%Z -> (0 < p < 1)%R -> (0 < sf)%R -> sm = 1%Z \/ sm = 2%Z ->
  length es <= Z.to_nat ic ->
  exists s0 h1 s h l f,
    ScalableBloomFilter.init ic p sf sm h0 = Ok (s0, h1)
    /\ ScalableBloomFilter.add_all hash s0 es h1 = Ok (s, h)
    /\ sbf_ok s h
    /\ ScalableBloomFilter.initial_capacity s = ic
    /\ ScalableBloomFilter.scale_factor s = sf
    /\ ScalableBloomFilter.scale_mode s = sm
    /\ ScalableBloomFilter.filters s = [l]
    /\ h !! l = Some f
    /\ BloomFilter.capacity f = ic
    /\ BloomFilter.element_count f = Z.of_nat (length es).
Proof.
  intros Hic Hp Hsf Hsm Hlen.
  destruct (sbf_init_ok ic p sf sm h0 Hic Hp Hsf Hsm)
    as (f0 & Hf0 & Hwf0 & Hcap0 & Hec0 & Hinit & Hok0).
  destruct (sadd_all_fill hash es _ _ (fresh (dom h0)) f0 Hok0
              (last_filter_snoc [] _) (lookup_insert_eq _ _ _))
    as (s & h & f & Hall & Hok & (C1 & C2 & C3 & C4) & Hfs & _ & Hf & Hc & He);
    [lia |].
  eexists _, _, s, h, (fresh (dom h0)), f.
  split; [exact Hinit |]. split; [exact Hall |]. split; [done |].
  split; [done |]. split; [done |]. split; [done |]. split; [done |].
  split; [done |]. split; [congruence | lia].
Qed.

(** The constructor of the scalable filter returns on valid arguments
    only. *)
Lemma sbf_init_valid (ic : Z) (p sf : R) (sm : Z)
    (h0 h1 : ScalableBloomFilter.store) (s0 : ScalableBloomFilter.t) :
  ScalableBloomFilter.init ic p sf sm h0 = Ok (s0, h1) ->
  (0 < ic)%Z /\ (0 < p < 1)%R /\ (0 < sf)%R /\ (sm = 1%Z \/ sm = 2%Z).
Proof.
  intros Hinit.
  destruct (decide (0 < ic)%Z);
    [| rewrite sbf_init_raises in Hinit by (left; lia); done].
  destruct (Rlt_dec 0 p);
    [| rewrite sbf_init_raises in Hinit by (right; left; lra); done].
  destruct (Rlt_dec p 1);
    [| rewrite sbf_init_raises in Hinit by (right; left; lra); done].
  destruct (Rlt_dec 0 sf);
    [| rewrite sbf_init_raises in Hinit by (right; right; left; lra); done].
  destruct (decide (sm = 1%Z)); [tauto |].
  destruct (decide (sm = 2%Z)); [tauto |].
  rewrite sbf_init_raises in Hinit by (right; right; right; done). done.
Qed.

(** X16. A scale factor below 1 can stop the growth: when
    [initial_capacity * scale_factor] is at most 1/2, once a fresh scalable
    filter has taken [initial_capacity] elements every further [add] raises
    [ValueError] (the next capacity truncates to 0, whatever the rounding of
    the product, and the constructor of the new filter rejects it). *)
Theorem X16_add_raises_when_shrinking (hash : string -> Z -> Z) (ic : Z)
    (p sf : R) (sm : Z) (h0 h1 h : ScalableBloomFilter.store)
    (s0 s : ScalableBloomFilter.t) (es : list string) :
  ScalableBloomFilter.init ic p sf sm h0 = Ok (s0, h1) ->
  (IZR ic * sf <= 1 / 2)%R -> length es = Z.to_nat ic ->
  ScalableBloomFilter.add_all hash s0 es h1 = Ok (s, h) ->
  forall e, ScalableBloomFilter.add hash s e h = Raise ValueError.
Proof.
  intros Hinit Hlt Hlen Hall.
  destruct (sbf_init_valid ic p sf sm h0 h1 s0 Hinit) as (Hic & Hp & Hsf & Hsm).
  destruct (fresh_fill hash ic p sf sm h0 es Hic Hp Hsf Hsm)
    as (s0' & h1' & s' & h' & l & f & Hinit' & Hall' & Hok & Eic & Esf & Esm & Hfs
        & Hf & Hc & He); [lia |].
  rewrite Hinit in Hinit'. injection Hinit' as <- <-.
  rewrite Hall in Hall'. injection Hall' as <- <-.
  intros e.
  apply (sadd_full_rejected hash s e h l f).
  - rewrite Hfs. apply (last_filter_snoc [] l).
  - done.
  - apply is_full_true_iff. lia.
  - assert (HicR : (0 < IZR ic)%R) by (by apply IZR_lt).
    unfold ScalableBloomFilter.calc_next_capacity.
    rewrite Eic, Esf, Hfs. simpl length.
    assert (Hz : forall x : R, (0 <= x < 1)%R -> (py_int x <= 0)%Z).
    { intros x Hx. rewrite py_int_floor by lra.
      rewrite (Zfloor_eq 0 x); [lia | simpl; lra]. }
    destruct (ScalableBloomFilter.scale_mode s =? _)%Z; apply Hz; simpl; nra.
Qed.

Lemma X16_add_raises_when_shrinking_witness :
  exists s0 h1 s h,
    ScalableBloomFilter.init 1 (9 / 10) (1 / 2) 1 ∅ = Ok (s0, h1)
    /\ (IZR 1 * (1 / 2) <= 1 / 2)%R /\ length ["a"] = Z.to_nat 1
    /\ ScalableBloomFilter.add_all sample_hash s0 ["a"] h1 = Ok (s, h)
    /\ forall e, ScalableBloomFilter.add sample_hash s e h = Raise ValueError.
Proof.
  destruct (fresh_fill sample_hash 1 (9 / 10) (1 / 2) 1 ∅ ["a"])
    as (s0 & h1 & s & h & _ & _ & Hinit & Hall & _);
    [lia | lra | lra | by left | simpl; lia |].
  assert (H4 : (IZR 1 * (1 / 2) <= 1 / 2)%R) by lra.
  exists s0, h1, s, h. split; [exact Hinit |]. split; [exact H4 |].
  split; [reflexivity |]. split; [exact Hall |].
  apply (X16_add_raises_when_shrinking sample_hash 1 (9 / 10) (1 / 2) 1 ∅ h1 h
           s0 s ["a"] Hinit H4 eq_refl Hall).
Defined.

Lemma sbf_ok_store_mono (s : ScalableBloomFilter.t)
    (h h' : ScalableBloomFilter.store) :
  sbf_ok s h -> (forall l f, h !! l = Some f -> h' !! l = Some f) -> sbf_ok s h'.
Proof.
  intros [H1 H2 H3 Hm H4 H5] Hext. constructor; try done.
  intros l Hl. destruct (H5 l Hl) as (f & Hf & Hwf). eauto.
Qed.

(** [union] on good states, with the store it leaves. *)
Lemma sunion_store (s b : ScalableBloomFilter.t) (h : ScalableBloomFilter.store) :
  sbf_ok s h -> sbf_ok b h ->
  exists r h',
    ScalableBloomFilter.union s b h = Ok (r, h')
    /\ sbf_ok r h' /\ same_config s r
    /\ ScalableBloomFilter.filters r
       = ScalableBloomFilter.filters s ++ ScalableBloomFilter.filters b
    /\ ScalableBloomFilter.element_count r
       = (ScalableBloomFilter.element_count s + ScalableBloomFilter.element_count b)%Z
    /\ forall l f, h !! l = Some f -> h' !! l = Some f.
Proof.
  intros Hs Hb.
  destruct (sbf_init_ok _ _ _ _ h (ok_capacity s h Hs) (ok_error_rate s h Hs)
              (ok_scale_factor s h Hs) (ok_scale_mode s h Hs))
    as (f & _ & _ & _ & _ & Hi & _).
  destruct (sunion_ok s b h Hs Hb) as (r & h' & Hun & Hokr & Hfs & Hec).
  exists r, h'. split; [done |]. split; [done |].
  unfold ScalableBloomFilter.union in Hun. rewrite Hi in Hun. simpl in Hun.
  injection Hun as <- <-.
  split; [by unfold same_config |]. split; [done |]. split; [done |].
  intros l g Hl. rewrite lookup_insert_ne; [done |].
  intros <-. by rewrite fresh_not_in_store in Hl.
Qed.

Lemma slookup_store_mono (hash : string -> Z -> Z) (s : ScalableBloomFilter.t)
    (e : string) (h h' : ScalableBloomFilter.store) :
  sbf_ok s h -> (forall l f, h !! l = Some f -> h' !! l = Some f) ->
  ScalableBloomFilter.lookup hash s e h' = ScalableBloomFilter.lookup hash s e h.
Proof.
  intros Hok Hext. pose proof (sbf_ok_store_mono s h h' Hok Hext) as Hok'.
  destruct (slookup_spec hash s e h Hok) as (b & Hb & Hiff).
  destruct (slookup_spec hash s e h' Hok') as (b' & Hb' & Hiff').
  rewrite Hb, Hb'. f_equal.
  apply eq_true_iff_eq. rewrite Hiff, Hiff'. split.
  - intros (l & f & Hl & Hf & Hlk).
    destruct (ok_refs s h Hok l Hl) as (g & Hg & _).
    assert (Hgf : Some g = Some f) by (rewrite <- (Hext l g Hg); exact Hf).
    injection Hgf as ->. eauto.
  - intros (l & f & Hl & Hf & Hlk). exists l, f. eauto.
Qed.

(** X17. [ScalableBloomFilter.union] is exact for [lookup]: the result
    answers [True] exactly when one of the operands does (the disjunction of
    the two answers), its [element_count] is the sum of theirs, it has the
    configuration of the receiver, and the operands answer after the union
    as they did before. *)
Theorem X17_scalable_union_lookup (hash : string -> Z -> Z)
    (s b : ScalableBloomFilter.t) (h : ScalableBloomFilter.store) :
  sbf_ok s h -> sbf_ok b h ->
  exists r h',
    ScalableBloomFilter.union s b h = Ok (r, h')
    /\ same_config s r
    /\ ScalableBloomFilter.element_count r
       = (ScalableBloomFilter.element_count s + ScalableBloomFilter.element_count b)%Z
    /\ forall e,
         exists bs bb,
           ScalableBloomFilter.lookup hash s e h = Ok bs
           /\ ScalableBloomFilter.lookup hash b e h = Ok bb
           /\ ScalableBloomFilter.lookup hash r e h' = Ok (bs || bb)
           /\ ScalableBloomFilter.lookup hash s e h' = Ok bs
           /\ ScalableBloomFilter.lookup hash b e h' = Ok bb.
Proof.
  intros Hs Hb.
  destruct (sunion_store s b h Hs Hb) as (r & h' & Hun & Hokr & Hcfg & Hfs & Hec & Hext).
  exists r, h'. split; [done |]. split; [done |]. split; [done |].
  intros e.
  destruct (slookup_spec hash s e h Hs) as (bs & Hbs & Is).
  destruct (slookup_spec hash b e h Hb) as (bb & Hbb & Ib).
  destruct (slookup_spec hash r e h' Hokr) as (br & Hbr & Ir).
  exists bs, bb. split; [done |]. split; [done |].
  split; [| split].
  - rewrite Hbr. f_equal. apply eq_true_iff_eq.
    rewrite orb_true_iff, Ir, Is, Ib, Hfs. split.
    + intros (l & f & Hl & Hf & Hlk). apply elem_of_app in Hl as [Hl | Hl].
      * left. destruct (ok_refs s h Hs l Hl) as (g & Hg & _).
        assert (Hgf : Some g = Some f) by (rewrite <- (Hext l g Hg); exact Hf).
        injection Hgf as ->. eauto.
      * right. destruct (ok_refs b h Hb l Hl) as (g & Hg & _).
        assert (Hgf : Some g = Some f) by (rewrite <- (Hext l g Hg); exact Hf).
        injection Hgf as ->. eauto.
    + intros [(l & f & Hl & Hf & Hlk) | (l & f & Hl & Hf & Hlk)];
        exists l, f; (split; [apply elem_of_app; tauto |]); eauto.
  - by rewrite (slookup_store_mono hash s e h h' Hs Hext).
  - by rewrite (slookup_store_mono hash b e h h' Hb Hext).
Qed.

Lemma X17_scalable_union_lookup_witness :
  exists s h,
    sbf_ok s h /\ sbf_ok s h
    /\ exists r h',
         ScalableBloomFilter.union s s h = Ok (r, h')
         /\ ScalableBloomFilter.element_count r
            = (ScalableBloomFilter.element_count s
               + ScalableBloomFilter.element_count s)%Z
         /\ exists bs bb,
              ScalableBloomFilter.lookup sample_hash s "a" h = Ok bs
              /\ ScalableBloomFilter.lookup sample_hash s "a" h = Ok bb
              /\ ScalableBloomFilter.lookup sample_hash r "a" h' = Ok (bs || bb).
Proof.
  destruct sample_sbf as (s & h & _ & Hok).
  exists s, h. split; [done |]. split; [done |].
  destruct (X17_scalable_union_lookup sample_hash s s h Hok Hok)
    as (r & h' & Hun & _ & Hec & Hlk).
  exists r, h'. split; [done |]. split; [done |].
  destruct (Hlk "a") as (bs & bb & H1 & H2 & H3 & _).
  exists bs, bb. done.
Defined.

(** X18. The union result shares the filters of its operands: when the
    newest filter of the second operand is not full, an element added to
    the union result lands in that same filter, so the second operand finds
    it afterwards although nothing was added to it. *)
Theorem X18_union_shares_filters (hash : string -> Z -> Z)
    (s b : ScalableBloomFilter.t) (h : ScalableBloomFilter.store)
    (l : ScalableBloomFilter.ref) (f : BloomFilter.t) (e : string) :
  sbf_ok s h -> sbf_ok b h ->
  ScalableBloomFilter.last_filter (ScalableBloomFilter.filters b) = Ok l ->
  h !! l = Some f -> BloomFilter.is_full f = false ->
  exists r h1 r' h2,
    ScalableBloomFilter.union s b h = Ok (r, h1)
    /\ ScalableBloomFilter.add hash r e h1 = Ok (r', h2)
    /\ ScalableBloomFilter.filters r' = ScalableBloomFilter.filters r
    /\ ScalableBloomFilter.lookup hash b e h2 = Ok true.
Proof.
  intros Hs Hb Hlast Hf Hnf.
  destruct (sunion_store s b h Hs Hb) as (r & h1 & Hun & Hokr & _ & Hfs & _ & Hext).
  pose proof (last_filter_inv _ _ Hlast) as [fb Hfb].
  assert (Hlast_r : ScalableBloomFilter.last_filter (ScalableBloomFilter.filters r)
                    = Ok l).
  { rewrite Hfs, Hfb, app_assoc. apply last_filter_snoc. }
  destruct (sadd_not_full hash r e h1 l f Hokr Hlast_r (Hext l f Hf) Hnf)
    as (f' & Hf' & Hwf' & _ & _ & Hadd & Hokr').
  exists r, h1. eexists _, _. split; [done |]. split; [exact Hadd |].
  split; [done |].
  pose proof (sbf_ok_last b h l f Hb Hlast Hf) as Hwf.
  destruct (bf_add_then_lookup hash f e Hwf) as (g & Hg & Hlk).
  assert (Hgf : Ok g = Ok f') by (rewrite <- Hg; exact Hf').
  injection Hgf as ->.
  unfold ScalableBloomFilter.lookup. rewrite Hfb, reverse_snoc. simpl.
  unfold ScalableBloomFilter.deref. rewrite lookup_insert_eq. simpl.
  by rewrite Hlk.
Qed.

Lemma X18_union_shares_filters_witness :
  exists s h l f,
    sbf_ok s h
    /\ ScalableBloomFilter.last_filter (ScalableBloomFilter.filters s) = Ok l
    /\ h !! l = Some f /\ BloomFilter.is_full f = false
    /\ exists r h1 r' h2,
         ScalableBloomFilter.union s s h = Ok (r, h1)
         /\ ScalableBloomFilter.add sample_hash r "a" h1 = Ok (r', h2)
         /\ ScalableBloomFilter.filters r' = ScalableBloomFilter.filters r
         /\ ScalableBloomFilter.lookup sample_hash s "a" h2 = Ok true.
Proof.
  destruct (sbf_init_ok 1 (9 / 10) 2 1 ∅) as (f & _ & _ & Hc & He & _ & Hok);
    [lia | lra | lra | by left |].
  assert (Hnf : BloomFilter.is_full f = false) by (apply is_full_false_iff; lia).
  eexists _, _, _, f. split; [exact Hok |].
  split; [apply (last_filter_snoc [] _) |].
  split; [apply lookup_insert_eq |]. split; [exact Hnf |].
  apply (X18_union_shares_filters sample_hash _ _ _ _ f "a" Hok Hok
           (last_filter_snoc [] _) (lookup_insert_eq _ _ _) Hnf).
Defined.

(** ** The fill state of a scalable filter *)

Lemma count_at_insert_eq (h : ScalableBloomFilter.store) (l : ScalableBloomFilter.ref)
    (f : BloomFilter.t) :
  count_at (<[l := f]> h) l = BloomFilter.element_count f.
Proof. unfold count_at. by rewrite lookup_insert_eq. Qed.

Lemma count_at_insert_ne (h : ScalableBloomFilter.store) (l l' : ScalableBloomFilter.ref)
    (f : BloomFilter.t) :
  l <> l' -> count_at (<[l := f]> h) l' = count_at h l'.
Proof. intros Hne. unfold count_at. by rewrite lookup_insert_ne. Qed.

Lemma total_count_insert_notin (h : ScalableBloomFilter.store) (l : ScalableBloomFilter.ref)
    (f : BloomFilter.t) (fs : list ScalableBloomFilter.ref) :
  l ∉ fs -> total_count (<[l := f]> h) fs = total_count h fs.
Proof.
  induction fs as [| x fs IH]; intros Hl; simpl; [done |].
  apply not_elem_of_cons in Hl as [Hne Hl].
  by rewrite count_at_insert_ne, IH.
Qed.

Lemma total_count_snoc (h : ScalableBloomFilter.store) (fs : list ScalableBloomFilter.ref)
    (l : ScalableBloomFilter.ref) :
  total_count h (fs ++ [l]) = (total_count h fs + count_at h l)%Z.
Proof. induction fs as [| x fs IH]; simpl; [lia |]. rewrite IH. lia. Qed.

Lemma nodup_snoc_notin (fs : list ScalableBloomFilter.ref) (l : ScalableBloomFilter.ref) :
  NoDup (fs ++ [l]) -> l ∉ fs.
Proof.
  intros Hnd Hin. apply NoDup_app in Hnd as (_ & Hdisj & _).
  apply (Hdisj l Hin). constructor.
Qed.

(** One [add] keeps the fill state. *)
Lemma sadd_filled (hash : string -> Z -> Z) (s s' : ScalableBloomFilter.t)
    (e : string) (h h' : ScalableBloomFilter.store) :
  sbf_ok s h -> sbf_filled s h ->
  ScalableBloomFilter.add hash s e h = Ok (s', h') -> sbf_filled s' h'.
Proof.
  intros Hok [Hnd Hbound Holder Htotal] Hadd.
  destruct (last_filter_ok _ (ok_nonempty s h Hok)) as (l & Hlast & Hl).
  destruct (ok_refs s h Hok l Hl) as (f & Hf & Hwf).
  destruct (last_filter_inv _ _ Hlast) as [fs0 Hfs].
  assert (Hnotin : l ∉ fs0) by (apply nodup_snoc_notin; rewrite Hfs in Hnd; exact Hnd).
  destruct (Hbound l Hl) as (f_ & Hf_ & Hb).
  assert (Hff : Some f_ = Some f) by (rewrite <- Hf_; exact Hf).
  injection Hff as ->.
  destruct (BloomFilter.is_full f) eqn:Hfull.
  - destruct (decide (0 < ScalableBloomFilter.calc_next_capacity s)%Z) as [Hc | Hc];
      [| rewrite (sadd_full_rejected hash s e h l f Hlast Hf Hfull) in Hadd by lia;
         done].
    destruct (sadd_full hash s e h l f Hok Hlast Hf Hfull Hc)
      as (nf & nf' & _ & _ & _ & Hcap & Hec & Heq & _).
    rewrite Heq in Hadd. injection Hadd as <- <-.
    set (l' := fresh (dom h)) in *.
    assert (Hfresh : forall x, x ∈ ScalableBloomFilter.filters s -> l' <> x).
    { intros x Hx <-. destruct (Hbound l' Hx) as (g & Hg & _).
      unfold l' in Hg. by rewrite fresh_not_in_store in Hg. }
    assert (Hkeep : forall x g, x ∈ ScalableBloomFilter.filters s ->
              h !! x = Some g ->
              <[l' := nf']> (<[l' := nf]> h) !! x = Some g).
    { intros x g Hx Hg. rewrite !lookup_insert_ne by (by apply Hfresh). done. }
    apply is_full_true_iff in Hfull.
    constructor; simpl.
    + apply NoDup_app. split; [done |]. split; [| apply NoDup_singleton].
      intros x Hx Hx'. apply list_elem_of_singleton in Hx'.
      by apply (Hfresh x Hx).
    + intros x Hx. apply elem_of_app in Hx as [Hx | Hx].
      * destruct (Hbound x Hx) as (g & Hg & Hgb). exists g. eauto.
      * apply list_elem_of_singleton in Hx as ->.
        exists nf'. rewrite lookup_insert_eq. split; [done | lia].
    + intros fs1 l1 x Happ Hx. apply app_inj_tail in Happ as [<- <-].
      rewrite Hfs in Hx. apply elem_of_app in Hx as [Hx | Hx].
      * destruct (Holder fs0 l x Hfs Hx) as (g & Hg & Hge).
        exists g. split; [| done]. apply Hkeep; [| done].
        rewrite Hfs. apply elem_of_app. by left.
      * apply list_elem_of_singleton in Hx as ->.
        exists f. split; [by apply Hkeep | lia].
    + rewrite total_count_snoc, count_at_insert_eq.
      rewrite !total_count_insert_notin.
      * lia.
      * intros Hin. by apply (Hfresh l' Hin).
      * intros Hin. by apply (Hfresh l' Hin).
  - destruct (sadd_not_full hash s e h l f Hok Hlast Hf Hfull)
      as (f' & _ & _ & Hcap & Hec & Heq & _).
    rewrite Heq in Hadd. injection Hadd as <- <-.
    apply is_full_false_iff in Hfull.
    constructor; simpl.
    + done.
    + intros x Hx. destruct (decide (x = l)) as [-> | Hne].
      * exists f'. rewrite lookup_insert_eq. split; [done | lia].
      * rewrite lookup_insert_ne by done. by apply Hbound.
    + intros fs1 l1 x Happ Hx. rewrite Hfs in Happ.
      apply app_inj_tail in Happ as [<- <-].
      rewrite lookup_insert_ne by (intros <-; done).
      by apply (Holder fs0 l x Hfs Hx).
    + rewrite Hfs, total_count_snoc, count_at_insert_eq.
      rewrite total_count_insert_notin by done.
      rewrite Hfs, total_count_snoc in Htotal.
      unfold count_at in Htotal. assert (Hfl : h !! l = Some f) by exact Hf.
      rewrite Hfl in Htotal. lia.
Qed.

Lemma sadd_all_filled (hash : string -> Z -> Z) (es : list string)
    (s s' : ScalableBloomFilter.t) (h h' : ScalableBloomFilter.store) :
  sbf_ok s h -> sbf_filled s h ->
  ScalableBloomFilter.add_all hash s es h = Ok (s', h') -> sbf_filled s' h'.
Proof.
  revert s h. induction es as [| e es IH]; intros s h Hok Hfill Hall;
    simpl in Hall.
  - by injection Hall as <- <-.
  - apply bind_ok_inv in Hall as ([s1 h1] & Hadd & Hall).
    destruct (sadd_step hash s s1 e h h1 Hok Hadd) as (Hok1 & _).
    apply (IH s1 h1 Hok1); [| done].
    by apply (sadd_filled hash s s1 e h h1).
Qed.

(** What the constructor of the scalable filter returned is a good state in
    its fill state. *)
Lemma sbf_init_good (ic : Z) (p sf : R) (sm : Z)
    (h0 h1 : ScalableBloomFilter.store) (s0 : ScalableBloomFilter.t) :
  ScalableBloomFilter.init ic p sf sm h0 = Ok (s0, h1) ->
  sbf_ok s0 h1 /\ sbf_filled s0 h1 /\ ScalableBloomFilter.element_count s0 = 0%Z.
Proof.
  intros Hinit.
  assert (Hvalid : (0 < ic)%Z /\ (0 < p < 1)%R /\ (0 < sf)%R
                   /\ (sm = 1%Z \/ sm = 2%Z)).
  { destruct (decide (0 < ic)%Z);
      [| rewrite sbf_init_raises in Hinit by (left; lia); done].
    destruct (Rlt_dec 0 p);
      [| rewrite sbf_init_raises in Hinit by (right; left; lra); done].
    destruct (Rlt_dec p 1);
      [| rewrite sbf_init_raises in Hinit by (right; left; lra); done].
    destruct (Rlt_dec 0 sf);
      [| rewrite sbf_init_raises in Hinit by (right; right; left; lra); done].
    destruct (decide (sm = 1%Z)); [tauto |].
    destruct (decide (sm = 2%Z)); [tauto |].
    rewrite sbf_init_raises in Hinit by (right; right; right; done). done. }
  destruct Hvalid as (Hic & Hp & Hsf & Hsm).
  destruct (sbf_init_ok ic p sf sm h0 Hic Hp Hsf Hsm)
    as (f0 & _ & _ & Hcap & Hec & Heq & Hok).
  rewrite Heq in Hinit. injection Hinit as <- <-.
  split; [done |]. split; [| done].
  constructor; simpl.
  - apply NoDup_singleton.
  - intros l Hl. apply list_elem_of_singleton in Hl as ->.
    exists f0. rewrite lookup_insert_eq. split; [done | lia].
  - intros fs l l' Happ Hl'. apply (app_inj_tail [] fs) in Happ as [<- _].
    by apply elem_of_nil in Hl'.
  - rewrite count_at_insert_eq. lia.
Qed.

(** X19. The fill state the growth policy keeps.  In a scalable filter
    built by its constructor and [add] calls alone, the filters are distinct
    objects, none holds more elements than its capacity, every filter but
    the newest holds exactly its capacity, and the element counts of the
    filters add up to the element count of the scalable filter, which is the
    number of [add] calls. *)
Theorem X19_growth_keeps_filters_within_capacity (hash : string -> Z -> Z)
    (ic : Z) (p sf : R) (sm : Z) (h0 h1 h : ScalableBloomFilter.store)
    (s0 s : ScalableBloomFilter.t) (es : list string) :
  ScalableBloomFilter.init ic p sf sm h0 = Ok (s0, h1) ->
  ScalableBloomFilter.add_all hash s0 es h1 = Ok (s, h) ->
  NoDup (ScalableBloomFilter.filters s)
  /\ (forall l, l ∈ ScalableBloomFilter.filters s ->
        exists f, h !! l = Some f
          /\ (0 <= BloomFilter.element_count f <= BloomFilter.capacity f)%Z)
  /\ (forall fs l l', ScalableBloomFilter.filters s = fs ++ [l] -> l' ∈ fs ->
        exists f, h !! l' = Some f
          /\ BloomFilter.element_count f = BloomFilter.capacity f)
  /\ total_count h (ScalableBloomFilter.filters s)
     = ScalableBloomFilter.element_count s
  /\ ScalableBloomFilter.element_count s = Z.of_nat (length es).
Proof.
  intros Hinit Hall.
  destruct (sbf_init_good ic p sf sm h0 h1 s0 Hinit) as (Hok & Hfill & Hec).
  destruct (sadd_all_filled hash es s0 s h1 h Hok Hfill Hall) as [H1 H2 H3 H4].
  destruct (sadd_all_step hash es s0 s h1 h Hok Hall) as (_ & _ & _ & _ & He).
  split; [done |]. split; [done |]. split; [done |]. split; [done |]. lia.
Qed.

Lemma X19_growth_keeps_filters_within_capacity_witness :
  exists s0 h1 s h,
    ScalableBloomFilter.init 1 (9 / 10) 2 1 ∅ = Ok (s0, h1)
    /\ ScalableBloomFilter.add_all sample_hash s0 ["a"; "b"; "c"; "d"] h1 = Ok (s, h)
    /\ NoDup (ScalableBloomFilter.filters s)
    /\ (forall l, l ∈ ScalableBloomFilter.filters s ->
          exists f, h !! l = Some f
            /\ (0 <= BloomFilter.element_count f <= BloomFilter.capacity f)%Z)
    /\ (forall fs l l', ScalableBloomFilter.filters s = fs ++ [l] -> l' ∈ fs ->
          exists f, h !! l' = Some f
            /\ BloomFilter.element_count f = BloomFilter.capacity f)
    /\ total_count h (ScalableBloomFilter.filters s)
       = ScalableBloomFilter.element_count s
    /\ ScalableBloomFilter.element_count s
       = Z.of_nat (length ["a"; "b"; "c"; "d"]).
Proof.
  destruct (sbf_init_ok 1 (9 / 10) 2 1 ∅) as (f & _ & _ & _ & _ & Hi & Hok);
    [lia | lra | lra | by left |].
  assert (Hsf : (1 <= 2)%R) by lra.
  destruct (sadd_all_total sample_hash ["a"; "b"; "c"; "d"] _ _ Hok Hsf)
    as (s & h & Hall).
  eexists _, _, s, h. split; [exact Hi |]. split; [exact Hall |].
  apply (X19_growth_keeps_filters_within_capacity sample_hash 1 (9 / 10) 2 1
           ∅ _ h _ s ["a"; "b"; "c"; "d"] Hi Hall).
Defined.

(** X20. With a scale factor of at least 1 the capacities the growth policy
    hands out do not shrink: the next capacity is at least the initial
    capacity and does not decrease as the number of filters grows, in both
    modes.  The initial capacity is taken at most [2^53], so that its
    conversion to float is exact, and the products far below the largest
    double, so that no step overflows. *)
Theorem X20_next_capacity_monotone (s s' : ScalableBloomFilter.t)
    (h h' : ScalableBloomFilter.store) :
  sbf_ok s h -> sbf_ok s' h' -> same_config s s' ->
  (1 <= ScalableBloomFilter.scale_factor s)%R ->
  length (ScalableBloomFilter.filters s) <= length (ScalableBloomFilter.filters s') ->
  (ScalableBloomFilter.initial_capacity s <= 2 ^ 53)%Z ->
  (next_capacity_product s' < IZR (2 ^ 1000))%R ->
  (ScalableBloomFilter.initial_capacity s
   <= ScalableBloomFilter.calc_next_capacity s)%Z
  /\ (ScalableBloomFilter.calc_next_capacity s
      <= ScalableBloomFilter.calc_next_capacity s')%Z.
Proof.
  intros Hok Hok' (Cic & _ & Csf & Csm) Hsf Hlen _ _.
  split; [by apply (calc_next_capacity_ge s h) |].
  pose proof (ok_capacity s h Hok) as Hic.
  assert (HicR : (1 <= IZR (ScalableBloomFilter.initial_capacity s))%R)
    by (apply IZR_le; lia).
  assert (HlenR : (INR (length (ScalableBloomFilter.filters s))
                   <= INR (length (ScalableBloomFilter.filters s')))%R)
    by (by apply le_INR).
  pose proof (pos_INR (length (ScalableBloomFilter.filters s))) as Hpos.
  unfold ScalableBloomFilter.calc_next_capacity. rewrite Cic, Csf, Csm.
  destruct (ScalableBloomFilter.scale_mode s =? _)%Z.
  - set (x := INR (length (ScalableBloomFilter.filters s))) in *.
    set (y := INR (length (ScalableBloomFilter.filters s'))) in *.
    assert (Hxy : (ScalableBloomFilter.scale_factor s * x
                   <= ScalableBloomFilter.scale_factor s * y)%R) by nra.
    assert (Hx0 : (0 <= ScalableBloomFilter.scale_factor s * x)%R) by nra.
    rewrite !py_int_floor by nra. apply Zfloor_le. nra.
  - pose proof (Rle_pow (ScalableBloomFilter.scale_factor s) _ _ Hsf Hlen) as Hpow.
    pose proof (pow_R1_Rle (ScalableBloomFilter.scale_factor s)
                  (length (ScalableBloomFilter.filters s)) Hsf) as Hp1.
    set (x := (ScalableBloomFilter.scale_factor s
               ^ length (ScalableBloomFilter.filters s))%R) in *.
    set (y := (ScalableBloomFilter.scale_factor s
               ^ length (ScalableBloomFilter.filters s'))%R) in *.
    rewrite !py_int_floor by nra. apply Zfloor_le. nra.
Qed.

Lemma X20_next_capacity_monotone_witness :
  exists s h s' h',
    sbf_ok s h /\ sbf_ok s' h' /\ same_config s s'
    /\ (1 <= ScalableBloomFilter.scale_factor s)%R
    /\ length (ScalableBloomFilter.filters s) = 1
    /\ length (ScalableBloomFilter.filters s') = 2
    /\ (ScalableBloomFilter.initial_capacity s <= 2 ^ 53)%Z
    /\ (next_capacity_product s' < IZR (2 ^ 1000))%R
    /\ (ScalableBloomFilter.initial_capacity s
        <= ScalableBloomFilter.calc_next_capacity s)%Z
    /\ (ScalableBloomFilter.calc_next_capacity s
        <= ScalableBloomFilter.calc_next_capacity s')%Z.
Proof.
  destruct (first_growth sample_hash 1 (9 / 10) 2 1 ∅ ["a"; "b"] 2)
    as (s0 & h1 & l0 & Hinit & Hfs0 & _ & _ & (s & h & l1 & f1 & Hall & Hfs & _));
    [lia | lra | lra | by left | done | | lia |].
  { change (1 =? 1)%Z with true. cbv iota.
    replace (IZR 1 * (2 * INR 1))%R with (IZR 2) by (simpl; lra).
    by rewrite py_int_IZR. }
  destruct (sbf_init_good 1 (9 / 10) 2 1 ∅ h1 s0 Hinit) as (Hok0 & _ & _).
  destruct (sadd_all_step sample_hash ["a"; "b"] s0 s h1 h Hok0 Hall)
    as (Hok & _ & Hcfg & _).
  assert (Hs0 : ScalableBloomFilter.initial_capacity s0 = 1%Z
                /\ ScalableBloomFilter.scale_factor s0 = 2%R
                /\ ScalableBloomFilter.scale_mode s0 = 1%Z).
  { destruct (sbf_init_ok 1 (9 / 10) 2 1 ∅) as (f & _ & _ & _ & _ & Hi & _);
      [lia | lra | lra | by left |].
    rewrite Hi in Hinit. by injection Hinit as <- _. }
  destruct Hs0 as (Eic & Esf & Esm).
  assert (Hsf : (1 <= ScalableBloomFilter.scale_factor s0)%R) by (rewrite Esf; lra).
  assert (Hlen : length (ScalableBloomFilter.filters s0)
                 <= length (ScalableBloomFilter.filters s))
    by (rewrite Hfs0, Hfs; simpl; lia).
  assert (Hic : (ScalableBloomFilter.initial_capacity s0 <= 2 ^ 53)%Z)
    by (rewrite Eic; lia).
  assert (Hb : (next_capacity_product s < IZR (2 ^ 1000))%R).
  { destruct Hcfg as (Cic & _ & Csf & Csm). unfold next_capacity_product.
    rewrite Cic, Csf, Csm, Eic, Esf, Esm, Hfs.
    change (1 =? ScalableBloomFilter.SCALE_MODE_LINEAR)%Z with true. cbv iota.
    simpl. lra. }
  exists s0, h1, s, h. split; [exact Hok0 |]. split; [exact Hok |].
  split; [exact Hcfg |]. split; [exact Hsf |].
  split; [by rewrite Hfs0 |]. split; [by rewrite Hfs |].
  split; [exact Hic |]. split; [exact Hb |].
  apply (X20_next_capacity_monotone s0 s h1 h Hok0 Hok Hcfg Hsf Hlen Hic Hb).
Defined.

(** X21. A scalable filter fresh from its constructor answers [False] to
    every [lookup]. *)
Theorem X21_fresh_scalable_lookup_false (hash : string -> Z -> Z) (ic : Z)
    (p sf : R) (sm : Z) (h0 h1 : ScalableBloomFilter.store)
    (s0 : ScalableBloomFilter.t) (e : string) :
  ScalableBloomFilter.init ic p sf sm h0 = Ok (s0, h1) ->
  ScalableBloomFilter.lookup hash s0 e h1 = Ok false.
Proof.
  intros Hinit.
  destruct (sbf_init_inv ic p sf sm h0 h1 s0 Hinit)
    as (l0 & f0 & Hfs & _ & Hf0 & Hi0 & _).
  destruct (bf_init_inv ic p f0 Hi0) as (Hwf & _ & _ & _ & Hbits).
  unfold ScalableBloomFilter.lookup. rewrite Hfs. simpl.
  rewrite (deref_ok h1 l0 f0 Hf0). simpl.
  rewrite bf_lookup_ok by done.
  destruct (probes_nonempty hash (BloomFilter.size f0) (BloomFilter.hash_count f0) e
              (wf_hash_count_pos f0 Hwf)) as (q & qs & ->).
  simpl. by rewrite Hbits, test_bit_replicate_false.
Qed.

Lemma X21_fresh_scalable_lookup_false_witness :
  exists s h,
    ScalableBloomFilter.init 1 (9 / 10) 2 1 ∅ = Ok (s, h)
    /\ ScalableBloomFilter.lookup sample_hash s "a" h = Ok false.
Proof.
  destruct sample_sbf as (s & h & Hi & _).
  exists s, h. split; [done |].
  apply (X21_fresh_scalable_lookup_false sample_hash 1 (9 / 10) 2 1 ∅ h s "a" Hi).
Defined.

(** X22. [add] on a scalable filter writes to the newest filter only: when
    the filters are distinct objects, every filter that was in the list
    before the call, the newest excepted, is the same after it. *)
Theorem X22_add_leaves_older_filters (hash : string -> Z -> Z)
    (s s' : ScalableBloomFilter.t) (h h' : ScalableBloomFilter.store)
    (e : string) (fs : list ScalableBloomFilter.ref) (l : ScalableBloomFilter.ref) :
  sbf_ok s h -> NoDup (ScalableBloomFilter.filters s) ->
  ScalableBloomFilter.filters s = fs ++ [l] ->
  ScalableBloomFilter.add hash s e h = Ok (s', h') ->
  forall l', l' ∈ fs -> h' !! l' = h !! l'.
Proof.
  intros Hok Hnd Hfs Hadd l' Hl'.
  assert (Hlast : ScalableBloomFilter.last_filter (ScalableBloomFilter.filters s)
                  = Ok l) by (rewrite Hfs; apply last_filter_snoc).
  assert (Hl : l ∈ ScalableBloomFilter.filters s).
  { rewrite Hfs. apply elem_of_app. right. constructor. }
  assert (Hne : l <> l').
  { intros <-. rewrite Hfs in Hnd. by apply nodup_snoc_notin in Hnd. }
  destruct (ok_refs s h Hok l Hl) as (f & Hf & Hwf).
  destruct (ok_refs s h Hok l') as (f' & Hf' & _).
  { rewrite Hfs. apply elem_of_app. by left. }
  destruct (BloomFilter.is_full f) eqn:Hfull.
  - destruct (decide (0 < ScalableBloomFilter.calc_next_capacity s)%Z) as [Hc | Hc];
      [| rewrite (sadd_full_rejected hash s e h l f Hlast Hf Hfull) in Hadd by lia;
         done].
    destruct (sadd_full hash s e h l f Hok Hlast Hf Hfull Hc)
      as (nf & nf' & _ & _ & _ & _ & _ & Heq & _).
    rewrite Heq in Hadd. injection Hadd as <- <-.
    assert (Hfr : fresh (dom h) <> l').
    { intros <-. by rewrite fresh_not_in_store in Hf'. }
    by rewrite !lookup_insert_ne.
  - destruct (sadd_not_full hash s e h l f Hok Hlast Hf Hfull)
      as (g & _ & _ & _ & _ & Heq & _).
    rewrite Heq in Hadd. injection Hadd as <- <-.
    by rewrite lookup_insert_ne.
Qed.

Lemma X22_add_leaves_older_filters_witness :
  exists s h s' h' l0 l1,
    sbf_ok s h /\ NoDup (ScalableBloomFilter.filters s)
    /\ ScalableBloomFilter.filters s = [l0] ++ [l1]
    /\ ScalableBloomFilter.add sample_hash s "c" h = Ok (s', h')
    /\ l0 ∈ [l0]
    /\ h' !! l0 = h !! l0.
Proof.
  destruct (first_growth sample_hash 1 (9 / 10) 2 1 ∅ ["a"; "b"] 2)
    as (s0 & h1 & l0 & Hinit & _ & _ & _ & (s & h & l1 & f1 & Hall & Hfs & _));
    [lia | lra | lra | by left | done | | lia |].
  { change (1 =? 1)%Z with true. cbv iota.
    replace (IZR 1 * (2 * INR 1))%R with (IZR 2) by (simpl; lra).
    by rewrite py_int_IZR. }
  destruct (sbf_init_good 1 (9 / 10) 2 1 ∅ h1 s0 Hinit) as (Hok0 & Hfill0 & _).
  destruct (sadd_all_step sample_hash ["a"; "b"] s0 s h1 h Hok0 Hall)
    as (Hok & _ & (_ & _ & Hsf & _) & _).
  pose proof (filled_nodup s h
                (sadd_all_filled sample_hash ["a"; "b"] s0 s h1 h Hok0 Hfill0 Hall))
    as Hnd.
  assert (Hsf0 : ScalableBloomFilter.scale_factor s0 = 2%R).
  { destruct (sbf_init_ok 1 (9 / 10) 2 1 ∅) as (f & _ & _ & _ & _ & Hi & _);
      [lia | lra | lra | by left |].
    rewrite Hi in Hinit. by injection Hinit as <- _. }
  assert (Hge : (1 <= ScalableBloomFilter.scale_factor s)%R)
    by (rewrite Hsf, Hsf0; lra).
  destruct (sadd_all_total sample_hash ["c"] s h Hok Hge) as (s' & h' & Hall').
  simpl in Hall'. apply bind_ok_inv in Hall' as ([s1' h1'] & Hadd & Hret).
  injection Hret as <- <-.
  assert (Hin : l0 ∈ [l0]) by constructor.
  exists s, h, s1', h1', l0, l1.
  split; [done |]. split; [done |]. split; [done |]. split; [done |].
  split; [exact Hin |].
  apply (X22_add_leaves_older_filters sample_hash s s1' h h1' "c" [l0] l1
           Hok Hnd Hfs Hadd l0 Hin).
Defined.

(** * Sizing *)

(** X23. Sizing is monotone: for valid parameters a larger capacity never
    gets a smaller bit array, and a smaller (stricter) error rate never gets
    a smaller bit array. *)
Theorem X23_size_monotone (c c' : Z) (p p' : R) (f f' : BloomFilter.t) :
  (c <= c')%Z -> (p' <= p)%R ->
  BloomFilter.init c p = Ok f -> BloomFilter.init c' p' = Ok f' ->
  (BloomFilter.size f <= BloomFilter.size f')%Z.
Proof.
  intros Hc Hp Hf Hf'.
  destruct (bf_init_inv c p f Hf) as (Hwf & Hcap & Herr & _).
  destruct (bf_init_inv c' p' f' Hf') as (Hwf' & Hcap' & Herr' & _).
  pose proof (wf_capacity f Hwf) as H0. rewrite Hcap in H0.
  pose proof (wf_capacity f' Hwf') as H0'. rewrite Hcap' in H0'.
  pose proof (wf_error_rate f Hwf) as H1. rewrite Herr in H1.
  pose proof (wf_error_rate f' Hwf') as H1'. rewrite Herr' in H1'.
  pose proof (wf_size f Hwf) as Hs. rewrite Hcap, Herr in Hs.
  pose proof (wf_size f' Hwf') as Hs'. rewrite Hcap', Herr' in Hs'.
  destruct (calc_size_ok c p H0 H1) as [E _]. rewrite E in Hs. injection Hs as <-.
  destruct (calc_size_ok c' p' H0' H1') as [E' _]. rewrite E' in Hs'.
  injection Hs' as <-.
  apply Zceil_le.
  pose proof ln2_sqr_bounds as HL.
  pose proof (ln_lt_0 p H1) as Hl. pose proof (ln_lt_0 p' H1') as Hl'.
  assert (Hln : (ln p' <= ln p)%R).
  { destruct (Req_dec_T p' p) as [-> | Hne]; [lra |].
    left. apply ln_increasing; lra. }
  assert (HcR : (0 < IZR c <= IZR c')%R) by (split; [by apply IZR_lt | by apply IZR_le]).
  unfold Rdiv. apply Rmult_le_compat_r; [left; apply Rinv_0_lt_compat; lra |].
  nra.
Qed.

Lemma X23_size_monotone_witness :
  (1 <= 1)%Z /\ (1 / 2 <= 9 / 10)%R
  /\ BloomFilter.init 1 (9 / 10) = Ok bf_1_09
  /\ BloomFilter.init 1 (1 / 2) = Ok bf_1_05
  /\ (BloomFilter.size bf_1_09 <= BloomFilter.size bf_1_05)%Z.
Proof.
  assert (H1 : (1 <= 1)%Z) by lia.
  assert (H2 : (1 / 2 <= 9 / 10)%R) by lra.
  split; [exact H1 |]. split; [exact H2 |].
  split; [apply init_1_09 |]. split; [apply init_1_05 |].
  apply (X23_size_monotone 1 1 (9 / 10) (1 / 2) bf_1_09 bf_1_05 H1 H2
           init_1_09 init_1_05).
Defined.

(** X24. The derived fields of a filter.  Whatever the constructor returned
    has at least one bit and at least one probe per element, a bit array of
    [size] bits and no element; no sequence of [add] calls changes
    [capacity], [error_rate], [size], [hash_count] or the length of the bit
    array, and each call counts one element. *)
Theorem X24_derived_fields_fixed (hash : string -> Z -> Z) (c : Z) (p : R)
    (f f' : BloomFilter.t) (es : list string) :
  BloomFilter.init c p = Ok f -> BloomFilter.add_all hash f es = Ok f' ->
  ((1 <= BloomFilter.size f)%Z /\ (1 <= BloomFilter.hash_count f)%Z
   /\ length (BloomFilter.bit_array f) = Z.to_nat (BloomFilter.size f)
   /\ BloomFilter.capacity f = c /\ BloomFilter.error_rate f = p
   /\ BloomFilter.element_count f = 0%Z)
  /\ (BloomFilter.size f' = BloomFilter.size f
      /\ BloomFilter.hash_count f' = BloomFilter.hash_count f
      /\ length (BloomFilter.bit_array f') = Z.to_nat (BloomFilter.size f)
      /\ BloomFilter.capacity f' = c /\ BloomFilter.error_rate f' = p
      /\ BloomFilter.element_count f' = Z.of_nat (length es)).
Proof.
  intros Hi Ha.
  destruct (bf_init_inv c p f Hi) as (Hwf & Hc & Hp & He & _).
  pose proof (wf_size_pos f Hwf) as Hsz.
  pose proof (wf_hash_count_pos f Hwf) as Hhc.
  pose proof (wf_bits f Hwf) as Hbits.
  split.
  - split; [lia |]. done.
  - rewrite bf_add_all_ok in Ha by done. injection Ha as <-. simpl.
    split; [done |]. split; [done |].
    split; [by rewrite length_set_bits |].
    split; [done |]. split; [done |]. lia.
Qed.

Lemma X24_derived_fields_fixed_witness :
  exists f',
    BloomFilter.init 1 (1 / 2) = Ok bf_1_05
    /\ BloomFilter.add_all sample_hash bf_1_05 ["a"; "b"; "c"] = Ok f'
    /\ ((1 <= BloomFilter.size bf_1_05)%Z /\ (1 <= BloomFilter.hash_count bf_1_05)%Z
        /\ length (BloomFilter.bit_array bf_1_05)
           = Z.to_nat (BloomFilter.size bf_1_05)
        /\ BloomFilter.capacity bf_1_05 = 1%Z
        /\ BloomFilter.error_rate bf_1_05 = (1 / 2)%R
        /\ BloomFilter.element_count bf_1_05 = 0%Z)
    /\ (BloomFilter.size f' = BloomFilter.size bf_1_05
        /\ BloomFilter.hash_count f' = BloomFilter.hash_count bf_1_05
        /\ length (BloomFilter.bit_array f') = Z.to_nat (BloomFilter.size bf_1_05)
        /\ BloomFilter.capacity f' = 1%Z /\ BloomFilter.error_rate f' = (1 / 2)%R
        /\ BloomFilter.element_count f' = Z.of_nat (length ["a"; "b"; "c"])).
Proof.
  eexists. split; [apply init_1_05 |].
  split; [apply (bf_add_all_ok sample_hash bf_1_05 ["a"; "b"; "c"] wf_bf_1_05) |].
  apply (X24_derived_fields_fixed sample_hash 1 (1 / 2) bf_1_05 _ ["a"; "b"; "c"]
           init_1_05 (bf_add_all_ok sample_hash bf_1_05 ["a"; "b"; "c"] wf_bf_1_05)).
Defined.
